(** * xlab.experiments: the experiment execution engine

    A shallow embedding of [xlab/experiments/experiment.py] (class
    [Experiment]), [xlab/experiments/logger.py] ([Logger], [CsvLogger],
    [read_csv]) and [xlab/experiments/plotter.py] (class [Plotter]), and
    the properties of the engine proved over it.

    Conventions of the embedding.
    - A Python method that mutates [self] and may raise is a computation in
      the monad [M]: it maps a machine (the [Experiment] object and the world
      its callbacks live in) to a result ([inl] an exception, [inr] a value),
      the machine afterwards, and the calls it made to collaborators.
      State changes made before an exception are kept, as in Python.
    - [time.monotonic()] is an input: [start] and [_on_timer] take the clock
      reading of the moment they are called.
    - The [QTimer] is its [isActive()] flag; the host fires [_on_timer] only
      while that flag is set.
    - User callbacks (measure, apply_condition, plot, loggers) act on the
      world only; they are not re-entrant into the [Experiment] object and do
      not write through the numpy views they are handed.
    - The engine keeps the table as the array it shows.  The numpy objects
      behind it, with their buffers, views and copies, are modelled next to
      it, and [append_ref_simulates] relates the two. *)

From Stdlib Require Import ZArith List String Ascii Bool Arith Lia.
From Stdlib Require Import DecimalString.
From Stdlib Require Import Floats.PrimFloat Floats.SpecFloat Floats.FloatOps.
Import ListNotations.

Set Implicit Arguments.
Local Open Scope string_scope.
Local Open Scope list_scope.
Local Open Scope nat_scope.

(* ------------------------------------------------------------------ *)
(** ** Python values *)

(** The scalars a measurement holds: Python [int] (unbounded), [float]
    (binary64) and [str]. *)
Inductive value : Type :=
| VInt (z : Z)
| VFloat (f : float)
| VStr (s : string).

(** Python types, as far as [promote_datatype] and [np.dtype] see them. *)
Inductive pytype : Type := PyInt | PyFloat | PyStr | PyObject.

Definition type_of (v : value) : pytype :=
  match v with
  | VInt _ => PyInt
  | VFloat _ => PyFloat
  | VStr _ => PyStr
  end.

Inductive exn : Type :=
| TypeError
| ValueError
| OverflowError
| IndexError
| AttributeError
| FileExistsError
| RuntimeError (msg : string)
| UserError (code : nat).

(** [float(z)] for a Python int: round to nearest even, [OverflowError]
    when the result does not fit binary64. *)
Definition float_of_int (z : Z) : exn + float :=
  match binary_normalize prec emax z 0 false with
  | S754_infinity _ => inl OverflowError
  | sf => inr (SF2Prim sf)
  end.

(** [measurements_per_condition] is an int or [float('inf')]. *)
Inductive count : Type := Fin (n : Z) | Inf.

(** [a >= b] *)
Definition count_geb (a b : count) : bool :=
  match a, b with
  | Inf, _ => true
  | Fin _, Inf => false
  | Fin x, Fin y => (y <=? x)%Z
  end.

(** [a + 1] *)
Definition count_succ (a : count) : count :=
  match a with
  | Fin x => Fin (x + 1)
  | Inf => Inf
  end.

(* ------------------------------------------------------------------ *)
(** ** collections.OrderedDict *)

Definition OrderedDict : Type := list (string * value).

(** [d[k] = v]: an existing key keeps its position, a new key goes last. *)
Fixpoint dict_set (k : string) (v : value) (d : OrderedDict) : OrderedDict :=
  match d with
  | [] => [(k, v)]
  | (k', v') :: d' =>
      if String.eqb k k' then (k, v) :: d' else (k', v') :: dict_set k v d'
  end.

(** The first entry under key [k]. *)
Fixpoint assoc (V : Type) (k : string) (l : list (string * V)) : option V :=
  match l with
  | [] => None
  | (k', v') :: l' => if String.eqb k k' then Some v' else assoc k l'
  end.

(** [d.get(k)] *)
Definition dict_get (k : string) (d : OrderedDict) : option value :=
  assoc k d.

(** [for k, v in kvs: d[k] = v] *)
Definition dict_update (kvs : list (string * value)) (d : OrderedDict)
  : OrderedDict :=
  fold_left (fun acc kv => dict_set (fst kv) (snd kv) acc) kvs d.

(* ------------------------------------------------------------------ *)
(** ** zip *)

(** Heads and tails of a list of lists, [None] as soon as one is empty. *)
Fixpoint heads_tails (A : Type) (ls : list (list A))
  : option (list A * list (list A)) :=
  match ls with
  | [] => Some ([], [])
  | [] :: _ => None
  | (x :: l) :: ls' =>
      match heads_tails ls' with
      | None => None
      | Some (hs, ts) => Some (x :: hs, l :: ts)
      end
  end.

Fixpoint zip_from (A : Type) (l1 : list A) (rest : list (list A))
  : list (list A) :=
  match l1 with
  | [] => []
  | x :: l1' =>
      match heads_tails rest with
      | None => []
      | Some (hs, ts) => (x :: hs) :: zip_from l1' ts
      end
  end.

(** [zip] applied to the unpacked list [ls]: the tuples of elements at
    equal positions; it stops at the end of the shortest sequence. *)
Definition zip_star (A : Type) (ls : list (list A)) : list (list A) :=
  match ls with
  | [] => []
  | l1 :: rest => zip_from l1 rest
  end.

(* ------------------------------------------------------------------ *)
(** ** numpy structured arrays *)

Definition dtype : Type := list (string * pytype).

(** [dtype.names] *)
Definition names (dt : dtype) : list string := map fst dt.

(** An element of a structured array ([numpy.void]): its dtype and the
    field values. *)
Record void : Type := mkVoid { void_dtype : dtype; void_items : list value }.

(** A one-dimensional structured array.  A slot is [None] while it holds
    the uninitialised memory [np.empty] returns. *)
Record ndarray : Type :=
  mkArray { arr_dtype : dtype; arr_buf : list (option (list value)) }.

(** [a.shape[0]] *)
Definition shape0 (a : ndarray) : nat := List.length (arr_buf a).

(** [np.empty((n,), dt)] *)
Definition np_empty (n : nat) (dt : dtype) : ndarray :=
  mkArray dt (repeat None n).

(** [a[:n]] *)
Definition slice_to (n : nat) (a : ndarray) : ndarray :=
  mkArray (arr_dtype a) (firstn n (arr_buf a)).

(** [a[:n] = src] for [src] of length [n <= len(a)]. *)
Definition assign_prefix (a src : ndarray) : ndarray :=
  mkArray (arr_dtype a) (arr_buf src ++ skipn (shape0 src) (arr_buf a)).

(** The buffer the table continues in: a full one is copied into one of
    twice the size (lines 167 to 172 of [_on_timer]). *)
Definition grown (a : ndarray) (len : nat) : ndarray :=
  if shape0 a <=? len
  then assign_prefix (np_empty (shape0 a * 2) (arr_dtype a)) a
  else a.

Fixpoint list_set (A : Type) (i : nat) (x : A) (l : list A) : list A :=
  match l, i with
  | [], _ => []
  | _ :: l', O => x :: l'
  | y :: l', S i' => y :: list_set i' x l'
  end.

(** The rows of an array whose slots are all initialised. *)
Fixpoint rows_of (buf : list (option (list value))) : list (list value) :=
  match buf with
  | [] => []
  | Some r :: buf' => r :: rows_of buf'
  | None :: buf' => rows_of buf'
  end.

Definition rows (a : ndarray) : list (list value) := rows_of (arr_buf a).

Fixpoint list_eqb (A : Type) (eqb : A -> A -> bool) (l1 l2 : list A) : bool :=
  match l1, l2 with
  | [], [] => true
  | x :: l1', y :: l2' => eqb x y && list_eqb eqb l1' l2'
  | _, _ => false
  end.

(** [dt[k]], the type of field [k]. *)
Definition field_type (k : string) (dt : dtype) : option pytype :=
  assoc k dt.


(** [promote_datatype]: 'If datatype is int (e.g. 0) promote to float';
    [{int: float, str: object}.get(dtype, dtype)]. *)
Definition promote_datatype (t : pytype) : pytype :=
  match t with
  | PyInt => PyFloat
  | PyStr => PyObject
  | other => other
  end.

(** [str(i)] for a field position. *)
Definition decimal (i : nat) : string :=
  NilZero.string_of_uint (Nat.to_uint i).

(** The name [np.dtype] gives the field at position [i]: a field whose
    name is the empty string is named [f<i>]. *)
Definition default_name (i : nat) (name : string) : string :=
  if String.eqb name EmptyString then "f" ++ decimal i else name.

(** [np.dtype(fields)] for a list of [(name, type)] pairs: the fields are
    taken in order, unnamed ones get their default name, and a name that
    an earlier field has is a [ValueError] (field occurs more than
    once). *)
Fixpoint np_dtype_from (i : nat) (seen : list string)
    (fields : list (string * pytype)) : exn + dtype :=
  match fields with
  | [] => inr []
  | (name, t) :: fields' =>
      let name' := default_name i name in
      if existsb (String.eqb name') seen then inl ValueError
      else match np_dtype_from (S i) (name' :: seen) fields' with
           | inl e => inl e
           | inr dt => inr ((name', t) :: dt)
           end
  end.

Definition np_dtype (fields : list (string * pytype)) : exn + dtype :=
  np_dtype_from 0 [] fields.

(** [np.dtype([(name, promote_datatype(type(d)))
              for name, d in zip(columns, data)])] *)
Definition infer_dtype (m : OrderedDict) : exn + dtype :=
  np_dtype (map (fun kv => (fst kv, promote_datatype (type_of (snd kv)))) m).


(** [d in s] for a character [d]. *)
Fixpoint has_char (d : ascii) (s : string) : bool :=
  match s with
  | EmptyString => false
  | String c s' => Ascii.eqb c d || has_char d s'
  end.

(** [line.split(d)] for a one-character delimiter. *)
Fixpoint split_on (d : ascii) (s : string) : list string :=
  match s with
  | EmptyString => [EmptyString]
  | String c s' =>
      if Ascii.eqb c d then EmptyString :: split_on d s'
      else match split_on d s' with
           | [] => [String c EmptyString]
           | field :: fields => String c field :: fields
           end
  end.

(* ------------------------------------------------------------------ *)
(** ** The engine *)

Section Engine.

(** The state user callbacks keep between calls (closures, instruments). *)
Variable U : Type.

(** Python's [float(text)], which numpy applies when a [str] is stored into
    a float64 field; [None] is its [ValueError]. *)
Variable float_of_str : string -> option float.

(** [self._data[idx][name] = v], numpy's conversion of a Python scalar to
    the field type: a float64 field takes ints and floats (and text that
    parses as a float), an object field takes any value as it is.  No field
    has type [int] or [str]: [promote_datatype] maps these away. *)
Definition np_cast (t : pytype) (v : value) : exn + value :=
  match t, v with
  | PyObject, _ => inr v
  | PyFloat, VFloat f => inr (VFloat f)
  | PyFloat, VInt z =>
      match float_of_int z with
      | inl e => inl e
      | inr f => inr (VFloat f)
      end
  | PyFloat, VStr s =>
      match float_of_str s with
      | None => inl ValueError
      | Some f => inr (VFloat f)
      end
  | PyInt, _ => inl TypeError
  | PyStr, _ => inl TypeError
  end.

(** The tuple [data] converted field by field to the row of [dt]. *)
Fixpoint store_fields (dt : dtype) (data : list value)
  : exn + list value :=
  match dt, data with
  | [], [] => inr []
  | (_, t) :: dt', v :: data' =>
      match np_cast t v with
      | inl e => inl e
      | inr c =>
          match store_fields dt' data' with
          | inl e => inl e
          | inr cs => inr (c :: cs)
          end
      end
  | _, _ => inl ValueError
  end.

(** The world callbacks act on: their own state; the files on disk (a
    text file is the list of the texts printed to it, each of them ended
    by a newline on disk); for each path whether the [CsvLogger] writing
    there holds an open handle in [_file]; and the text that handle has
    taken and not written to disk yet.  A path is written by one
    [CsvLogger] object at most, so that the handle is known by its path;
    what is printed between two flushes stays in the buffer of the handle
    (the io buffer, 8192 characters by default, is taken to hold it). *)
Record World : Type := mkWorld {
  user : U;
  files : string -> option (list string);
  csv_file : string -> bool;
  csv_buffer : string -> list string }.

(** A Python callable taking [A] and returning [B], with its effect on the
    world; [inl] is the exception it raises. *)
Definition callback (A B : Type) : Type := A -> World -> (exn + B) * World.

(** [class Logger]: [start(data)], [log(data)], [finish()]. *)
Record Logger : Type := mkLogger {
  Logger_start : callback void unit;
  Logger_log : callback void unit;
  Logger_finish : callback unit unit }.

(** [class Experiment]: the attributes [__init__] sets. *)
Record Experiment : Type := mkExperiment {
  _measure : callback OrderedDict OrderedDict;
  _plot : list (callback ndarray unit);
  _log : list Logger;
  _apply_condition : list (callback OrderedDict OrderedDict);
  _conditions : list (string * list value);
  _measurements_per_condition : count;
  _timer : bool;
  _data : option ndarray;
  _len : nat;
  _t0 : option float;
  _first : bool;
  _measurements_for_condition : count;
  _variables : list string;
  _variable_values : list value;
  _variable_values_iter : list (list value) }.

Definition with_vars (e : Experiment) timer data len t0 first mfc vars vals it
  : Experiment :=
  mkExperiment (_measure e) (_plot e) (_log e) (_apply_condition e)
    (_conditions e) (_measurements_per_condition e)
    timer data len t0 first mfc vars vals it.

Definition set_timer (b : bool) (e : Experiment) : Experiment :=
  with_vars e b (_data e) (_len e) (_t0 e) (_first e)
    (_measurements_for_condition e) (_variables e) (_variable_values e)
    (_variable_values_iter e).

Definition set_data (d : option ndarray) (e : Experiment) : Experiment :=
  with_vars e (_timer e) d (_len e) (_t0 e) (_first e)
    (_measurements_for_condition e) (_variables e) (_variable_values e)
    (_variable_values_iter e).

Definition set_len (n : nat) (e : Experiment) : Experiment :=
  with_vars e (_timer e) (_data e) n (_t0 e) (_first e)
    (_measurements_for_condition e) (_variables e) (_variable_values e)
    (_variable_values_iter e).

Definition set_t0 (t : option float) (e : Experiment) : Experiment :=
  with_vars e (_timer e) (_data e) (_len e) t (_first e)
    (_measurements_for_condition e) (_variables e) (_variable_values e)
    (_variable_values_iter e).

Definition set_first (b : bool) (e : Experiment) : Experiment :=
  with_vars e (_timer e) (_data e) (_len e) (_t0 e) b
    (_measurements_for_condition e) (_variables e) (_variable_values e)
    (_variable_values_iter e).

Definition set_measurements_for_condition (c : count) (e : Experiment)
  : Experiment :=
  with_vars e (_timer e) (_data e) (_len e) (_t0 e) (_first e)
    c (_variables e) (_variable_values e) (_variable_values_iter e).

Definition set_variables (vs : list string) (e : Experiment) : Experiment :=
  with_vars e (_timer e) (_data e) (_len e) (_t0 e) (_first e)
    (_measurements_for_condition e) vs (_variable_values e)
    (_variable_values_iter e).

Definition set_variable_values (vs : list value) (e : Experiment)
  : Experiment :=
  with_vars e (_timer e) (_data e) (_len e) (_t0 e) (_first e)
    (_measurements_for_condition e) (_variables e) vs
    (_variable_values_iter e).

Definition set_variable_values_iter (it : list (list value)) (e : Experiment)
  : Experiment :=
  with_vars e (_timer e) (_data e) (_len e) (_t0 e) (_first e)
    (_measurements_for_condition e) (_variables e) (_variable_values e) it.

(** *** Calls observed from outside *)

Inductive event : Type :=
| TimerStart (msec : Z)
| TimerStop
| CallApplyCondition (measurement : OrderedDict)
| CallMeasure (measurement : OrderedDict)
| CallLogStart (i : nat) (data : void)
| CallLog (i : nat) (data : void)
| CallLogFinish (i : nat)
| CallPlot (j : nat) (measurements : ndarray).

(** *** The monad of methods *)

Record machine : Type := mkMachine { self : Experiment; world : World }.

Definition M (A : Type) : Type :=
  machine -> (exn + A) * machine * list event.

Definition ret (A : Type) (a : A) : M A := fun m => (inr a, m, []).

Definition bind (A B : Type) (c : M A) (k : A -> M B) : M B :=
  fun m =>
    match c m with
    | (inl e, m1, ev1) => (inl e, m1, ev1)
    | (inr a, m1, ev1) =>
        match k a m1 with
        | (r, m2, ev2) => (r, m2, ev1 ++ ev2)
        end
    end.

Definition raise (A : Type) (e : exn) : M A := fun m => (inl e, m, []).
Arguments raise {A} e.

(** [try: c  except: h] with a bare [except]. *)
Definition try_except (A : Type) (c : M A) (h : exn -> M A) : M A :=
  fun m =>
    match c m with
    | (inl e, m1, ev1) =>
        match h e m1 with
        | (r, m2, ev2) => (r, m2, ev1 ++ ev2)
        end
    | ok => ok
    end.

Definition get_self : M Experiment := fun m => (inr (self m), m, []).

Definition modify (f : Experiment -> Experiment) : M unit :=
  fun m => (inr tt, mkMachine (f (self m)) (world m), []).

Definition emit (ev : event) : M unit := fun m => (inr tt, m, [ev]).

(** Calling a user callable: it sees and changes the world only. *)
Definition call (A : Type) (f : World -> (exn + A) * World) : M A :=
  fun m =>
    match f (world m) with
    | (r, w) => (r, mkMachine (self m) w, [])
    end.

Notation "x <- c ;; k" := (bind c (fun x => k))
  (at level 61, c at next level, right associativity).
Notation "c ;; k" := (bind c (fun _ => k))
  (at level 61, right associativity).

(** [for i, x in enumerate(l, i): f(i, x)] *)
Fixpoint for_each (A : Type) (f : nat -> A -> M unit) (i : nat) (l : list A)
  : M unit :=
  match l with
  | [] => ret tt
  | x :: l' => f i x ;; for_each f (S i) l'
  end.

(** *** The timer *)

(** [self._timer.start(msec)] *)
Definition timer_start (msec : Z) : M unit :=
  modify (set_timer true) ;; emit (TimerStart msec).

(** [self._timer.stop()] *)
Definition timer_stop : M unit :=
  modify (set_timer false) ;; emit TimerStop.

(** *** Constructor *)

(** An argument that is one object or a sequence of them
    ([isinstance(x, collections.abc.Iterable)]). *)
Inductive arg (A : Type) : Type :=
| Single (a : A)
| Sequence (l : list A).

Definition as_sequence (A : Type) (x : arg A) : list A :=
  match x with
  | Single a => [a]
  | Sequence l => l
  end.

(** [Plotter()], the default plot sink (it draws with matplotlib). *)
Variable Plotter : callback ndarray unit.

Definition __init__
    (measure : callback OrderedDict OrderedDict)
    (plot : option (arg (callback ndarray unit)))
    (log : arg Logger)
    (conditions : list (string * list value))
    (measurements_per_condition : option count)
    (apply_condition : arg (callback OrderedDict OrderedDict))
  : Experiment :=
  {| _measure := measure;
     _plot := match plot with
              | None => [Plotter]
              | Some p => as_sequence p
              end;
     _log := as_sequence log;
     _apply_condition := as_sequence apply_condition;
     _conditions := conditions;
     _measurements_per_condition :=
       match measurements_per_condition with
       | Some n => n
       | None => match conditions with
                 | _ :: _ => Fin 1
                 | [] => Inf
                 end
       end;
     _timer := false;
     _data := None;
     _len := 0;
     _t0 := None;
     _first := false;
     _measurements_for_condition := Fin 0;
     _variables := [];
     _variable_values := [];
     _variable_values_iter := [] |}.

(** *** Hooks *)

(** [measure(measurement)]: the function adds its results to the dict it
    is handed; the dict afterwards is what comes back. *)
Definition measure (measurement : OrderedDict) : M OrderedDict :=
  emit (CallMeasure measurement) ;;
  e <- get_self ;;
  call (_measure e measurement).

Fixpoint apply_each (fs : list (callback OrderedDict OrderedDict))
    (measurement : OrderedDict) : M OrderedDict :=
  match fs with
  | [] => ret measurement
  | f :: fs' => m' <- call (f measurement) ;; apply_each fs' m'
  end.

(** [apply_condition(measurement)] *)
Definition apply_condition (measurement : OrderedDict) : M OrderedDict :=
  emit (CallApplyCondition measurement) ;;
  e <- get_self ;;
  apply_each (_apply_condition e) measurement.

(** [plot(measurements)] *)
Definition plot (measurements : ndarray) : M unit :=
  e <- get_self ;;
  for_each (fun j plot_function =>
              emit (CallPlot j measurements) ;;
              call (plot_function measurements))
           0 (_plot e).

(** [log_start(data)] *)
Definition log_start (data : void) : M unit :=
  e <- get_self ;;
  for_each (fun i logger =>
              emit (CallLogStart i data) ;; call (Logger_start logger data))
           0 (_log e).

(** [log(data)] *)
Definition log (data : void) : M unit :=
  e <- get_self ;;
  for_each (fun i logger =>
              emit (CallLog i data) ;; call (Logger_log logger data))
           0 (_log e).

(** [log_finish()] *)
Definition log_finish : M unit :=
  e <- get_self ;;
  for_each (fun i logger =>
              emit (CallLogFinish i) ;; call (Logger_finish logger tt))
           0 (_log e).

(** *** start, stop, get_data *)

Definition start (now : float) (interval : Z) : M unit :=
  e <- get_self ;;
  match _conditions e with
  | _ :: _ =>
      modify (set_variables (map fst (_conditions e))) ;;
      modify (set_variable_values_iter (zip_star (map snd (_conditions e)))) ;;
      modify (set_measurements_for_condition (_measurements_per_condition e))
  | [] =>
      modify (set_variables []) ;;
      modify (set_variable_values_iter []) ;;
      modify (set_measurements_for_condition (Fin 0))
  end ;;
  modify (set_first true) ;;
  modify (set_t0 (Some now)) ;;
  timer_start (interval * 1000).

Definition stop : M unit :=
  timer_stop ;;
  log_finish.

(** [self._data[:self._len].copy()]; subscripting [None] is a
    [TypeError]. *)
Definition get_data (e : Experiment) : exn + ndarray :=
  match _data e with
  | None => inl TypeError
  | Some a => inr (slice_to (_len e) a)
  end.

(** *** The table: lines 153 to 176 of [_on_timer] *)

(** [self._data[idx] = data]; the element stored is returned, it is what
    [self._data[idx]] reads afterwards. *)
Definition setitem (idx : nat) (data : list value) : M void :=
  e <- get_self ;;
  match _data e with
  | None => raise TypeError
  | Some a =>
      if shape0 a <=? idx then raise IndexError
      else
        match store_fields (arr_dtype a) data with
        | inl ex => raise ex
        | inr row =>
            modify (set_data
                      (Some (mkArray (arr_dtype a)
                                     (list_set idx (Some row) (arr_buf a))))) ;;
            ret (mkVoid (arr_dtype a) row)
        end
  end.

Definition schema_error : exn :=
  RuntimeError
    "Measure returned different columns (or different order) than first call".

Definition append (measurement : OrderedDict) : M void :=
  match measurement with
  | [] => raise ValueError
  | _ :: _ =>
      let columns := map fst measurement in
      let data := map snd measurement in
      e <- get_self ;;
      match _data e with
      | None =>
          match infer_dtype measurement with
          | inl ex => raise ex
          | inr dt =>
              modify (set_data (Some (np_empty 2 dt))) ;;
              modify (set_len 0)
          end
      | Some a =>
          if negb (list_eqb String.eqb columns (names (arr_dtype a)))
          then raise schema_error
          else ret tt
      end ;;
      e <- get_self ;;
      match _data e with
      | None => raise TypeError
      | Some tmp =>
          let buffer_size := shape0 tmp in
          (if buffer_size <=? _len e
           then modify (set_data
                          (Some (assign_prefix
                                   (np_empty (buffer_size * 2) (arr_dtype tmp))
                                   tmp)))
           else ret tt) ;;
          e <- get_self ;;
          let idx := _len e in
          row <- setitem idx data ;;
          modify (set_len (idx + 1)) ;;
          ret row
      end
  end.

(** *** The tick *)

(** Lines 131 to 142: [None] when the sweep is exhausted and the run was
    stopped, else whether the condition row changed. *)
Definition advance : M (option bool) :=
  e <- get_self ;;
  if count_geb (_measurements_for_condition e) (_measurements_per_condition e)
  then
    modify (set_measurements_for_condition (Fin 0)) ;;
    match _variable_values_iter e with
    | [] => stop ;; ret None
    | vals :: it =>
        modify (set_variable_values_iter it) ;;
        modify (set_variable_values vals) ;;
        ret (Some true)
    end
  else ret (Some false).

(** Lines 178 to 185. *)
Definition report (row : void) : M unit :=
  e <- get_self ;;
  (if _first e then log_start row else ret tt) ;;
  log row ;;
  e <- get_self ;;
  match _data e with
  | None => raise TypeError
  | Some a =>
      plot (slice_to (_len e) a) ;;
      modify (set_first false)
  end.

(** Lines 126 to 149: the record of this tick with the condition values
    set and the conditions applied, [None] when the tick returned early. *)
Definition prepare (now : float) : M (option OrderedDict) :=
  e <- get_self ;;
  match _t0 e with
  | None => raise TypeError
  | Some t0 =>
      let measurement := [("time", VFloat (PrimFloat.sub now t0))] in
      changed <- advance ;;
      match changed with
      | None => ret None
      | Some condition_changed =>
          modify (fun e => set_measurements_for_condition
                             (count_succ (_measurements_for_condition e)) e) ;;
          e <- get_self ;;
          let measurement :=
            dict_update (combine (_variables e) (_variable_values e))
                        measurement in
          measurement <- (if condition_changed : bool
                          then apply_condition measurement
                          else ret measurement) ;;
          ret (Some measurement)
      end
  end.

(** The body of the [try] statement. *)
Definition tick_body (now : float) : M unit :=
  prepared <- prepare now ;;
  match prepared with
  | None => ret tt
  | Some measurement =>
      measurement <- measure measurement ;;
      row <- append measurement ;;
      report row
  end.

Definition _on_timer (now : float) : M unit :=
  try_except (tick_body now) (fun e => timer_stop ;; raise e).

(** The host's event loop: the timer fires at each of the clock readings,
    as long as it is active; an exception leaves the loop. *)
Fixpoint run_ticks (clock : list float) : M unit :=
  match clock with
  | [] => ret tt
  | now :: clock' =>
      e <- get_self ;;
      if _timer e then _on_timer now ;; run_ticks clock' else ret tt
  end.

(* ------------------------------------------------------------------ *)
(** ** logger.py *)

(** [Logger()]: the base class, whose three methods do nothing. *)
Definition BaseLogger : Logger :=
  mkLogger (fun _ w => (inr tt, w)) (fun _ w => (inr tt, w))
           (fun _ w => (inr tt, w)).

(** [str(x)] of a stored scalar, as [print] writes it. *)
Variable str_of_value : value -> string.

Definition write_file (path : string) (content : list string) (w : World)
  : World :=
  mkWorld (user w)
          (fun p => if String.eqb p path then Some content else files w p)
          (csv_file w) (csv_buffer w).

Definition set_csv_file (path : string) (b : bool) (w : World) : World :=
  mkWorld (user w) (files w)
          (fun p => if String.eqb p path then b else csv_file w p)
          (csv_buffer w).

Definition set_csv_buffer (path : string) (pending : list string)
    (w : World) : World :=
  mkWorld (user w) (files w) (csv_file w)
          (fun p => if String.eqb p path then pending else csv_buffer w p).

(** [print( *items, file=f, sep=sep)]: the handle takes one line; nothing
    is written to disk. *)
Definition print_line (path sep : string) (items : list string) (w : World)
  : World :=
  set_csv_buffer path (csv_buffer w path ++ [String.concat sep items]) w.

(** [f.flush()]: what the handle holds goes to the file, after what is
    there. *)
Definition flush (path : string) (w : World) : World :=
  set_csv_buffer path []
    match files w path with
    | Some content => write_file path (content ++ csv_buffer w path) w
    | None => w
    end.

(** [CsvLogger.start]: [open(self._filename, 'xt', encoding='utf-8')]
    creates the file, empty, and fails with [FileExistsError] when the
    path exists; then the column names are printed, and stay in the
    handle: [start] does not flush. *)
Definition CsvLogger_start (filename sep : string) : callback void unit :=
  fun data w =>
    match files w filename with
    | Some _ => (inl FileExistsError, w)
    | None =>
        let w1 := set_csv_buffer filename []
                    (set_csv_file filename true (write_file filename [] w)) in
        (inr tt, print_line filename sep (names (void_dtype data)) w1)
    end.

(** [CsvLogger.log]: the values are printed and the handle is flushed.
    With [self._file] still [None] the line goes to the standard output
    and [self._file.flush()] is an [AttributeError]. *)
Definition CsvLogger_log (filename sep : string) : callback void unit :=
  fun data w =>
    if csv_file w filename
    then (inr tt,
          flush filename
            (print_line filename sep (map str_of_value (void_items data)) w))
    else (inl AttributeError, w).

(** [CsvLogger.finish]: [self._file.close()], which writes what the
    handle holds, and [self._file = None]. *)
Definition CsvLogger_finish (filename : string) : callback unit unit :=
  fun _ w =>
    if csv_file w filename
    then (inr tt, set_csv_file filename false (flush filename w))
    else (inl AttributeError, w).

(** [CsvLogger(filename, sep)] *)
Definition CsvLogger (filename sep : string) : Logger :=
  mkLogger (CsvLogger_start filename sep)
           (CsvLogger_log filename sep)
           (CsvLogger_finish filename).

(* ------------------------------------------------------------------ *)
(** ** Runs and what is observed of them *)



(** [_on_timer] called at each clock reading, whatever the timer says:
    the result and the calls of every tick. *)
Fixpoint fire (clock : list float) (m : machine)
  : list ((exn + unit) * list event) * machine :=
  match clock with
  | [] => ([], m)
  | now :: clock' =>
      match _on_timer now m with
      | (r, m1, ev) =>
          match fire clock' m1 with
          | (out, m2) => ((r, ev) :: out, m2)
          end
      end
  end.

(** The record a tick hands to its first hook: the time and the condition
    values the engine has just bound. *)
Definition condition_of (evs : list event) : option OrderedDict :=
  match evs with
  | CallApplyCondition measurement :: _ => Some measurement
  | CallMeasure measurement :: _ => Some measurement
  | _ => None
  end.

(** The value a tick binds to column v, [None] when the tick called no
    hook. *)
Definition bound_v (out : (exn + unit) * list event) : option value :=
  match condition_of (snd out) with
  | Some measurement => dict_get "v" measurement
  | None => None
  end.

Definition is_measure (ev : event) : bool :=
  match ev with
  | CallMeasure _ => true
  | _ => false
  end.

(** The calls logger number [i] receives. *)
Definition is_logger_event (i : nat) (ev : event) : bool :=
  match ev with
  | CallLogStart j _ => j =? i
  | CallLog j _ => j =? i
  | CallLogFinish j => j =? i
  | _ => false
  end.

Definition logger_events (i : nat) (evs : list event) : list event :=
  filter (is_logger_event i) evs.

(** The records appended one after the other. *)
Fixpoint append_all (records : list OrderedDict) : M (list void) :=
  match records with
  | [] => ret []
  | r :: records' =>
      row <- append r ;;
      rows <- append_all records' ;;
      ret (row :: rows)
  end.

(** The table, once it exists, has a schema, room for a row, and no more
    rows than room; before, the length is the 0 of [__init__]. *)
Definition table_ok (e : Experiment) : Prop :=
  match _data e with
  | None => _len e = 0
  | Some a => _len e <= shape0 a /\ 1 <= shape0 a /\ arr_dtype a <> []
  end.

(** The slots [get_data] copies: the first [_len] of the buffer. *)
Definition snapshot (e : Experiment) : list (option (list value)) :=
  match _data e with
  | None => []
  | Some a => firstn (_len e) (arr_buf a)
  end.

(** The slots that hold the given array elements. *)
Definition stored (rws : list void) : list (option (list value)) :=
  map (fun r => Some (void_items r)) rws.

(** The object after [start]. *)
Definition started (now : float) (e : Experiment) : Experiment :=
  set_timer true
    (set_t0 (Some now)
       (set_first true
          match _conditions e with
          | _ :: _ =>
              set_measurements_for_condition (_measurements_per_condition e)
                (set_variable_values_iter (zip_star (map snd (_conditions e)))
                   (set_variables (map fst (_conditions e)) e))
          | [] =>
              set_measurements_for_condition (Fin 0)
                (set_variable_values_iter [] (set_variables [] e))
          end)).

(** The parts of the object a method may leave alone. *)
Definition static (e : Experiment) :=
  (_measure e, _plot e, _log e, _apply_condition e, _conditions e,
   _measurements_per_condition e).

Definition sweep (e : Experiment) :=
  (_measurements_for_condition e, _variables e, _variable_values e,
   _variable_values_iter e, _t0 e).

Definition table (e : Experiment) := (_data e, _len e).

End Engine.

(** *** Reading back: the header [np.genfromtxt] takes *)

(** [s.lstrip(chars)] *)
Fixpoint lstrip (chars : string) (s : string) : string :=
  match s with
  | EmptyString => EmptyString
  | String c s' => if has_char c chars then lstrip chars s' else s
  end.

Fixpoint string_rev (s : string) : string :=
  match s with
  | EmptyString => EmptyString
  | String c s' => String.append (string_rev s') (String c EmptyString)
  end.

(** [s.strip(chars)] *)
Definition strip (chars : string) (s : string) : string :=
  string_rev (lstrip chars (string_rev (lstrip chars s))).

(** The characters [s.strip()] removes, among the code points below
    256: tab, line feed, vertical tab, form feed, carriage return, the
    separators 28 to 31, space, next line and no-break space. *)
Definition whitespace : string :=
  String "009" (String "010" (String "011" (String "012" (String "013"
  (String "028" (String "029" (String "030" (String "031" (String "032"
  (String "133" (String "160" EmptyString))))))))))).

(** The characters [genfromtxt] strips from a line: space, carriage
    return, line feed. *)
Definition line_ends : string :=
  String " " (String "013" (String "010" EmptyString)).

(** Whether [s] holds a character that is not among [chars]. *)
Fixpoint has_other (chars s : string) : bool :=
  match s with
  | EmptyString => false
  | String c s' => negb (has_char c chars) || has_other chars s'
  end.

(** Whether [s] begins with one of [chars]. *)
Definition starts_in (chars s : string) : bool :=
  match s with
  | EmptyString => false
  | String c _ => has_char c chars
  end.

(** A column name that a header line can give back: it is not blank, it
    holds no comma, no comment mark and no line end, and it neither
    begins nor ends with a space. *)
Definition header_name (c : string) : bool :=
  has_other whitespace c
  && negb (has_char "," c) && negb (has_char "#" c)
  && negb (has_char "013" c) && negb (has_char "010" c)
  && negb (starts_in line_ends c)
  && negb (starts_in line_ends (string_rev c)).

(** The text of a file whose content is the list of the texts printed to
    it: [print] ends each with a line feed. *)
Fixpoint text_of (content : list string) : string :=
  match content with
  | [] => EmptyString
  | line :: content' => String.append line (String "010" (text_of content'))
  end.

(** The lines of a text opened for reading in text mode: a line ends at
    a line feed, at a carriage return, or at the two in a row.  The head
    of the result is the line in progress. *)
Fixpoint lines_from (after_cr : bool) (s : string) : list string :=
  match s with
  | EmptyString => [EmptyString]
  | String c s' =>
      if Ascii.eqb c "010" then
        if after_cr then lines_from false s'
        else EmptyString :: lines_from false s'
      else if Ascii.eqb c "013" then EmptyString :: lines_from true s'
      else match lines_from false s' with
           | [] => [String c EmptyString]
           | line :: rest => String c line :: rest
           end
  end.

(** Iterating over the file gives its lines; after the last line end
    there is no line. *)
Definition text_lines (s : string) : list string :=
  match rev (lines_from false s) with
  | EmptyString :: before => rev before
  | _ => lines_from false s
  end.

(** What [genfromtxt] makes of a line it tries as header, with
    [names=True], [comments='#'] and [delimiter=',']: everything up to
    the first ['#'] is dropped (and every further ['#']), the line is
    stripped of spaces and line ends at both ends, and split at the
    delimiter; a blank line gives no values. *)
Definition header_values (line : string) : list string :=
  let line :=
    if has_char "#" line
    then String.concat EmptyString (tl (split_on "#" line))
    else line in
  let line := strip line_ends (hd EmptyString (split_on "#" line)) in
  if String.eqb line EmptyString then [] else split_on "," line.

(** The loop that looks for the first line with values; no values at the
    end of the file. *)
Fixpoint first_values (lines : list string) : list string :=
  match lines with
  | [] => []
  | line :: lines' =>
      match header_values line with
      | [] => first_values lines'
      | values => values
      end
  end.

(** [read_csv]: the fields [np.genfromtxt(filename, delimiter=',',
    dtype=None, names=True)] takes as names from what is on disk, before
    it cleans them into field names.  [None] is an exception: the file is
    not there, or it holds no line with values and [first_values[0]] is an
    [IndexError].  A first field that is blank (or the comment mark) is
    dropped.  The delimiter is the constant [','] of the source. *)
Definition read_csv_header (U : Type) (filename : string) (w : World U)
  : option (list string) :=
  match files w filename with
  | None => None
  | Some content =>
      match first_values (text_lines (text_of content)) with
      | [] => None
      | first :: rest =>
          let fval := strip whitespace first in
          if String.eqb fval EmptyString || String.eqb fval "#"
          then Some rest
          else Some (first :: rest)
      end
  end.

Arguments raise {U A} e.
Arguments Single {A} a.
Arguments Sequence {A} l.

(* ------------------------------------------------------------------ *)
(** ** The table as numpy objects: buffers, views and copies *)

(** The engine above keeps the table as the array it shows.  Here an
    array is an object that looks at a buffer: a slice [a[:n]] is a view
    on the buffer of [a], [a.copy()] and [np.empty] allocate a buffer of
    their own, and an assignment [a[idx] = data] writes into the buffer
    [a] looks at, for every object that looks at it. *)

Section Objects.

Variable float_of_str : string -> option float.

(** The buffers allocated so far, by address. *)
Definition memory : Type := list (list (option (list value))).

(** An array object: the address of its buffer, its dtype, and the number
    of slots it shows, from slot 0 on. *)
Record array_ref : Type :=
  mkRef { ref_base : nat; ref_dtype : dtype; ref_shape : nat }.

Definition buffer_of (mem : memory) (r : array_ref)
  : list (option (list value)) :=
  nth (ref_base r) mem [].

(** The array an object shows. *)
Definition deref (mem : memory) (r : array_ref) : ndarray :=
  mkArray (ref_dtype r) (firstn (ref_shape r) (buffer_of mem r)).

(** [np.empty((n,), dt)]: a new buffer. *)
Definition np_empty_ref (n : nat) (dt : dtype) (mem : memory)
  : array_ref * memory :=
  (mkRef (List.length mem) dt n, mem ++ [repeat None n]).

(** [a[:n]]: a view, on the buffer of [a]. *)
Definition view_to (n : nat) (r : array_ref) : array_ref :=
  mkRef (ref_base r) (ref_dtype r) (Nat.min n (ref_shape r)).

(** [a.copy()]: a new buffer that holds what [a] shows. *)
Definition copy_ref (r : array_ref) (mem : memory) : array_ref * memory :=
  (mkRef (List.length mem) (ref_dtype r) (ref_shape r),
   mem ++ [arr_buf (deref mem r)]).

(** [a[idx] = row] for a row of the dtype of [a] and [idx] in range. *)
Definition write_ref (r : array_ref) (idx : nat) (row : list value)
    (mem : memory) : memory :=
  list_set (ref_base r) (list_set idx (Some row) (buffer_of mem r)) mem.

(** [a[:n] = src] for [src] that shows [n] slots. *)
Definition assign_prefix_ref (a src : array_ref) (mem : memory) : memory :=
  list_set (ref_base a)
           (arr_buf (deref mem src)
              ++ skipn (ref_shape src) (buffer_of mem a))
           mem.

(** The attributes [_data] and [_len] as objects. *)
Record table_ref : Type :=
  mkTable { data_ref : option array_ref; len_ref : nat }.

(** The table the objects show: what [_data] and [_len] are in the
    engine above. *)
Definition shown (t : table_ref) (mem : memory) : option ndarray * nat :=
  (option_map (deref mem) (data_ref t), len_ref t).

(** [_data] is an array of its own, not a view: it shows its whole
    buffer. *)
Definition table_wf (t : table_ref) (mem : memory) : Prop :=
  match data_ref t with
  | None => True
  | Some a =>
      ref_base a < List.length mem /\
      ref_shape a = List.length (buffer_of mem a)
  end.

(** Lines 166 to 175 of [_on_timer]: a full buffer is replaced by one of
    twice the size, and the row is stored. *)
Definition store_row_ref (data : list value) (t : table_ref) (mem : memory)
  : (exn + void) * table_ref * memory :=
  match data_ref t with
  | None => (inl TypeError, t, mem)
  | Some tmp =>
      let buffer_size := ref_shape tmp in
      let grown_table :=
        if buffer_size <=? len_ref t
        then
          match np_empty_ref (buffer_size * 2) (ref_dtype tmp) mem with
          | (a, mem1) =>
              (mkTable (Some a) (len_ref t), assign_prefix_ref a tmp mem1)
          end
        else (t, mem) in
      match grown_table with
      | (t1, mem1) =>
          match data_ref t1 with
          | None => (inl TypeError, t1, mem1)
          | Some a =>
              let idx := len_ref t1 in
              if ref_shape a <=? idx then (inl IndexError, t1, mem1)
              else
                match store_fields float_of_str (ref_dtype a) data with
                | inl ex => (inl ex, t1, mem1)
                | inr row =>
                    (inr (mkVoid (ref_dtype a) row),
                     mkTable (Some a) (idx + 1),
                     write_ref a idx row mem1)
                end
          end
      end
  end.

(** Lines 153 to 176 of [_on_timer] on the objects. *)
Definition append_ref (measurement : OrderedDict) (t : table_ref)
    (mem : memory) : (exn + void) * table_ref * memory :=
  match measurement with
  | [] => (inl ValueError, t, mem)
  | _ :: _ =>
      let columns := map fst measurement in
      let data := map snd measurement in
      match data_ref t with
      | None =>
          match infer_dtype measurement with
          | inl ex => (inl ex, t, mem)
          | inr dt =>
              match np_empty_ref 2 dt mem with
              | (a, mem1) => store_row_ref data (mkTable (Some a) 0) mem1
              end
          end
      | Some a =>
          if negb (list_eqb String.eqb columns (names (ref_dtype a)))
          then (inl schema_error, t, mem)
          else store_row_ref data t mem
      end
  end.

(** The records appended one after the other, whether a record is taken
    or not. *)
Fixpoint append_each_ref (records : list OrderedDict) (t : table_ref)
    (mem : memory) : table_ref * memory :=
  match records with
  | [] => (t, mem)
  | r :: records' =>
      match append_ref r t mem with
      | (_, t1, mem1) => append_each_ref records' t1 mem1
      end
  end.

(** [get_data]: [self._data[:self._len].copy()]. *)
Definition get_data_ref (t : table_ref) (mem : memory)
  : exn + array_ref * memory :=
  match data_ref t with
  | None => inl TypeError
  | Some a => inr (copy_ref (view_to (len_ref t) a) mem)
  end.

(** The argument of [plot] in line 183: [self._data[:self._len]]. *)
Definition plot_argument (t : table_ref) : option array_ref :=
  option_map (view_to (len_ref t)) (data_ref t).

(** The buffer the table continues in, as an object: a full one is copied
    into a new one of twice the size (what lines 167 to 172 come to). *)
Definition grown_ref (a : array_ref) (len : nat) (mem : memory)
  : array_ref * memory :=
  if ref_shape a <=? len
  then (mkRef (List.length mem) (ref_dtype a) (ref_shape a * 2),
        mem ++ [arr_buf (deref mem a)
                  ++ skipn (ref_shape a) (repeat None (ref_shape a * 2))])
  else (a, mem).

End Objects.

(* ------------------------------------------------------------------ *)
(** ** Sweeps, sessions and invariants *)

Section Sessions.

Variable U : Type.
Variable float_of_str : string -> option float.

(** The ticks one condition row is held for: the measurements per
    condition, and one when that number is below one (line 131 compares
    after line 142 has counted the sample that applied the row). *)
Definition held (k : Z) : nat := Z.to_nat (Z.max 1 k).

(** The condition row of every tick of a sweep, in order. *)
Definition sweep_plan (k : Z) (condition_rows : list (list value))
  : list (list value) :=
  flat_map (fun row => repeat row (held k)) condition_rows.

(** Lines 126 and 145 to 146: the record with the elapsed time and the
    values [vals] under the names [vars]. *)
Definition record_of (t0 : float) (vars : list string) (vals : list value)
    (now : float) : OrderedDict :=
  dict_update (combine vars vals) [("time", VFloat (PrimFloat.sub now t0))].

(** The records the ticks at the clock readings hand to their first hook
    when they follow the plan. *)
Definition planned (t0 : float) (vars : list string) (clock : list float)
    (plan : list (list value)) : list (option OrderedDict) :=
  map (fun tick => Some (record_of t0 vars (snd tick) (fst tick)))
      (combine clock plan).

(** The record each tick of [fire] handed to its first hook. *)
Definition records (outs : list ((exn + unit) * list event))
  : list (option OrderedDict) :=
  map (fun out => condition_of (snd out)) outs.

(** What is done to an experiment from outside: the caller's [start] and
    [stop], and the timer calling [_on_timer]. *)
Inductive op : Type :=
| OpStart (now : float) (interval : Z)
| OpStop
| OpTick (now : float).

Definition run_op (o : op) : M U unit :=
  match o with
  | OpStart now interval => start now interval
  | OpStop => @stop U
  | OpTick now => _on_timer float_of_str now
  end.

(** The calls made one after the other; an exception reaches the caller,
    who goes on with the object as the failed call left it. *)
Fixpoint run_ops (ops : list op) (m : machine U) : machine U :=
  match ops with
  | [] => m
  | o :: ops' => run_ops ops' (snd (fst (run_op o m)))
  end.

(** A value as numpy holds it in a field of the given type. *)
Definition field_holds (t : pytype) (v : value) : bool :=
  match t, v with
  | PyFloat, VFloat _ => true
  | PyObject, _ => true
  | _, _ => false
  end.

(** A row fits a schema: one value per column, each as its column holds
    it. *)
Fixpoint fits (dt : dtype) (row : list value) : bool :=
  match dt, row with
  | [], [] => true
  | (_, t) :: dt', v :: row' => field_holds t v && fits dt' row'
  | _, _ => false
  end.

(** Every slot [get_data] copies is initialised with a row that fits the
    schema of the table. *)
Definition rows_fit (e : Experiment U) : bool :=
  match _data e with
  | None => true
  | Some a =>
      forallb (fun slot => match slot with
                           | Some row => fits (arr_dtype a) row
                           | None => false
                           end)
              (snapshot e)
  end.

(** The buffer holds [2 * 2 ^ j] rows for some [j], and at most twice
    the rows stored (two when fewer than two are stored). *)
Definition capacity_ok (e : Experiment U) : Prop :=
  match _data e with
  | None => True
  | Some a =>
      (exists j, shape0 a = 2 ^ S j) /\ shape0 a <= Nat.max 2 (2 * _len e)
  end.

(** One call after the other on the world; the first exception ends the
    sequence. *)
Definition and_then (A : Type) (c : World U -> (exn + unit) * World U)
    (k : World U -> (exn + A) * World U) : World U -> (exn + A) * World U :=
  fun w =>
    match c w with
    | (inl e, w1) => (inl e, w1)
    | (inr _, w1) => k w1
    end.

(** [for data in rows: logger.log(data)] *)
Fixpoint log_each (logger : Logger U) (rws : list void)
  : World U -> (exn + unit) * World U :=
  match rws with
  | [] => fun w => (inr tt, w)
  | r :: rws' => and_then (Logger_log logger r) (log_each logger rws')
  end.

(** The calls a logger receives in a run: [start] with the first sample,
    [log] with every sample, the first included, then [finish]. *)
Definition logger_session (logger : Logger U) (first : void)
    (rest : list void) : World U -> (exn + unit) * World U :=
  and_then (Logger_start logger first)
    (and_then (log_each logger (first :: rest)) (Logger_finish logger tt)).

(** The line [print( *data, file=f, sep=sep)] writes for an array
    element. *)
Definition csv_line (str_of_value : value -> string) (sep : string)
    (data : void) : string :=
  String.concat sep (map str_of_value (void_items data)).

(** The calls of [apply_condition]. *)
Definition is_apply_condition (ev : event) : bool :=
  match ev with
  | CallApplyCondition _ => true
  | _ => false
  end.

(** A callable that leaves alone the file at [path] and the handle the
    CSV logger writing there holds. *)
Definition leaves_file (path : string) (A B : Type) (f : callback U A B)
  : Prop :=
  forall x w,
    files (snd (f x w)) path = files w path /\
    csv_file (snd (f x w)) path = csv_file w path /\
    csv_buffer (snd (f x w)) path = csv_buffer w path.

(** The hooks of an experiment, its measure, apply_condition and plot
    functions, leave the file at [path] alone. *)
Definition hooks_leave_file (path : string) (e : Experiment U) : Prop :=
  leaves_file path (_measure e) /\
  Forall (leaves_file path (B := OrderedDict)) (_apply_condition e) /\
  Forall (leaves_file path (B := unit)) (_plot e).

End Sessions.

(* ------------------------------------------------------------------ *)
(** ** plotter.py *)

(** An axes of the current figure, as [plt.subplot(n_rows, n_cols, index)]
    makes it. *)
Record Axes : Type :=
  mkAxes { subplot_rows : nat; subplot_cols : nat; subplot_index : nat }.

(** [class Plotter]: the attributes [__init__] sets. *)
Record PlotterObject : Type :=
  mkPlotter { _columns : option (list string);
              _style : string;
              _axes : list Axes }.

(** [Plotter(columns=None, style='+-')] *)
Definition Plotter__init__ (columns : option (list string))
    (style : option string) : PlotterObject :=
  mkPlotter columns
            match style with
            | Some s => s
            | None => "+-"
            end
            [].

(** What [__call__] raises: the [ValueError] of numpy for a field that
    does not exist, and the [ZeroDivisionError] of [n_plots/n_cols]. *)
Inductive plot_exn : Type :=
| NoFieldError (name : string)
| ZeroDivisionError.

(** The calls made on the axes. *)
Inductive drawing : Type :=
| Cla (axis : Axes)
| Plot (axis : Axes) (x y : list (option value)) (style : string)
| SetTitle (axis : Axes) (title : string).

(** [data[name]]: the column of a field, [None] when there is no field of
    that name. *)
Definition getitem (name : string) (data : ndarray)
  : option (list (option value)) :=
  match field_type name (arr_dtype data) with
  | None => None
  | Some _ =>
      Some (map (fun slot =>
                   match slot with
                   | Some row =>
                       dict_get name (combine (names (arr_dtype data)) row)
                   | None => None
                   end)
                (arr_buf data))
  end.

(** [math.ceil(n / c)] for [c > 0]. *)
Definition ceil_div (n c : nat) : nat := (n + c - 1) / c.

(** Lines 50 to 53: the grid for [n_plots] axes.
    [math.ceil(math.sqrt(n_plots))] is the least [c] with
    [n_plots <= c * c] (the float square root is exact enough for any
    number of plots below [2 ^ 52]). *)
Definition layout (n_plots : nat) : plot_exn + list Axes :=
  let n_cols := Nat.sqrt_up n_plots in
  if n_cols =? 0 then inl ZeroDivisionError
  else
    let n_rows := ceil_div n_plots n_cols in
    inr (map (fun i => mkAxes n_rows n_cols (i + 1)) (seq 0 n_plots)).

(** The columns a call plots: those given to the constructor, else all
    fields but the time. *)
Definition plotted_columns (p : PlotterObject) (data : ndarray)
  : list string :=
  match _columns p with
  | Some columns => columns
  | None =>
      filter (fun name => negb (String.eqb name "time"))
             (names (arr_dtype data))
  end.

(** The body of the loop over [zip(self._axes, columns)]: a column that
    is no field of the data raises [ValueError] inside the [try], after
    the axes was cleared; the title is set in any case.  Drawing itself
    ([axis.cla], [axis.plot] on columns that exist, [axis.set_title]) is
    taken not to raise. *)
Definition draw_column (style : string) (time : list (option value))
    (data : ndarray) (pair : Axes * string) : list drawing :=
  let (axis, column) := pair in
  match getitem column data with
  | Some y => [Cla axis; Plot axis time y style; SetTitle axis column]
  | None => [Cla axis; SetTitle axis column]
  end.

(** [Plotter.__call__(data)]: the result, the object afterwards and the
    calls made on the axes. *)
Definition Plotter__call__ (p : PlotterObject) (data : ndarray)
  : (plot_exn + unit) * PlotterObject * list drawing :=
  match getitem "time" data with
  | None => (inl (NoFieldError "time"), p, [])
  | Some time =>
      let columns := plotted_columns p data in
      let n_plots := List.length columns in
      match (if n_plots =? List.length (_axes p) then inr (_axes p)
             else layout n_plots) with
      | inl e => (inl e, p, [])
      | inr axes =>
          (inr tt,
           mkPlotter (_columns p) (_style p) axes,
           flat_map (draw_column (_style p) time data) (combine axes columns))
      end
  end.

(** The plotter after the calls with the given arrays, as long as none
    raises. *)
Fixpoint plot_all (p : PlotterObject) (datas : list ndarray)
  : plot_exn + PlotterObject :=
  match datas with
  | [] => inr p
  | data :: datas' =>
      match Plotter__call__ p data with
      | (inl e, _, _) => inl e
      | (inr _, p', _) => plot_all p' datas'
      end
  end.

(* ------------------------------------------------------------------ *)
(** ** Examples *)

(** Python's [float(text)] on the texts of the examples: ['0.5'] is 0.5,
    and ['abc'] is a [ValueError] (could not convert string to float). *)
Definition float_of_str_example : string -> option float :=
  fun s => if String.eqb s "0.5" then Some 0.5%float else None.

(** [str(x)] on the values of the examples: text as it is, an integer in
    decimal, and the floats 0.0, 0.5, 1.0 and 2.0; a mark for the other
    floats, whose digits the examples do not look at. *)
Definition str_of_value_example (v : value) : string :=
  match v with
  | VStr s => s
  | VInt z => NilZero.string_of_int (Z.to_int z)
  | VFloat f =>
      if PrimFloat.eqb f 0 && negb (PrimFloat.ltb (1 / f) 0) then "0.0"
      else if PrimFloat.eqb f 0.5 then "0.5"
      else if PrimFloat.eqb f 1 then "1.0"
      else if PrimFloat.eqb f 2 then "2.0"
      else "?"
  end.

(** No callback state, no files. *)
Definition empty_world : World unit :=
  mkWorld tt (fun _ => None) (fun _ => false) (fun _ => []).

(** The measure function of the package documentation:
    [measurement['current'] = 0.0]. *)
Definition measure_current : callback unit OrderedDict OrderedDict :=
  fun measurement w => (inr (dict_set "current" (VFloat 0) measurement), w).

Definition dtype_time_current : dtype :=
  [("time", PyFloat); ("current", PyFloat)].

Definition record_at (t : float) : OrderedDict :=
  [("time", VFloat t); ("current", VFloat 0)].

Definition no_plotter : callback unit ndarray unit := fun _ w => (inr tt, w).

(** [Experiment(measure, plot=())] *)
Definition experiment_current : Experiment unit :=
  __init__ no_plotter measure_current (Some (Sequence [])) (Sequence []) []
           None (Sequence []).

(** An experiment whose table has just been allocated. *)
Definition experiment_empty_table : Experiment unit :=
  set_data (Some (np_empty 2 dtype_time_current)) experiment_current.



(** [Experiment(measure, plot=(),
    conditions=[('a', [1, 2]), ('b', [10])])] *)
Definition experiment_unequal : Experiment unit :=
  __init__ no_plotter measure_current (Some (Sequence [])) (Sequence [])
           [("a", [VInt 1; VInt 2]); ("b", [VInt 10])] None (Sequence []).

(** Callbacks that count their calls. *)
Definition counted (w : World nat) : World nat :=
  mkWorld (S (user w)) (files w) (csv_file w) (csv_buffer w).

Definition counting_world : World nat :=
  mkWorld 0 (fun _ => None) (fun _ => false) (fun _ => []).

(** A measure function that sets x to 1.5 at its first call and to
    [later] from then on. *)
Definition measure_x (later : value) : callback nat OrderedDict OrderedDict :=
  fun measurement w =>
    (inr (dict_set "x" (if user w =? 0 then VFloat 1.5 else later)
                   measurement),
     counted w).

(** A measure function that sets x at its first call and y afterwards. *)
Definition measure_x_then_y : callback nat OrderedDict OrderedDict :=
  fun measurement w =>
    (inr (dict_set (if user w =? 0 then "x" else "y") (VFloat 1.5)
                   measurement),
     counted w).

(** A measure function that raises at its call number [n] (from 0). *)
Definition measure_failing (n : nat) : callback nat OrderedDict OrderedDict :=
  fun measurement w =>
    if user w =? n then (inl (UserError 5), counted w)
    else (inr (dict_set "current" (VFloat 0) measurement), counted w).

Definition experiment_of (measure : callback nat OrderedDict OrderedDict)
  : Experiment nat :=
  __init__ (fun _ w => (inr tt, w)) measure (Some (Sequence [])) (Sequence [])
           [] None (Sequence []).

(** The machine after [start] at time 0 and one tick at time 1. *)
Definition after_first_tick (U : Type) (e : Experiment U) (w : World U)
  : machine U :=
  snd (fst (bind (start 0 0)
                 (fun _ => _on_timer float_of_str_example 1)
                 (mkMachine e w))).

(** [Experiment(measure, plot=(), log=CsvLogger('out.csv'))] in a
    directory where [out.csv] exists. *)
Definition experiment_csv : Experiment unit :=
  __init__ no_plotter measure_current (Some (Sequence []))
           (Single (CsvLogger unit str_of_value_example "out.csv" ","))
           [] None (Sequence []).

Definition world_with_file : World unit :=
  mkWorld tt
          (fun p => if String.eqb p "out.csv" then Some ["old"] else None)
          (fun _ => false) (fun _ => []).

(** The files after a session of [CsvLogger('out.csv', sep=';')],
    [start(row)], [log(row)], [finish()], for a row with the columns time
    and current; and the same with the default separator. *)
Definition world_semicolon : World unit :=
  snd (logger_session (CsvLogger unit str_of_value_example "out.csv" ";")
         (mkVoid dtype_time_current [VFloat 1; VFloat 0]) [] empty_world).

Definition world_comma : World unit :=
  snd (logger_session (CsvLogger unit str_of_value_example "out.csv" ",")
         (mkVoid dtype_time_current [VFloat 1; VFloat 0]) [] empty_world).

(** A first run of one tick, stopped, and a second run of one tick. *)
Definition two_runs : M unit unit :=
  bind (start 0 0) (fun _ =>
  bind (_on_timer float_of_str_example 1) (fun _ =>
  bind (@stop unit) (fun _ =>
  bind (start 10 0) (fun _ =>
  _on_timer float_of_str_example 10.5)))).

(** A plot function that raises. *)
Definition plot_failing : callback unit ndarray unit :=
  fun _ w => (inl (UserError 7), w).

(** [Experiment(measure, plot=plot_failing)] *)
Definition experiment_plot_failing : Experiment unit :=
  __init__ no_plotter measure_current (Some (Single plot_failing))
           (Sequence []) [] None (Sequence []).

(** [Experiment(measure, plot=(), log=Logger(),
    measurements_per_condition=3)] *)
Definition experiment_three : Experiment unit :=
  __init__ no_plotter measure_current (Some (Sequence []))
           (Single (BaseLogger unit)) [] (Some (Fin 3)) (Sequence []).

(** [Experiment(measure, plot=(), log=Logger(),
    conditions=[('a', [1, 2]), ('b', [10, 20])],
    measurements_per_condition=2)] *)
Definition experiment_two_variables : Experiment unit :=
  __init__ no_plotter measure_current (Some (Sequence []))
           (Single (BaseLogger unit))
           [("a", [VInt 1; VInt 2]); ("b", [VInt 10; VInt 20])]
           (Some (Fin 2)) (Sequence []).

(** [Experiment(measure, plot=(), conditions=[('v', [1, 2, 3])],
    measurements_per_condition=float('inf'))] *)
Definition experiment_held : Experiment unit :=
  __init__ no_plotter measure_current (Some (Sequence [])) (Sequence [])
           [("v", [VInt 1; VInt 2; VInt 3])] (Some Inf) (Sequence []).

(** [Experiment(measure, plot=(), log=CsvLogger('out.csv'),
    conditions=[('v', [1, 2, 3])], measurements_per_condition=2)] *)
Definition experiment_sweep_csv : Experiment unit :=
  __init__ no_plotter measure_current (Some (Sequence []))
           (Single (CsvLogger unit str_of_value_example "out.csv" ","))
           [("v", [VInt 1; VInt 2; VInt 3])] (Some (Fin 2)) (Sequence []).

(** A first run of three ticks, stopped, and the first tick of a second
    run. *)
Definition calls_example : list op :=
  [OpStart 0 0; OpTick 1; OpTick 2; OpTick 3; OpStop; OpStart 10 0;
   OpTick 11].

(** The sample taken at time [t]. *)
Definition sample_at (t : float) : void :=
  mkVoid dtype_time_current [VFloat t; VFloat 0].

(** An array of two samples with the columns time, a, b and c. *)
Definition array_four_columns : ndarray :=
  mkArray [("time", PyFloat); ("a", PyFloat); ("b", PyFloat);
           ("c", PyObject)]
          [Some [VFloat 1; VFloat 0; VFloat 0.5; VStr "on"];
           Some [VFloat 2; VFloat 0; VFloat 1.5; VStr "off"]].

(* ------------------------------------------------------------------ *)
(** * Properties *)

Section Properties.

Variable U : Type.
Variable float_of_str : string -> option float.

Local Abbreviation M := (M U).
Local Abbreviation machine := (machine U).
Local Abbreviation Experiment := (Experiment U).

(** ** Running the monad *)

Lemma bind_get_self (A : Type) (k : Experiment -> M A) (m : machine) :
  bind (@get_self U) k m = k (self m) m.
Proof.
  unfold bind, get_self. destruct (k (self m) m) as [[r m2] ev2]. reflexivity.
Qed.

Lemma bind_modify (A : Type) (f : Experiment -> Experiment) (k : unit -> M A)
    (m : machine) :
  bind (modify f) k m = k tt (mkMachine (f (self m)) (world m)).
Proof.
  unfold bind, modify.
  destruct (k tt (mkMachine (f (self m)) (world m))) as [[r m2] ev2].
  reflexivity.
Qed.

Lemma bind_ret (A B : Type) (a : A) (k : A -> M B) (m : machine) :
  bind (ret a) k m = k a m.
Proof.
  unfold bind, ret. destruct (k a m) as [[r m2] ev2]. reflexivity.
Qed.

Lemma bind_raise (A B : Type) (e : exn) (k : A -> M B) (m : machine) :
  bind (raise e) k m = (inl e, m, []).
Proof. reflexivity. Qed.

Lemma bind_emit (A : Type) (ev : event) (k : unit -> M A) (m : machine) :
  bind (emit ev) k m =
  match k tt m with (r, m2, ev2) => (r, m2, ev :: ev2) end.
Proof. reflexivity. Qed.

Lemma bind_call (A B : Type) (f : World U -> (exn + A) * World U)
    (k : A -> M B) (m : machine) :
  bind (call f) k m =
  match f (world m) with
  | (inl e, w) => (inl e, mkMachine (self m) w, [])
  | (inr a, w) => k a (mkMachine (self m) w)
  end.
Proof.
  unfold bind, call. destruct (f (world m)) as [[e | a] w]; [reflexivity |].
  destruct (k a (mkMachine (self m) w)) as [[r m2] ev2]. reflexivity.
Qed.

Lemma bind_bind (A B C : Type) (c : M A) (k1 : A -> M B) (k2 : B -> M C)
    (m : machine) :
  bind (bind c k1) k2 m = bind c (fun a => bind (k1 a) k2) m.
Proof.
  unfold bind. destruct (c m) as [[[e | a] m1] ev1]; [reflexivity |].
  destruct (k1 a m1) as [[[e | b] m2] ev2]; [reflexivity |].
  destruct (k2 b m2) as [[r m3] ev3]. now rewrite app_assoc.
Qed.

(** What a sequence did, from what it returned. *)
Lemma bind_inv (A B : Type) (c : M A) (k : A -> M B) (m : machine) r m' ev :
  bind c k m = (r, m', ev) ->
  (exists e, c m = (inl e, m', ev) /\ r = inl e) \/
  (exists a m1 ev1 ev2,
      c m = (inr a, m1, ev1) /\ k a m1 = (r, m', ev2) /\ ev = ev1 ++ ev2).
Proof.
  unfold bind. destruct (c m) as [[[e | a] m1] ev1].
  - intros H. inversion H; subst. left. now exists e.
  - destruct (k a m1) as [[r2 m2] ev2] eqn:K. intros H. inversion H; subst.
    right. now exists a, m1, ev1, ev2.
Qed.

Lemma bind_run (A B : Type) (c : M A) (k : A -> M B) (m : machine) a m1 ev1 :
  c m = (inr a, m1, ev1) ->
  bind c k m = match k a m1 with (r, m2, ev2) => (r, m2, ev1 ++ ev2) end.
Proof. unfold bind. now intros ->. Qed.

Lemma bind_fail (A B : Type) (c : M A) (k : A -> M B) (m : machine) e m1 ev1 :
  c m = (inl e, m1, ev1) -> bind c k m = (inl e, m1, ev1).
Proof. unfold bind. now intros ->. Qed.

Ltac simp_self :=
  cbn [self world _measure _plot _log _apply_condition _conditions
       _measurements_per_condition _timer _data _len _t0 _first
       _measurements_for_condition _variables _variable_values
       _variable_values_iter set_timer set_data set_len set_t0 set_first
       set_measurements_for_condition set_variables set_variable_values
       set_variable_values_iter with_vars].

Ltac simp_self_in H :=
  cbn [self world _measure _plot _log _apply_condition _conditions
       _measurements_per_condition _timer _data _len _t0 _first
       _measurements_for_condition _variables _variable_values
       _variable_values_iter set_timer set_data set_len set_t0 set_first
       set_measurements_for_condition set_variables set_variable_values
       set_variable_values_iter with_vars] in H.

Ltac mrun :=
  repeat (rewrite ?bind_bind, ?bind_get_self, ?bind_modify, ?bind_ret,
           ?bind_raise, ?bind_emit, ?bind_call; simp_self).

Ltac mrun_in H :=
  repeat (rewrite ?bind_bind, ?bind_get_self, ?bind_modify, ?bind_ret,
           ?bind_raise, ?bind_emit, ?bind_call in H; simp_self_in H).

(** ** The hooks touch the world only *)

Section ForEach.

Variable A : Type.
Variable mk : nat -> event.
Variable f : A -> World U -> (exn + unit) * World U.

Lemma for_each_calls (l : list A) : forall i m r m' ev,
  for_each (fun j x => bind (emit (mk j)) (fun _ => call (f x))) i l m
    = (r, m', ev) ->
  self m' = self m /\
  (exists n, n <= List.length l /\ ev = map mk (seq i n)) /\
  (r = inr tt -> ev = map mk (seq i (List.length l))).
Proof.
  induction l as [| x l IH]; intros i m r m' ev H; cbn [for_each] in H.
  - inversion H; subst. split; [reflexivity |]. split; [| reflexivity].
    exists 0. split; [lia | reflexivity].
  - mrun_in H. destruct (f x (world m)) as [[e | []] w] eqn:F.
    + inversion H; subst. cbn. split; [reflexivity |].
      split; [| discriminate]. exists 1. split; [cbn; lia | reflexivity].
    + destruct (for_each _ (S i) l (mkMachine (self m) w))
        as [[r2 m2] ev2] eqn:R.
      inversion H; subst. apply IH in R. cbn in R.
      destruct R as [Hs [[n [Hn He]] Hok]]. split; [exact Hs |]. split.
      * exists (S n). split; [cbn; lia | cbn; now rewrite He].
      * intros Hr. cbn. now rewrite (Hok Hr).
Qed.

Lemma for_each_ok (l : list A) :
  (forall x, In x l -> forall w, fst (f x w) = inr tt) ->
  forall i (m : machine),
  exists w',
    for_each (fun j x => bind (emit (mk j)) (fun _ => call (f x))) i l m
    = (inr tt, mkMachine (self m) w', map mk (seq i (List.length l))).
Proof.
  induction l as [| x l IH]; intros H i m; cbn [for_each].
  - exists (world m). now destruct m.
  - mrun. pose proof (H x (or_introl eq_refl) (world m)) as Hx.
    destruct (f x (world m)) as [r w1]. cbn in Hx. subst r.
    destruct (IH (fun y Hy => H y (or_intror Hy)) (S i)
                 (mkMachine (self m) w1)) as [w' Hw'].
    exists w'. rewrite Hw'. reflexivity.
Qed.

(** A round of calls looks at the world only. *)
Lemma for_each_world_only (l : list A) : forall i (m1 m2 : machine),
  world m1 = world m2 ->
  let F := fun j x => bind (emit (mk j)) (fun _ => call (f x)) in
  fst (fst (for_each F i l m1)) = fst (fst (for_each F i l m2)) /\
  world (snd (fst (for_each F i l m1)))
    = world (snd (fst (for_each F i l m2))) /\
  snd (for_each F i l m1) = snd (for_each F i l m2).
Proof.
  induction l as [| x l IH]; intros i m1 m2 Hw; cbv zeta; cbn [for_each].
  - cbn. now repeat split.
  - mrun. rewrite Hw.
    destruct (f x (world m2)) as [[e | []] w]; [now repeat split |].
    specialize (IH (S i) (mkMachine (self m1) w) (mkMachine (self m2) w)
                   eq_refl).
    cbv zeta in IH.
    destruct (for_each _ (S i) l (mkMachine (self m1) w)) as [[r1 n1] e1].
    destruct (for_each _ (S i) l (mkMachine (self m2) w)) as [[r2 n2] e2].
    cbn [fst snd] in *. destruct IH as [-> [-> ->]]. now repeat split.
Qed.

End ForEach.

Lemma log_start_calls (row : void) (m : machine) r m' ev :
  log_start row m = (r, m', ev) ->
  self m' = self m /\
  (r = inr tt ->
   ev = map (fun i => CallLogStart i row)
            (seq 0 (List.length (_log (self m))))).
Proof.
  unfold log_start. rewrite bind_get_self. intros H.
  apply for_each_calls with (mk := fun i => CallLogStart i row) in H. tauto.
Qed.

Lemma log_calls (row : void) (m : machine) r m' ev :
  log row m = (r, m', ev) ->
  self m' = self m /\
  (r = inr tt ->
   ev = map (fun i => CallLog i row) (seq 0 (List.length (_log (self m))))).
Proof.
  unfold log. rewrite bind_get_self. intros H.
  apply for_each_calls with (mk := fun i => CallLog i row) in H. tauto.
Qed.

Lemma log_finish_calls (m : machine) r m' ev :
  log_finish m = (r, m', ev) ->
  self m' = self m /\
  (forall i, exists l, logger_events i ev = repeat (CallLogFinish i) l) /\
  filter is_measure ev = [] /\
  (r = inr tt ->
   ev = map CallLogFinish (seq 0 (List.length (_log (self m))))).
Proof.
  unfold log_finish. rewrite bind_get_self. intros H.
  apply for_each_calls with (mk := CallLogFinish) in H.
  destruct H as [Hs [[n [_ He]] Hok]]. split; [exact Hs |].
  split; [| split; [| exact Hok]]; subst ev; clear.
  - intros i. generalize 0. induction n as [| n IH]; intros k.
    + now exists 0.
    + cbn. destruct (IH (S k)) as [l Hl]. unfold logger_events in Hl.
      rewrite Hl. destruct (k =? i) eqn:E.
      * apply Nat.eqb_eq in E. subst. now exists (S l).
      * now exists l.
  - generalize 0. induction n as [| n IH]; intros k; [reflexivity |].
    cbn. apply IH.
Qed.

Lemma plot_calls (a : ndarray) (m : machine) r m' ev :
  plot a m = (r, m', ev) ->
  self m' = self m /\ (forall i, logger_events i ev = []).
Proof.
  unfold plot. rewrite bind_get_self. intros H.
  apply for_each_calls with (mk := fun j => CallPlot j a) in H.
  destruct H as [Hs [[n [_ He]] _]]. split; [exact Hs |]. subst ev.
  intros i. generalize 0. induction n as [| n IH]; intros k; [reflexivity |].
  cbn. apply IH.
Qed.

Lemma measure_calls (meas : OrderedDict) (m : machine) r m' ev :
  measure meas m = (r, m', ev) ->
  self m' = self m /\ ev = [CallMeasure meas] /\
  (r, world m') = _measure (self m) meas (world m).
Proof.
  unfold measure. mrun. unfold call.
  destruct (_measure (self m) meas (world m)) as [r0 w]. intros H.
  inversion H; subst. now cbn.
Qed.

Lemma apply_each_calls (fs : list (callback U OrderedDict OrderedDict)) :
  forall meas (m : machine) r m' ev,
  apply_each fs meas m = (r, m', ev) -> self m' = self m /\ ev = [].
Proof.
  induction fs as [| f fs IH]; intros meas m r m' ev H; cbn in H.
  - inversion H; subst. now split.
  - rewrite bind_call in H. destruct (f meas (world m)) as [[e | meas'] w].
    + inversion H; subst. now split.
    + apply IH in H. exact H.
Qed.

Lemma apply_condition_calls (meas : OrderedDict) (m : machine) r m' ev :
  apply_condition meas m = (r, m', ev) ->
  self m' = self m /\ ev = [CallApplyCondition meas].
Proof.
  unfold apply_condition. mrun.
  destruct (apply_each _ meas m) as [[r0 m0] ev0] eqn:E. intros H.
  inversion H; subst. apply apply_each_calls in E. destruct E as [-> ->].
  now split.
Qed.

(** One logger's share of a round of calls to all loggers. *)
Lemma logger_events_round (mk : nat -> event) (i : nat) :
  (forall j, is_logger_event i (mk j) = (j =? i)) ->
  forall n k, k <= i < k + n ->
  logger_events i (map mk (seq k n)) = [mk i].
Proof.
  intros Hmk. induction n as [| n IH]; intros k Hk; [lia |].
  cbn. rewrite Hmk. destruct (k =? i) eqn:E.
  - apply Nat.eqb_eq in E. subst k. f_equal.
    clear IH Hk. generalize (S i) (Nat.lt_succ_diag_r i).
    induction n as [| n IH]; intros k Hk; [reflexivity |].
    cbn. rewrite Hmk. destruct (k =? i) eqn:E.
    + apply Nat.eqb_eq in E. lia.
    + apply IH. lia.
  - apply Nat.eqb_neq in E. apply IH. lia.
Qed.

(** ** The table *)

Lemma list_set_length (A : Type) (x : A) (l : list A) : forall i,
  List.length (list_set i x l) = List.length l.
Proof.
  induction l as [| y l IH]; intros [| i]; cbn; try reflexivity.
  now rewrite IH.
Qed.

Lemma firstn_list_set (A : Type) (x : A) (l : list A) : forall i,
  firstn i (list_set i x l) = firstn i l.
Proof.
  induction l as [| y l IH]; intros [| i]; cbn; try reflexivity.
  now rewrite IH.
Qed.

Lemma firstn_S_list_set (A : Type) (x : A) (l : list A) : forall i,
  i < List.length l ->
  firstn (S i) (list_set i x l) = firstn i l ++ [x].
Proof.
  induction l as [| y l IH]; intros [| i] H; cbn in *; try lia.
  - reflexivity.
  - f_equal. apply IH. lia.
Qed.

Lemma list_eqb_eq (l1 : list string) : forall l2,
  list_eqb String.eqb l1 l2 = true <-> l1 = l2.
Proof.
  induction l1 as [| x l1 IH]; intros [| y l2]; cbn; split;
    try discriminate; try reflexivity.
  - intros H. apply andb_true_iff in H. destruct H as [Hx Hl].
    apply String.eqb_eq in Hx. apply IH in Hl. now subst.
  - intros H. inversion H; subst. rewrite String.eqb_refl. cbn. now apply IH.
Qed.

Lemma grown_dtype (a : ndarray) (len : nat) :
  arr_dtype (grown a len) = arr_dtype a.
Proof. unfold grown. now destruct (shape0 a <=? len). Qed.

Lemma grown_shape (a : ndarray) (len : nat) :
  shape0 (grown a len) =
  if shape0 a <=? len then shape0 a * 2 else shape0 a.
Proof.
  unfold grown. destruct (shape0 a <=? len); [| reflexivity].
  unfold shape0, assign_prefix, np_empty. cbn.
  rewrite length_app, length_skipn, repeat_length. unfold shape0. lia.
Qed.

Lemma grown_prefix (a : ndarray) (len n : nat) :
  n <= shape0 a -> firstn n (arr_buf (grown a len)) = firstn n (arr_buf a).
Proof.
  intros H. unfold grown. destruct (shape0 a <=? len); [| reflexivity].
  cbn. rewrite firstn_app.
  replace (n - List.length (arr_buf a)) with 0 by (unfold shape0 in H; lia).
  cbn. now rewrite app_nil_r.
Qed.

Lemma grown_room (a : ndarray) (len : nat) :
  len <= shape0 a -> 1 <= shape0 a ->
  len < shape0 (grown a len) /\ 1 <= shape0 (grown a len).
Proof.
  intros H1 H2. rewrite grown_shape.
  destruct (shape0 a <=? len) eqn:F;
    [apply Nat.leb_le in F | apply Nat.leb_gt in F]; lia.
Qed.

(** [append] on an existing table, as one expression. *)
Lemma append_run (m : machine) (a : ndarray) (meas : OrderedDict) :
  _data (self m) = Some a -> meas <> [] ->
  append float_of_str meas m =
  if negb (list_eqb String.eqb (map fst meas) (names (arr_dtype a)))
  then (inl schema_error, m, [])
  else
    let len := _len (self m) in
    let a1 := grown a len in
    let m1 := mkMachine (set_data (Some a1) (self m)) (world m) in
    if shape0 a1 <=? len then (inl IndexError, m1, [])
    else
      match store_fields float_of_str (arr_dtype a) (map snd meas) with
      | inl ex => (inl ex, m1, [])
      | inr row =>
          (inr (mkVoid (arr_dtype a) row),
           mkMachine
             (set_len (len + 1)
                (set_data
                   (Some (mkArray (arr_dtype a)
                                  (list_set len (Some row) (arr_buf a1))))
                   (self m)))
             (world m),
           [])
      end.
Proof.
  intros Hd Hne. destruct meas as [| kv meas]; [congruence |].
  destruct m as [e w]. destruct e. cbn in Hd. subst.
  unfold append. mrun. cbn [_data].
  destruct (negb _) eqn:Hcols.
  - reflexivity.
  - mrun. cbn [_data _len]. cbv zeta. unfold grown, setitem.
    destruct (shape0 a <=? _len0) eqn:Hfull; mrun;
      cbn [_data set_data with_vars _len];
      match goal with |- context [if ?c then raise IndexError else _] =>
        destruct c end; try reflexivity;
      cbn [arr_dtype assign_prefix np_empty];
      destruct (store_fields float_of_str (arr_dtype a) (map snd (kv :: meas)));
      mrun; reflexivity.
Qed.

(** The first [append]: the schema is inferred and a buffer of two rows is
    allocated. *)
Lemma append_first (m : machine) (meas : OrderedDict) :
  _data (self m) = None -> meas <> [] ->
  append float_of_str meas m =
  match infer_dtype meas with
  | inl ex => (inl ex, m, [])
  | inr dt =>
      match store_fields float_of_str dt (map snd meas) with
      | inl ex =>
          (inl ex,
           mkMachine (set_len 0 (set_data (Some (np_empty 2 dt)) (self m)))
                     (world m),
           [])
      | inr row =>
          (inr (mkVoid dt row),
           mkMachine
             (set_len 1
                (set_data (Some (mkArray dt [Some row; None])) (self m)))
             (world m),
           [])
      end
  end.
Proof.
  intros Hd Hne. destruct meas as [| kv meas]; [congruence |].
  destruct m as [e w]. destruct e. cbn in Hd. subst.
  unfold append, setitem. remember (kv :: meas) as ms. mrun.
  destruct (infer_dtype ms) as [ex | dt]; [reflexivity |].
  repeat (cbn [np_empty shape0 arr_buf repeat List.length Nat.leb arr_dtype];
          mrun).
  destruct (store_fields float_of_str dt (map snd ms));
    mrun; reflexivity.
Qed.

Lemma np_dtype_from_shape (fields : list (string * pytype)) :
  forall i seen dt,
  np_dtype_from i seen fields = inr dt ->
  List.length dt = List.length fields /\ map snd dt = map snd fields.
Proof.
  induction fields as [| [name t] fields IH]; intros i seen dt H; cbn in H.
  - inversion H. now split.
  - destruct (existsb _ seen); [discriminate |].
    destruct (np_dtype_from (S i) _ fields) as [e | dt'] eqn:R;
      [discriminate |].
    inversion H; subst. apply IH in R. destruct R as [Hl Ht]. cbn.
    split; congruence.
Qed.

(** The schema of a record that has a column has a column. *)
Lemma infer_dtype_nonempty (meas : OrderedDict) (dt : dtype) :
  meas <> [] -> infer_dtype meas = inr dt -> dt <> [].
Proof.
  intros Hne H. unfold infer_dtype, np_dtype in H.
  apply np_dtype_from_shape in H. destruct H as [Hl _].
  rewrite length_map in Hl. destruct meas; [congruence |].
  destruct dt; [discriminate Hl | discriminate].
Qed.

(** [append] changes the table and nothing else. *)
Lemma append_effect (meas : OrderedDict) (m : machine) r m' ev :
  append float_of_str meas m = (r, m', ev) ->
  world m' = world m /\ ev = [] /\
  static (self m') = static (self m) /\ sweep (self m') = sweep (self m) /\
  _timer (self m') = _timer (self m) /\ _first (self m') = _first (self m).
Proof.
  intros H. destruct meas as [| kv meas].
  - cbn in H. inversion H; subst. tauto.
  - destruct (_data (self m)) as [a |] eqn:Hd.
    + rewrite (append_run m (meas := kv :: meas) Hd) in H by discriminate.
      cbv zeta in H. destruct m as [e w]. destruct e.
      repeat match type of H with
             | (if ?c then _ else _) = _ => destruct c
             | match ?c with inl _ => _ | inr _ => _ end = _ => destruct c
             end; inversion H; subst; cbn; tauto.
    + rewrite (append_first m (meas := kv :: meas) Hd) in H by discriminate.
      destruct m as [e w]. destruct e.
      repeat match type of H with
             | match ?c with inl _ => _ | inr _ => _ end = _ => destruct c
             end; inversion H; subst; cbn; tauto.
Qed.

(** What [append] does to the table. *)
Lemma append_table (meas : OrderedDict) (m : machine) r m' ev :
  append float_of_str meas m = (r, m', ev) ->
  table_ok (self m) ->
  table_ok (self m') /\
  (forall a, _data (self m) = Some a ->
     exists a', _data (self m') = Some a' /\ arr_dtype a' = arr_dtype a) /\
  match r with
  | inl _ =>
      snapshot (self m') = snapshot (self m) /\
      _len (self m') = _len (self m)
  | inr row =>
      snapshot (self m') = snapshot (self m) ++ [Some (void_items row)] /\
      _len (self m') = S (_len (self m)) /\
      exists a', _data (self m') = Some a' /\ void_dtype row = arr_dtype a'
  end.
Proof.
  intros H Hok. unfold table_ok, snapshot in *. destruct meas as [| kv meas].
  - cbn in H. inversion H; subst. split; [exact Hok |]. split; [eauto |].
    now split.
  - destruct (_data (self m)) as [a |] eqn:Hd.
    + rewrite (append_run m (meas := kv :: meas) Hd) in H by discriminate.
      cbv zeta in H. destruct Hok as [Hlen [Hcap Hdt]].
      pose proof (grown_room a Hlen Hcap) as [Hroom Hcap'].
      pose proof (grown_prefix a (_len (self m)) Hlen) as Hp.
      pose proof (grown_dtype a (_len (self m))) as Ht.
      destruct (negb _).
      { inversion H; subst. rewrite Hd. split; [tauto |].
        split; [intros a0 E; inversion E; subst; eauto |]. now split. }
      destruct (shape0 (grown a (_len (self m))) <=? _len (self m)) eqn:Hfit.
      { apply Nat.leb_le in Hfit. lia. }
      clear Hfit.
      destruct (store_fields float_of_str (arr_dtype a) (map snd (kv :: meas)))
        as [ex | row]; inversion H; subst; simp_self.
      * rewrite Ht. split; [| split; [| split; [exact Hp | reflexivity]]].
        -- repeat split; try lia; assumption.
        -- intros a0 E. inversion E; subst. eauto.
      * unfold shape0 in *. cbn [arr_dtype arr_buf void_items void_dtype].
        rewrite list_set_length.
        split; [| split; [| split; [| split; [lia | eauto]]]].
        -- repeat split; try lia; assumption.
        -- intros a0 E. inversion E; subst. eauto.
        -- rewrite Nat.add_1_r, firstn_S_list_set by exact Hroom.
           now rewrite Hp.
    + rewrite (append_first m (meas := kv :: meas) Hd) in H by discriminate.
      destruct (infer_dtype (kv :: meas)) as [ex0 | dt] eqn:Hinf.
      { inversion H; subst. rewrite Hd. split; [exact Hok |].
        split; [discriminate |]. now split. }
      assert (Hdt : dt <> []).
      { apply (infer_dtype_nonempty (meas := kv :: meas));
          [discriminate | exact Hinf]. }
      destruct (store_fields float_of_str dt (map snd (kv :: meas)))
        as [ex | row];
        inversion H; subst; simp_self; cbn [np_empty shape0 arr_buf arr_dtype
          repeat List.length firstn void_items app void_dtype].
      * split; [repeat split; try lia; exact Hdt |].
        split; [discriminate |]. now split.
      * split; [repeat split; try lia; exact Hdt |].
        split; [discriminate |]. rewrite Hok. split; [reflexivity |].
        split; [reflexivity | eauto].
Qed.

(** ** The phases of a tick *)

Lemma stop_calls (m : machine) r m' ev :
  stop m = (r, m', ev) ->
  self m' = set_timer false (self m) /\
  (exists ev', ev = TimerStop :: ev' /\ filter is_measure ev' = [] /\
     forall i, exists l, logger_events i ev' = repeat (CallLogFinish i) l) /\
  (r = inr tt ->
   ev = TimerStop :: map CallLogFinish (seq 0 (List.length (_log (self m))))).
Proof.
  unfold stop, timer_stop. mrun.
  destruct (log_finish _) as [[r0 m0] ev0] eqn:F. intros H.
  inversion H; subst. apply log_finish_calls in F. cbn in F.
  destruct F as [Hs [Hl [Hm Hok]]]. split; [exact Hs |]. split.
  - exists ev0. now repeat split.
  - intros Hr. now rewrite (Hok Hr).
Qed.

Lemma advance_inv (m : machine) r m' ev :
  advance m = (r, m', ev) ->
  let e := self m in
  match r with
  | inr (Some false) =>
      count_geb (_measurements_for_condition e)
                (_measurements_per_condition e) = false /\
      m' = m /\ ev = []
  | inr (Some true) =>
      count_geb (_measurements_for_condition e)
                (_measurements_per_condition e) = true /\
      exists vals it,
        _variable_values_iter e = vals :: it /\
        m' = mkMachine
               (set_variable_values vals
                  (set_variable_values_iter it
                     (set_measurements_for_condition (Fin 0) e)))
               (world m) /\
        ev = []
  | inr None =>
      count_geb (_measurements_for_condition e)
                (_measurements_per_condition e) = true /\
      _variable_values_iter e = [] /\
      self m' = set_timer false (set_measurements_for_condition (Fin 0) e) /\
      ev = TimerStop :: map CallLogFinish (seq 0 (List.length (_log e)))
  | inl _ =>
      self m' = set_timer false (set_measurements_for_condition (Fin 0) e) /\
      exists ev', ev = TimerStop :: ev' /\ filter is_measure ev' = []
  end.
Proof.
  unfold advance. rewrite bind_get_self. cbv zeta.
  destruct (count_geb _ _) eqn:G.
  - rewrite bind_modify. destruct (_variable_values_iter (self m)) as [| v it].
    + intros H. apply bind_inv in H.
      destruct H as [[e [H ->]] | [[] [m1 [ev1 [ev2 [H [R ->]]]]]]].
      * apply stop_calls in H. cbn in H. destruct H as [Hs [[ev' [-> [Hm _]]] _]].
        split; [exact Hs |]. now exists ev'.
      * inversion R; subst. apply stop_calls in H. cbn in H.
        destruct H as [Hs [_ Hok]]. rewrite app_nil_r.
        repeat split; [exact Hs | now apply Hok].
    + mrun. intros H. inversion H; subst. split; [reflexivity |].
      now exists v, it.
  - intros H. inversion H; subst. now repeat split.
Qed.

(** [prepare] leaves the table and the first-sample flag alone, calls no
    measurement, and stops the timer exactly when the sweep has ended. *)
Lemma prepare_inv (now : float) (m : machine) r m' ev :
  prepare now m = (r, m', ev) ->
  static (self m') = static (self m) /\
  table (self m') = table (self m) /\
  _first (self m') = _first (self m) /\
  filter is_measure ev = [] /\
  match r with
  | inr (Some _) =>
      _timer (self m') = _timer (self m) /\
      forall i, logger_events i ev = []
  | inr None =>
      _timer (self m') = false /\
      ev = TimerStop
             :: map CallLogFinish (seq 0 (List.length (_log (self m))))
  | inl _ => True
  end.
Proof.
  unfold prepare. rewrite bind_get_self. destruct (_t0 (self m)) as [t0 |].
  2:{ intros H. inversion H; subst. now repeat split. }
  intros H. apply bind_inv in H.
  destruct H as [[e [H ->]] | [ch [m1 [ev1 [ev2 [H [R ->]]]]]]].
  - apply advance_inv in H. cbv zeta in H.
    destruct H as [Hs [ev' [-> Hm]]]. rewrite Hs. now repeat split.
  - apply advance_inv in H. cbv zeta in H.
    destruct ch as [[|] |].
    + destruct H as [_ [vals [it [_ [-> ->]]]]]. mrun_in R.
      apply bind_inv in R.
      destruct R as [[e [R ->]] | [meas [m2 [ev3 [ev4 [R [R' ->]]]]]]].
      * apply apply_condition_calls in R. destruct R as [-> ->].
        now repeat split.
      * inversion R'; subst. apply apply_condition_calls in R.
        destruct R as [-> ->]. now repeat split.
    + destruct H as [_ [-> ->]]. mrun_in R. inversion R; subst.
      now repeat split.
    + destruct H as [_ [_ [Hs ->]]]. inversion R; subst. rewrite Hs.
      rewrite app_nil_r. cbn. repeat split.
      clear. generalize 0. induction (List.length (_log (self m)));
        intros k; [reflexivity | cbn; auto].
Qed.

(** [report]: on success every logger got [start] (on the first sample)
    and [log], and the first-sample flag is cleared. *)
Lemma report_inv (row : void) (m : machine) r m' ev :
  report row m = (r, m', ev) ->
  (self m' = self m \/ self m' = set_first false (self m)) /\
  (r = inr tt ->
   self m' = set_first false (self m) /\
   forall i, i < List.length (_log (self m)) ->
     logger_events i ev =
     (if _first (self m) then [CallLogStart i row] else [])
       ++ [CallLog i row]).
Proof.
  unfold report. rewrite bind_get_self. intros H.
  assert (Hstart : forall r1 m1 ev1,
    (if _first (self m) then log_start row else ret tt) m = (r1, m1, ev1) ->
    self m1 = self m /\
    (r1 = inr tt -> forall i, i < List.length (_log (self m)) ->
       logger_events i ev1 =
       if _first (self m) then [CallLogStart i row] else [])).
  { intros r1 m1 ev1 H1. destruct (_first (self m)).
    - apply log_start_calls in H1. destruct H1 as [Hs Hok].
      split; [exact Hs |]. intros Hr i Hi. rewrite (Hok Hr).
      apply logger_events_round; [reflexivity | lia].
    - inversion H1; subst. now split. }
  apply bind_inv in H.
  destruct H as [[e [H ->]] | [[] [m1 [ev1 [ev2 [H [R ->]]]]]]].
  { apply Hstart in H. split; [now left | discriminate]. }
  apply Hstart in H. destruct H as [Hs1 Hev1]. specialize (Hev1 eq_refl).
  apply bind_inv in R.
  destruct R as [[e [R ->]] | [[] [m2 [ev3 [ev4 [R [R' ->]]]]]]].
  { apply log_calls in R. destruct R as [Hs2 _].
    split; [left; congruence | discriminate]. }
  apply log_calls in R. destruct R as [Hs2 Hev3]. specialize (Hev3 eq_refl).
  rewrite bind_get_self in R'. destruct (_data (self m2)) as [a |].
  2:{ inversion R'; subst. split; [left; congruence | discriminate]. }
  apply bind_inv in R'.
  destruct R' as [[e [R' ->]] | [[] [m3 [ev5 [ev6 [R' [R'' ->]]]]]]].
  { apply plot_calls in R'. destruct R' as [Hs3 _].
    split; [left; congruence | discriminate]. }
  apply plot_calls in R'. destruct R' as [Hs3 Hev5].
  inversion R''; subst. cbn [self]. rewrite Hs3, Hs2, Hs1.
  split; [now right |]. intros _. split; [reflexivity |]. intros i Hi.
  unfold logger_events in *. rewrite !filter_app, app_nil_r.
  rewrite Hev1 by exact Hi. rewrite Hev5. rewrite app_nil_r. f_equal.
  rewrite ?Hs1. apply logger_events_round; [reflexivity | lia].
Qed.

(** ** A tick, taken apart *)

Lemma on_timer_inv (now : float) (m : machine) r m' ev :
  _on_timer float_of_str now m = (r, m', ev) ->
  (r = inr tt /\ tick_body float_of_str now m = (inr tt, m', ev)) \/
  (exists e m1 ev1,
      r = inl e /\ tick_body float_of_str now m = (inl e, m1, ev1) /\
      m' = mkMachine (set_timer false (self m1)) (world m1) /\
      ev = ev1 ++ [TimerStop]).
Proof.
  unfold _on_timer, try_except.
  destruct (tick_body float_of_str now m) as [[[e | []] m1] ev1].
  - unfold timer_stop. mrun. intros H. inversion H; subst. right.
    now exists e, m1, ev1.
  - intros H. inversion H; subst. now left.
Qed.

Lemma tick_body_inv (now : float) (m : machine) r m' ev :
  tick_body float_of_str now m = (r, m', ev) ->
  (exists e, prepare now m = (inl e, m', ev) /\ r = inl e) \/
  (prepare now m = (inr None, m', ev) /\ r = inr tt) \/
  (exists meas0 m1 ev1,
      prepare now m = (inr (Some meas0), m1, ev1) /\
      ((exists e,
           measure meas0 m1 = (inl e, m', [CallMeasure meas0]) /\
           r = inl e /\ ev = ev1 ++ [CallMeasure meas0]) \/
       (exists meas m2,
           measure meas0 m1 = (inr meas, m2, [CallMeasure meas0]) /\
           ((exists e,
                append float_of_str meas m2 = (inl e, m', []) /\
                r = inl e /\ ev = ev1 ++ [CallMeasure meas0]) \/
            (exists row m3 ev3,
                append float_of_str meas m2 = (inr row, m3, []) /\
                report row m3 = (r, m', ev3) /\
                ev = ev1 ++ CallMeasure meas0 :: ev3))))).
Proof.
  unfold tick_body. intros H. apply bind_inv in H.
  destruct H as [[e [H ->]] | [[meas0 |] [m1 [ev1 [ev2 [H [R ->]]]]]]].
  - left. now exists e.
  - right. right. exists meas0, m1, ev1. split; [exact H |].
    apply bind_inv in R.
    destruct R as [[e [R ->]] | [meas [m2 [ev3 [ev4 [R [R' ->]]]]]]].
    + left. exists e. pose proof (measure_calls _ _ R) as [_ [-> _]].
      now repeat split.
    + right. exists meas, m2. pose proof (measure_calls _ _ R) as [_ [-> _]].
      split; [exact R |]. apply bind_inv in R'.
      destruct R' as [[e [R' ->]] | [row [m3 [ev5 [ev6 [R' [R'' ->]]]]]]].
      * left. exists e. pose proof (append_effect _ _ R') as [_ [-> _]].
        now repeat split.
      * right. exists row, m3, ev6.
        pose proof (append_effect _ _ R') as [_ [-> _]]. now repeat split.
  - right. left. inversion R; subst. rewrite app_nil_r. now split.
Qed.

Lemma table_ok_ext (e e' : Experiment) :
  table e' = table e -> table_ok e -> table_ok e'.
Proof.
  unfold table, table_ok. intros H. inversion H as [[Hd Hl]].
  now rewrite Hd, Hl.
Qed.

Lemma snapshot_ext (e e' : Experiment) :
  table e' = table e -> snapshot e' = snapshot e.
Proof.
  unfold table, snapshot. intros H. inversion H as [[Hd Hl]].
  now rewrite Hd, Hl.
Qed.

Lemma table_of_self (e e' : Experiment) :
  e' = e \/ e' = set_first false e \/ e' = set_timer false e ->
  table e' = table e /\ static e' = static e /\ sweep e' = sweep e.
Proof. intros [-> | [-> | ->]]; now repeat split. Qed.

(** Whatever a tick returns, the table stays well formed, keeps its
    schema, and keeps its rows, with at most one new row after them. *)
Lemma tick_table (now : float) (m : machine) r m' ev :
  _on_timer float_of_str now m = (r, m', ev) ->
  table_ok (self m) ->
  static (self m') = static (self m) /\
  table_ok (self m') /\
  (forall a, _data (self m) = Some a ->
     exists a', _data (self m') = Some a' /\ arr_dtype a' = arr_dtype a) /\
  (snapshot (self m') = snapshot (self m) \/
   exists row, snapshot (self m') = snapshot (self m) ++ [Some row]).
Proof.
  intros H Hok.
  assert (Hgen : forall r1 m1 ev1,
    tick_body float_of_str now m = (r1, m1, ev1) ->
    static (self m1) = static (self m) /\
    table_ok (self m1) /\
    (forall a, _data (self m) = Some a ->
       exists a', _data (self m1) = Some a' /\ arr_dtype a' = arr_dtype a) /\
    (snapshot (self m1) = snapshot (self m) \/
     exists row, snapshot (self m1) = snapshot (self m) ++ [Some row])).
  { clear H. intros r1 m1 ev1 H. apply tick_body_inv in H.
    assert (Hsame : forall mx, static (self mx) = static (self m) ->
      table (self mx) = table (self m) ->
      static (self mx) = static (self m) /\
      table_ok (self mx) /\
      (forall a, _data (self m) = Some a ->
         exists a', _data (self mx) = Some a' /\ arr_dtype a' = arr_dtype a)
      /\
      (snapshot (self mx) = snapshot (self m) \/
       exists row, snapshot (self mx) = snapshot (self m) ++ [Some row])).
    { intros mx Hst Ht. split; [exact Hst |].
      split; [now apply (table_ok_ext Ht) |].
      split; [| left; now apply snapshot_ext].
      intros a Ha. exists a. split; [| reflexivity].
      unfold table in Ht. inversion Ht as [[Hd Hl]]. congruence. }
    destruct H as [[e [P _]] | [[P _] | [meas0 [m2 [ev2 [P H]]]]]].
    - apply prepare_inv in P. destruct P as [Hst [Ht _]]. now apply Hsame.
    - apply prepare_inv in P. destruct P as [Hst [Ht _]]. now apply Hsame.
    - apply prepare_inv in P. destruct P as [Hst [Ht _]].
      destruct H as [[e [Me _]] | [meas [m3 [Me H]]]].
      + apply measure_calls in Me. destruct Me as [Hs _].
        apply Hsame; now rewrite Hs.
      + apply measure_calls in Me. destruct Me as [Hs _].
        assert (Hok3 : table_ok (self m3)).
        { rewrite Hs. now apply (table_ok_ext Ht). }
        assert (Hsnap3 : snapshot (self m3) = snapshot (self m)).
        { rewrite Hs. now apply snapshot_ext. }
        assert (Hd3 : _data (self m3) = _data (self m)).
        { rewrite Hs. unfold table in Ht. now inversion Ht. }
        destruct H as [[e [Ap _]] | [row [m4 [ev4 [Ap [Rp _]]]]]].
        * pose proof (append_effect _ _ Ap) as [_ [_ [Hst4 _]]].
          apply append_table in Ap; [| exact Hok3].
          destruct Ap as [Hok4 [Hsch [Hsn _]]].
          split; [rewrite Hst4, Hs; exact Hst |]. split; [exact Hok4 |].
          split; [intros a Ha; apply Hsch; congruence |].
          left. congruence.
        * pose proof (append_effect _ _ Ap) as [_ [_ [Hst4 _]]].
          apply append_table in Ap; [| exact Hok3].
          destruct Ap as [Hok4 [Hsch [Hsn _]]].
          apply report_inv in Rp. destruct Rp as [Hs5 _].
          assert (Hx : self m1 = self m4 \/ self m1 = set_first false (self m4)
                       \/ self m1 = set_timer false (self m4)) by tauto.
          apply table_of_self in Hx. destruct Hx as [Ht5 [Hst5 _]].
          split; [rewrite Hst5, Hst4, Hs; exact Hst |].
          split; [now apply (table_ok_ext Ht5) |].
          split.
          -- intros a Ha. destruct (Hsch a) as [a' [Ha' Hdt]]; [congruence |].
             exists a'. split; [| exact Hdt]. unfold table in Ht5.
             inversion Ht5. congruence.
          -- right. exists (void_items row).
             rewrite (snapshot_ext Ht5). congruence. }
  apply on_timer_inv in H.
  destruct H as [[_ H] | [e [m1 [ev1 [_ [H [-> _]]]]]]].
  - now apply Hgen in H.
  - apply Hgen in H. exact H.
Qed.

(** ** Growth of the table *)

Lemma names_nonempty (meas : OrderedDict) (dt : dtype) :
  map fst meas = names dt -> dt <> [] -> meas <> [].
Proof. destruct meas, dt; cbn; congruence. Qed.

(** A record with the columns of the table whose values convert is
    appended, into the buffer or into one of twice the size. *)
Lemma append_accepts (m : machine) (a : ndarray) (meas : OrderedDict) row :
  _data (self m) = Some a -> table_ok (self m) ->
  map fst meas = names (arr_dtype a) ->
  store_fields float_of_str (arr_dtype a) (map snd meas) = inr row ->
  exists m' a',
    append float_of_str meas m = (inr (mkVoid (arr_dtype a) row), m', []) /\
    _data (self m') = Some a' /\ arr_dtype a' = arr_dtype a /\
    shape0 a' =
      (if shape0 a <=? _len (self m) then shape0 a * 2 else shape0 a).
Proof.
  intros Hd Hok Hcols Hstore. pose proof Hok as Hok'.
  unfold table_ok in Hok'. rewrite Hd in Hok'. destruct Hok' as [Hl [Hc Hdt]].
  rewrite (append_run m Hd (names_nonempty Hcols Hdt)). cbv zeta.
  replace (list_eqb String.eqb (map fst meas) (names (arr_dtype a)))
    with true by (symmetry; now apply list_eqb_eq).
  cbn [negb]. destruct (grown_room a Hl Hc) as [Hroom _].
  apply Nat.leb_gt in Hroom. rewrite Hroom, Hstore.
  eexists. eexists. split; [reflexivity |]. simp_self.
  split; [reflexivity |]. split; [reflexivity |].
  unfold shape0 at 1. cbn [arr_buf]. rewrite list_set_length.
  apply grown_shape.
Qed.

Lemma append_all_rows (dt : dtype) (records : list OrderedDict)
    (rws : list (list value)) :
  Forall2 (fun meas row =>
             map fst meas = names dt /\
             store_fields float_of_str dt (map snd meas) = inr row)
          records rws ->
  forall (m : machine) a,
    _data (self m) = Some a -> arr_dtype a = dt -> table_ok (self m) ->
    exists m',
      append_all float_of_str records m = (inr (map (mkVoid dt) rws), m', [])
      /\ table_ok (self m')
      /\ snapshot (self m') = snapshot (self m) ++ map Some rws
      /\ exists a', _data (self m') = Some a' /\ arr_dtype a' = dt.
Proof.
  induction 1 as [| meas row records rws [Hcols Hstore] _ IH];
    intros m a Hd Hdt Hok.
  - exists m. cbn. rewrite app_nil_r. repeat split; eauto.
  - subst dt. destruct (append_accepts m meas Hd Hok Hcols Hstore)
      as [m1 [a1 [Hap [Hd1 [Hdt1 _]]]]].
    pose proof (append_table _ _ Hap Hok) as [Hok1 [_ [Hsnap _]]].
    destruct (IH m1 a1 Hd1 Hdt1 Hok1) as [m' [Hall [Hok' [Hsnap' Hex]]]].
    exists m'. cbn [append_all]. erewrite bind_run by exact Hap.
    erewrite bind_run by exact Hall. unfold ret. cbn [map app].
    split; [reflexivity |]. split; [exact Hok' |]. split; [| exact Hex].
    rewrite Hsnap', Hsnap. cbn [void_items]. now rewrite <- app_assoc.
Qed.

(** C7.  Every append keeps the length of the table within its capacity,
    whatever it returns; an accepted record goes after the rows already
    there, into a buffer of twice the size when the old one is full.
    Hence [N] records of one schema appended to an empty table of
    capacity 2 (the one the first [append] allocates) give a snapshot of
    exactly these [N] rows in order, for every [N]. *)
Theorem append_growth :
  (forall meas (m : machine) r m' ev a,
      append float_of_str meas m = (r, m', ev) ->
      _data (self m) = Some a -> table_ok (self m) ->
      exists a',
        _data (self m') = Some a' /\ _len (self m') <= shape0 a' /\
        firstn (_len (self m)) (arr_buf a')
          = firstn (_len (self m)) (arr_buf a) /\
        forall row, r = inr row ->
          _len (self m') = S (_len (self m)) /\
          shape0 a' =
            (if shape0 a <=? _len (self m) then shape0 a * 2 else shape0 a)
          /\ snapshot (self m') = snapshot (self m) ++ [Some (void_items row)])
  /\
  (forall (dt : dtype) records rws (m : machine),
      _data (self m) = Some (np_empty 2 dt) -> _len (self m) = 0 ->
      dt <> [] ->
      Forall2 (fun meas row =>
                 map fst meas = names dt /\
                 store_fields float_of_str dt (map snd meas) = inr row)
              records rws ->
      exists m',
        append_all float_of_str records m
          = (inr (map (mkVoid dt) rws), m', []) /\
        get_data (self m') = inr (mkArray dt (map Some rws)) /\
        List.length (map Some rws) = List.length records).
Proof.
  split.
  - intros meas m r m' ev a H Hd Hok.
    pose proof (append_table _ _ H Hok) as [Hok' [Hsch Hres]].
    destruct (Hsch a Hd) as [a' [Hd' Hdt']]. exists a'.
    split; [exact Hd' |].
    pose proof Hok' as Hk. unfold table_ok in Hk. rewrite Hd' in Hk.
    split; [tauto |]. split.
    + assert (Hsn : firstn (_len (self m)) (snapshot (self m'))
                    = snapshot (self m)).
      { destruct r as [e | row].
        - destruct Hres as [-> Hl]. unfold snapshot. rewrite Hd.
          now rewrite firstn_firstn, Nat.min_id.
        - destruct Hres as [-> _]. unfold snapshot. rewrite Hd.
          rewrite firstn_app, firstn_firstn, Nat.min_id.
          rewrite length_firstn.
          unfold table_ok in Hok. rewrite Hd in Hok. unfold shape0 in Hok.
          replace (_len (self m) - Nat.min (_len (self m))
                                     (List.length (arr_buf a))) with 0 by lia.
          cbn. now rewrite app_nil_r. }
      unfold snapshot in Hsn. rewrite Hd, Hd' in Hsn.
      rewrite firstn_firstn in Hsn.
      replace (Nat.min (_len (self m)) (_len (self m')))
        with (_len (self m)) in Hsn; [exact Hsn |].
      destruct r; [destruct Hres as [_ ->] | destruct Hres as [_ [-> _]]]; lia.
    + intros row ->. destruct Hres as [Hsnap [Hlen _]].
      split; [exact Hlen |]. split; [| exact Hsnap].
      destruct meas as [| kv meas]; [cbn in H; discriminate |].
      rewrite (append_run m (meas := kv :: meas) Hd) in H by discriminate.
      cbv zeta in H. destruct (negb _); [discriminate |].
      destruct (shape0 (grown a (_len (self m))) <=? _len (self m));
        [discriminate |].
      destruct (store_fields _ _ _); [discriminate |].
      inversion H; subst. cbn in Hd'. inversion Hd'; subst.
      unfold shape0 at 1. cbn [arr_buf]. rewrite list_set_length.
      apply grown_shape.
  - intros dt records rws m Hd Hl Hdt HF.
    assert (Hok : table_ok (self m)).
    { unfold table_ok. rewrite Hd, Hl. cbn. repeat split; try lia. exact Hdt. }
    destruct (append_all_rows HF m Hd eq_refl Hok)
      as [m' [Hall [Hok' [Hsnap [a' [Hd' Hdt']]]]]].
    exists m'. split; [exact Hall |]. split.
    + unfold get_data, slice_to. unfold snapshot in Hsnap.
      rewrite Hd, Hd' in *. rewrite Hl in Hsnap. cbn in Hsnap.
      now rewrite Hsnap, Hdt'.
    + rewrite length_map. symmetry. now apply (Forall2_length HF).
Qed.

(** ** Types of the columns *)















(** ** Schema freeze *)

Lemma get_data_snapshot (e : Experiment) (a : ndarray) :
  _data e = Some a -> get_data e = inr (mkArray (arr_dtype a) (snapshot e)).
Proof. unfold get_data, snapshot, slice_to. now intros ->. Qed.

Lemma snapshot_length (e : Experiment) :
  table_ok e -> List.length (snapshot e) = _len e.
Proof.
  unfold table_ok, snapshot. destruct (_data e) as [a |].
  - intros [H _]. rewrite length_firstn. unfold shape0 in H. lia.
  - now intros ->.
Qed.

(** The state in which the record of a tick reaches the table. *)
Lemma before_append (now : float) (m : machine) meas0 m1 ev1 meas m2 ev2 :
  prepare now m = (inr (Some meas0), m1, ev1) ->
  measure meas0 m1 = (inr meas, m2, ev2) ->
  table (self m2) = table (self m) /\ static (self m2) = static (self m) /\
  _first (self m2) = _first (self m) /\ _timer (self m2) = _timer (self m) /\
  ev2 = [CallMeasure meas0] /\ filter is_measure ev1 = [] /\
  forall i, logger_events i ev1 = [].
Proof.
  intros P Me. apply prepare_inv in P.
  destruct P as [Hst [Ht [Hf [Hm [Hti Hl]]]]].
  apply measure_calls in Me. destruct Me as [Hs [-> _]]. rewrite Hs.
  now repeat split.
Qed.

(** A tick whose record came back from the measurement, continued. *)
Lemma tick_body_run (now : float) (m : machine) meas0 m1 ev1 meas m2 ev2 :
  prepare now m = (inr (Some meas0), m1, ev1) ->
  measure meas0 m1 = (inr meas, m2, ev2) ->
  tick_body float_of_str now m =
  match bind (append float_of_str meas) (@report U) m2 with
  | (r, m', ev3) => (r, m', ev1 ++ ev2 ++ ev3)
  end.
Proof.
  intros P Me. unfold tick_body. unfold bind at 1. rewrite P.
  unfold bind at 1. rewrite Me.
  destruct (bind (append float_of_str meas) _ m2) as [[r m'] ev3].
  reflexivity.
Qed.

(** C2, amended.  Once the schema is frozen, a tick whose record has the
    columns of the table in their order, and values that convert to the
    types of the columns, appends exactly its row: the snapshot grows by
    one.  A tick whose non-empty record has other columns, or another
    order, raises the schema error before anything is appended; the timer
    is stopped and the rows collected so far are unchanged and still
    returned by [get_data]. *)
Theorem schema_freeze :
  forall (now : float) (m : machine) a meas0 m1 ev1 meas m2 ev2,
    table_ok (self m) -> _data (self m) = Some a ->
    prepare now m = (inr (Some meas0), m1, ev1) ->
    measure meas0 m1 = (inr meas, m2, ev2) ->
    (forall row,
        map fst meas = names (arr_dtype a) ->
        store_fields float_of_str (arr_dtype a) (map snd meas) = inr row ->
        exists r m' ev,
          _on_timer float_of_str now m = (r, m', ev) /\
          get_data (self m')
            = inr (mkArray (arr_dtype a) (snapshot (self m) ++ [Some row])) /\
          List.length (snapshot (self m'))
            = S (List.length (snapshot (self m)))) /\
    (meas <> [] -> map fst meas <> names (arr_dtype a) ->
     exists m',
       _on_timer float_of_str now m
         = (inl schema_error, m', ev1 ++ ev2 ++ [TimerStop]) /\
       _timer (self m') = false /\
       table (self m') = table (self m) /\
       get_data (self m') = get_data (self m) /\
       get_data (self m') = inr (mkArray (arr_dtype a) (snapshot (self m)))).
Proof.
  intros now m a meas0 m1 ev1 meas m2 ev2 Hok Hd P Me.
  destruct (before_append _ _ P Me) as [Ht [Hst [Hf [Hti [-> _]]]]].
  assert (Hd2 : _data (self m2) = Some a).
  { unfold table in Ht. inversion Ht. congruence. }
  assert (Hok2 : table_ok (self m2)) by now apply (table_ok_ext Ht).
  split.
  - intros row Hcols Hs.
    destruct (append_accepts m2 meas Hd2 Hok2 Hcols Hs)
      as [m3 [a3 [Hap [Hd3 [Hdt3 _]]]]].
    pose proof (append_table _ _ Hap Hok2) as [Hok3 [_ [Hsnap [Hlen _]]]].
    cbn [void_items] in Hsnap. rewrite (snapshot_ext Ht) in Hsnap.
    destruct (_on_timer float_of_str now m) as [[r m'] ev] eqn:H.
    exists r, m', ev. split; [reflexivity |].
    assert (Hfin : table (self m') = table (self m3)).
    { apply on_timer_inv in H.
      assert (Hb : forall rb mb evb,
        tick_body float_of_str now m = (rb, mb, evb) ->
        table (self mb) = table (self m3)).
      { intros rb mb evb Hb. rewrite (tick_body_run _ _ P Me) in Hb.
        erewrite bind_run in Hb by exact Hap.
        destruct (report _ m3) as [[r5 m5] ev5] eqn:Rp.
        inversion Hb; subst. apply report_inv in Rp. destruct Rp as [Hs5 _].
        apply table_of_self. tauto. }
      destruct H as [[_ H] | [e [mb [evb [_ [H [-> _]]]]]]].
      - now apply Hb in H.
      - apply Hb in H. exact H. }
    assert (Hd' : _data (self m') = Some a3).
    { unfold table in Hfin. inversion Hfin. congruence. }
    rewrite (get_data_snapshot _ Hd'), (snapshot_ext Hfin), Hsnap, Hdt3.
    split; [reflexivity |]. rewrite length_app. cbn. lia.
  - intros Hne Hcols.
    assert (Hap : append float_of_str meas m2 = (inl schema_error, m2, [])).
    { rewrite (append_run m2 Hd2 Hne).
      destruct (list_eqb String.eqb (map fst meas) (names (arr_dtype a)))
        eqn:E; [| reflexivity].
      apply list_eqb_eq in E. contradiction. }
    exists (mkMachine (set_timer false (self m2)) (world m2)).
    split.
    + unfold _on_timer, try_except. rewrite (tick_body_run _ _ P Me).
      erewrite bind_fail by exact Hap. unfold timer_stop. mrun.
      unfold raise. cbn [app]. now rewrite <- app_assoc.
    + simp_self. split; [reflexivity |]. split; [exact Ht |].
      assert (Hg : get_data (set_timer false (self m2)) = get_data (self m)).
      { unfold get_data. simp_self. unfold table in Ht. inversion Ht.
        congruence. }
      split; [exact Hg |]. rewrite Hg. now apply get_data_snapshot.
Qed.

(** ** start and stop *)

Lemma start_run (now : float) (interval : Z) (m : machine) :
  start now interval m =
  (inr tt, mkMachine (started now (self m)) (world m),
   [TimerStart (interval * 1000)]).
Proof.
  unfold start, started, timer_start. rewrite bind_get_self.
  destruct (_conditions (self m)); mrun; reflexivity.
Qed.

Lemma started_parts (now : float) (e : Experiment) :
  static (started now e) = static e /\ table (started now e) = table e /\
  _timer (started now e) = true /\ _first (started now e) = true.
Proof. unfold started. destruct (_conditions e); now repeat split. Qed.

(** ** A tick that returns normally *)

Lemma tick_ok (now : float) (m : machine) m' ev :
  _on_timer float_of_str now m = (inr tt, m', ev) ->
  table_ok (self m) ->
  static (self m') = static (self m) /\
  table_ok (self m') /\
  ((_timer (self m') = false /\ table (self m') = table (self m) /\
    _first (self m') = _first (self m) /\
    ev = TimerStop
           :: map CallLogFinish (seq 0 (List.length (_log (self m)))))
   \/
   (exists row,
       _timer (self m') = _timer (self m) /\ _first (self m') = false /\
       snapshot (self m') = snapshot (self m) ++ [Some (void_items row)] /\
       _len (self m') = S (_len (self m)) /\
       forall i, i < List.length (_log (self m)) ->
         logger_events i ev =
         (if _first (self m) then [CallLogStart i row] else [])
           ++ [CallLog i row])).
Proof.
  intros H Hok. apply on_timer_inv in H.
  destruct H as [[_ H] | [e [m1 [ev1 [E _]]]]]; [| discriminate].
  apply tick_body_inv in H.
  destruct H as [[e [_ E]] | [[P _] | [meas0 [m1 [ev1 [P H]]]]]];
    [discriminate | |].
  - apply prepare_inv in P. destruct P as [Hst [Ht [Hf [_ [Hti Hev]]]]].
    split; [exact Hst |]. split; [now apply (table_ok_ext Ht) |].
    left. now repeat split.
  - destruct H as [[e [_ [E _]]] | [meas [m2 [Me H]]]]; [discriminate |].
    destruct (before_append _ _ P Me) as [Ht [Hst [Hf [Hti [_ [_ Hl1]]]]]].
    destruct H as [[e [_ [E _]]] | [row [m3 [ev3 [Ap [Rp ->]]]]]];
      [discriminate |].
    assert (Hok2 : table_ok (self m2)) by now apply (table_ok_ext Ht).
    pose proof (append_effect _ _ Ap) as [_ [_ [Hst3 [_ [Hti3 Hf3]]]]].
    pose proof (append_table _ _ Ap Hok2) as [Hok3 [_ [Hsnap [Hlen _]]]].
    apply report_inv in Rp. destruct Rp as [_ Rp].
    destruct (Rp eq_refl) as [Hs' Hlog]. rewrite Hs'.
    assert (Hlg : _log (self m3) = _log (self m)).
    { unfold static in *. rewrite Hst in Hst3. now inversion Hst3. }
    split; [change (static (self m3) = static (self m)); congruence |].
    split; [exact Hok3 |]. right. exists row.
    split; [simp_self; congruence |]. split; [reflexivity |].
    split; [rewrite <- (snapshot_ext Ht); exact Hsnap |].
    split.
    + simp_self. rewrite Hlen. unfold table in Ht. inversion Ht. congruence.
    + intros i Hi. unfold logger_events in *.
      rewrite filter_app. cbn [filter is_logger_event].
      rewrite Hl1. cbn [app]. rewrite Hlog by (now rewrite Hlg).
      now rewrite Hf3, Hf.
Qed.

(** ** The ticks of a run that returns normally *)

Lemma run_ticks_ok (clock : list float) :
  forall (m : machine) m' ev,
  run_ticks float_of_str clock m = (inr tt, m', ev) ->
  table_ok (self m) ->
  static (self m') = static (self m) /\
  table_ok (self m') /\
  exists rws : list void,
    snapshot (self m') = snapshot (self m) ++ stored rws /\
    _len (self m') = _len (self m) + List.length rws /\
    (_timer (self m') = true ->
     _timer (self m) = true /\ List.length rws = List.length clock) /\
    _first (self m') = match rws with
                       | [] => _first (self m)
                       | _ :: _ => false
                       end /\
    forall i, i < List.length (_log (self m)) ->
    logger_events i ev =
      (if _first (self m)
       then match rws with
            | [] => []
            | r :: _ => [CallLogStart i r]
            end
       else [])
      ++ map (CallLog i) rws
      ++ (if _timer (self m) && negb (_timer (self m'))
          then [CallLogFinish i] else []).
Proof.
  induction clock as [| now clock IH]; intros m m' ev H Hok.
  - cbn in H. inversion H; subst. split; [reflexivity |].
    split; [exact Hok |]. exists []. cbn. rewrite app_nil_r, Nat.add_0_r.
    repeat split; try reflexivity; try assumption.
    intros i _.
    destruct (_first (self m')), (_timer (self m')); reflexivity.
  - cbn [run_ticks] in H. rewrite bind_get_self in H.
    destruct (_timer (self m)) eqn:Hti.
    2:{ inversion H; subst. split; [reflexivity |]. split; [exact Hok |].
        exists []. cbn. rewrite app_nil_r, Nat.add_0_r, Hti.
        repeat split; try reflexivity; try discriminate.
        intros i _. destruct (_first (self m')); reflexivity. }
    apply bind_inv in H.
    destruct H as [[e [_ E]] | [[] [m1 [ev1 [ev2 [T [R ->]]]]]]];
      [discriminate |].
    pose proof (tick_ok _ _ T Hok) as [Hst [Hok1 Hcase]].
    assert (Hlg : _log (self m1) = _log (self m)).
    { unfold static in Hst. now inversion Hst. }
    destruct Hcase as [[Hti1 [Ht1 [Hf1 Hev1]]] | [row [Hti1 [Hf1 [Hsn [Hl Hev1]]]]]].
    + assert (Hrest : m' = m1 /\ ev2 = []).
      { destruct clock; cbn [run_ticks] in R.
        - inversion R; now subst.
        - rewrite bind_get_self, Hti1 in R. inversion R; now subst. }
      destruct Hrest as [-> ->]. split; [exact Hst |]. split; [exact Hok1 |].
      exists []. cbn [stored map List.length app]. rewrite !app_nil_r, Nat.add_0_r.
      rewrite (snapshot_ext Ht1), Hti1. cbn [negb andb].
      unfold table in Ht1. inversion Ht1 as [[Hd Hlen]].
      repeat split; try reflexivity; try discriminate; try assumption.
      intros i Hi. rewrite Hev1. unfold logger_events. cbn [filter is_logger_event].
      fold (logger_events i (map CallLogFinish
                               (seq 0 (List.length (_log (self m)))))).
      rewrite logger_events_round; [| reflexivity | lia].
      destruct (_first (self m)); reflexivity.
    + rewrite Hti in Hti1.
      destruct (IH _ _ _ R Hok1)
        as [Hst' [Hok' [rws [Hsn' [Hl' [Ht' [Hf' Hev']]]]]]].
      split; [congruence |]. split; [exact Hok' |]. exists (row :: rws).
      split; [rewrite Hsn', Hsn; cbn [stored map]; now rewrite <- app_assoc |].
      split; [cbn [List.length]; lia |].
      split.
      * intros Hx. destruct (Ht' Hx) as [_ Hlen]. split; [reflexivity |].
        cbn [List.length]. now rewrite Hlen.
      * split.
        -- rewrite Hf'. destruct rws; [exact Hf1 | reflexivity].
        -- intros i Hi. unfold logger_events in *. rewrite filter_app.
           rewrite Hev1 by exact Hi. rewrite Hev' by (now rewrite Hlg).
           rewrite Hf1, Hti1.
           cbn [map andb app]. destruct (_first (self m)); cbn [app];
             now rewrite <- ?app_assoc.
Qed.


(** ** Fail-stop *)

(** [Plotter()], the default plot sink of [__init__]. *)
Variable Plotter : callback U ndarray unit.

(** C6.  In the first run of an experiment, after four ticks that returned
    normally and left the timer armed, a fifth tick whose measurement
    function raises stops the timer and then raises the same exception to
    the caller of [_on_timer]; [get_data] afterwards returns what it
    returned before the tick: the four rows of the four ticks. *)
Theorem fail_stop :
  forall measure_fn plot_arg log_arg conditions mpc apply_arg
         (w0 : World U) (now0 : float) (interval : Z) (clock : list float)
         m4 ev4 (t5 : float) meas0 m4' ev' (err : exn) w',
    List.length clock = 4 ->
    bind (start now0 interval) (fun _ => run_ticks float_of_str clock)
         (mkMachine (__init__ Plotter measure_fn plot_arg log_arg conditions
                              mpc apply_arg) w0)
      = (inr tt, m4, ev4) ->
    _timer (self m4) = true ->
    prepare t5 m4 = (inr (Some meas0), m4', ev') ->
    _measure (self m4') meas0 (world m4') = (inl err, w') ->
    exists m5,
      _on_timer float_of_str t5 m4
        = (inl err, m5, ev' ++ [CallMeasure meas0; TimerStop]) /\
      _timer (self m5) = false /\
      get_data (self m5) = get_data (self m4) /\
      exists dt rws,
        get_data (self m5) = inr (mkArray dt (stored rws)) /\
        List.length rws = 4.
Proof.
  intros measure_fn plot_arg log_arg conditions mpc apply_arg w0 now0 interval
    clock m4 ev4 t5 meas0 m4' ev' err w' Hc H Hti P Me.
  erewrite bind_run in H by apply start_run. cbn [self world] in H.
  set (e0 := __init__ Plotter measure_fn plot_arg log_arg conditions mpc
                      apply_arg) in *.
  destruct (run_ticks float_of_str clock _) as [[r1 m1] ev1] eqn:R.
  inversion H; subst. clear H.
  destruct (started_parts now0 e0) as [_ [Ht0 _]].
  assert (Hok0 : table_ok (started now0 e0)).
  { apply (table_ok_ext Ht0). reflexivity. }
  destruct (run_ticks_ok _ _ R Hok0) as [_ [Hok4 [rws [Hsn [_ [Ht _]]]]]].
  cbn [self] in Hsn, Ht. destruct (Ht Hti) as [_ Hlen].
  rewrite (snapshot_ext Ht0) in Hsn.
  change (snapshot e0) with (@nil (option (list value))) in Hsn.
  cbn [app] in Hsn.
  assert (Hm : measure meas0 m4'
               = (inl err, mkMachine (self m4') w', [CallMeasure meas0])).
  { unfold measure. mrun. unfold call. now rewrite Me. }
  exists (mkMachine (set_timer false (self m4')) w'). split.
  - unfold _on_timer, try_except, tick_body.
    unfold bind at 1. rewrite P. erewrite bind_fail by exact Hm.
    unfold timer_stop. mrun. unfold raise. cbn [app].
    now rewrite <- app_assoc.
  - cbn [self]. split; [reflexivity |].
    apply prepare_inv in P. destruct P as [_ [Ht4 _]].
    assert (Hg : get_data (set_timer false (self m4')) = get_data (self m4)).
    { unfold get_data. simp_self. unfold table in Ht4. inversion Ht4.
      congruence. }
    split; [exact Hg |]. rewrite Hg.
    destruct (_data (self m4)) as [a |] eqn:Hd.
    + exists (arr_dtype a), rws. rewrite (get_data_snapshot _ Hd), Hsn.
      split; [reflexivity | congruence].
    + exfalso. pose proof (snapshot_length _ Hok4) as Hl.
      unfold table_ok in Hok4. rewrite Hd in Hok4. rewrite Hsn, Hok4 in Hl.
      unfold stored in Hl. rewrite length_map in Hl. lia.
Qed.

(** ** get_data *)

(** The rows [get_data] returns, once the table exists, and what [start],
    [stop] and a tick make of them. *)
Lemma get_data_rows :
  forall (m : machine) a,
    table_ok (self m) -> _data (self m) = Some a ->
    get_data (self m) = inr (mkArray (arr_dtype a) (snapshot (self m))) /\
    List.length (snapshot (self m)) = _len (self m) /\
    (forall now interval,
        exists m' ev,
          start now interval m = (inr tt, m', ev) /\
          table_ok (self m') /\ get_data (self m') = get_data (self m)) /\
    (forall r m' ev,
        stop m = (r, m', ev) ->
        table_ok (self m') /\ get_data (self m') = get_data (self m)) /\
    (forall now r m' ev,
        _on_timer float_of_str now m = (r, m', ev) ->
        table_ok (self m') /\
        (get_data (self m') = get_data (self m) \/
         exists row,
           get_data (self m')
             = inr (mkArray (arr_dtype a) (snapshot (self m) ++ [Some row])))).
Proof.
  intros m a Hok Hd.
  split; [now apply get_data_snapshot |].
  split; [now apply snapshot_length |].
  assert (Hext : forall e' : Experiment, table e' = table (self m) ->
                   table_ok e' /\ get_data e' = get_data (self m)).
  { intros e' Ht. split; [now apply (table_ok_ext Ht) |].
    unfold get_data. unfold table in Ht. inversion Ht. congruence. }
  split; [| split].
  - intros now interval. eexists. eexists. split; [apply start_run |].
    cbn [self]. apply Hext. apply started_parts.
  - intros r m' ev H. apply stop_calls in H. destruct H as [-> _].
    now apply Hext.
  - intros now r m' ev H.
    destruct (tick_table _ _ H Hok) as [_ [Hok' [Hsch Hsn]]].
    split; [exact Hok' |]. destruct (Hsch a Hd) as [a' [Hd' Hdt]].
    rewrite (get_data_snapshot _ Hd'), (get_data_snapshot _ Hd), Hdt.
    destruct Hsn as [-> | [row ->]]; [now left |]. right. now exists row.
Qed.

(** [table_ok] holds from the constructor on: [start], [stop] and every
    tick keep it. *)
Lemma table_ok_reachable :
  (forall measure_fn plot_arg log_arg conditions mpc apply_arg,
      table_ok (__init__ Plotter measure_fn plot_arg log_arg conditions mpc
                         apply_arg)) /\
  (forall (m : machine),
      table_ok (self m) ->
      (forall now interval r m' ev,
          start now interval m = (r, m', ev) -> table_ok (self m')) /\
      (forall r m' ev, stop m = (r, m', ev) -> table_ok (self m')) /\
      (forall now r m' ev,
          _on_timer float_of_str now m = (r, m', ev) -> table_ok (self m'))).
Proof.
  split; [reflexivity |]. intros m Hok. split; [| split].
  - intros now interval r m' ev H. rewrite start_run in H.
    inversion H; subst. cbn [self].
    destruct (started_parts now (self m)) as [_ [Ht _]].
    now apply (table_ok_ext Ht).
  - intros r m' ev H. apply stop_calls in H. destruct H as [-> _]. exact Hok.
  - intros now r m' ev H. now apply (tick_table _ _ H).
Qed.

(** ** The sweep *)

(** After the record is prepared, the rest of the tick starts with the
    call of the measurement and leaves the sweep where it is. *)
Lemma tail_sweep (meas0 : OrderedDict) (m : machine) r m' ev :
  bind (measure meas0)
       (fun meas => bind (append float_of_str meas) (@report U)) m
    = (r, m', ev) ->
  static (self m') = static (self m) /\ sweep (self m') = sweep (self m) /\
  exists ev', ev = CallMeasure meas0 :: ev'.
Proof.
  intros H. apply bind_inv in H.
  destruct H as [[e [Me _]] | [meas [m1 [ev1 [ev2 [Me [H ->]]]]]]].
  - apply measure_calls in Me. destruct Me as [-> [-> _]]. eauto.
  - apply measure_calls in Me. destruct Me as [Hs [-> _]]. rewrite <- Hs.
    cbn [app]. apply bind_inv in H.
    destruct H as [[e [Ap _]] | [row [m2 [ev3 [ev4 [Ap [Rp ->]]]]]]].
    + apply append_effect in Ap. destruct Ap as [_ [-> [Hst [Hsw _]]]]. eauto.
    + apply append_effect in Ap. destruct Ap as [_ [-> [Hst [Hsw _]]]].
      apply report_inv in Rp. destruct Rp as [Hs' _].
      assert (Hx : self m' = self m2 \/ self m' = set_first false (self m2)
                   \/ self m' = set_timer false (self m2)) by tauto.
      apply table_of_self in Hx. destruct Hx as [_ [Hst' Hsw']].
      split; [congruence |]. split; [congruence | eauto].
Qed.

(** What [try ... except] adds to the body of the tick. *)
Lemma on_timer_of_body (now : float) (m : machine) r m' ev :
  _on_timer float_of_str now m = (r, m', ev) ->
  exists rb mb evb tl,
    tick_body float_of_str now m = (rb, mb, evb) /\
    ev = evb ++ tl /\ filter is_measure tl = [] /\
    static (self m') = static (self mb) /\ sweep (self m') = sweep (self mb)
    /\ table (self m') = table (self mb) /\
    (rb = inr tt -> r = inr tt /\ m' = mb /\ tl = []).
Proof.
  intros H. apply on_timer_inv in H.
  destruct H as [[-> H] | [e [mb [evb [-> [H [-> ->]]]]]]].
  - exists (inr tt), m', ev, []. rewrite app_nil_r. now repeat split.
  - exists (inl e), mb, evb, [TimerStop].
    split; [exact H |]. repeat (split; [reflexivity |]).
    intros E. discriminate E.
Qed.

Lemma tick_stay (now : float) (m : machine) r m' ev mfc vars vals it t0 :
  sweep (self m) = (mfc, vars, vals, it, Some t0) ->
  count_geb mfc (_measurements_per_condition (self m)) = false ->
  _on_timer float_of_str now m = (r, m', ev) ->
  static (self m') = static (self m) /\
  sweep (self m') = (count_succ mfc, vars, vals, it, Some t0) /\
  condition_of ev
    = Some (dict_update (combine vars vals)
              [("time", VFloat (PrimFloat.sub now t0))]).
Proof.
  intros Hsw G H. unfold sweep in Hsw.
  injection Hsw as Hmfc Hvars Hvals Hit Ht0.
  apply on_timer_of_body in H.
  destruct H as [rb [mb [evb [tl [H [-> [_ [Hst [Hsw' _]]]]]]]]].
  rewrite Hst, Hsw'. clear Hst Hsw'.
  unfold tick_body, prepare, advance in H. mrun_in H.
  rewrite Ht0 in H. mrun_in H. rewrite Hmfc, G in H. mrun_in H.
  apply tail_sweep in H. cbn [self] in H.
  destruct H as [Hst [Hsw [ev' ->]]]. rewrite Hst, Hsw.
  split; [reflexivity |]. unfold sweep. simp_self.
  rewrite Hmfc, Hvars, Hvals, Hit, Ht0. split; reflexivity.
Qed.

Lemma tick_next (now : float) (m : machine) r m' ev mfc vars vals vals' it t0 :
  sweep (self m) = (mfc, vars, vals, vals' :: it, Some t0) ->
  count_geb mfc (_measurements_per_condition (self m)) = true ->
  _on_timer float_of_str now m = (r, m', ev) ->
  static (self m') = static (self m) /\
  sweep (self m') = (Fin 1, vars, vals', it, Some t0) /\
  condition_of ev
    = Some (dict_update (combine vars vals')
              [("time", VFloat (PrimFloat.sub now t0))]).
Proof.
  intros Hsw G H. unfold sweep in Hsw.
  injection Hsw as Hmfc Hvars Hvals Hit Ht0.
  apply on_timer_of_body in H.
  destruct H as [rb [mb [evb [tl [H [-> [_ [Hst [Hsw' _]]]]]]]]].
  rewrite Hst, Hsw'. clear Hst Hsw'.
  unfold tick_body, prepare, advance in H. mrun_in H.
  rewrite Ht0 in H. mrun_in H. rewrite Hmfc, G in H. mrun_in H.
  rewrite Hit in H. mrun_in H.
  apply bind_inv in H.
  destruct H as [[e [Ac _]] | [meas [m1 [ev1 [ev2 [Ac [H ->]]]]]]].
  - apply apply_condition_calls in Ac. destruct Ac as [-> ->]. cbn [self].
    split; [reflexivity |]. unfold sweep. simp_self.
    rewrite Hvars, Ht0. split; reflexivity.
  - apply apply_condition_calls in Ac. destruct Ac as [Hs ->].
    rewrite bind_ret in H. apply tail_sweep in H. destruct H as [Hst [Hsw _]].
    rewrite Hst, Hsw, Hs. cbn [self]. split; [reflexivity |].
    unfold sweep. simp_self. rewrite Hvars, Ht0. split; reflexivity.
Qed.

(** [log_finish] looks at the loggers and the world only. *)
Lemma log_finish_ext (m1 m2 : machine) :
  _log (self m1) = _log (self m2) -> world m1 = world m2 ->
  fst (fst (log_finish m1)) = fst (fst (log_finish m2)) /\
  world (snd (fst (log_finish m1))) = world (snd (fst (log_finish m2))) /\
  snd (log_finish m1) = snd (log_finish m2).
Proof.
  intros Hl Hw. unfold log_finish. rewrite !bind_get_self, Hl.
  exact (for_each_world_only CallLogFinish
           (fun logger => Logger_finish logger tt) (_log (self m2)) 0 m1 m2
           Hw).
Qed.

Lemma log_finish_no_apply (m : machine) :
  filter is_apply_condition (snd (log_finish m)) = [].
Proof.
  destruct (log_finish m) as [[r m'] ev] eqn:F. cbn [snd].
  unfold log_finish in F. rewrite bind_get_self in F.
  apply for_each_calls with (mk := CallLogFinish) in F.
  destruct F as [_ [[n [_ ->]] _]]. generalize 0.
  induction n as [| n IH]; intros k; [reflexivity | cbn; apply IH].
Qed.

(** The tick that finds the sweep exhausted: it stops the timer and
    calls [log_finish], and that is all it does; it returns what
    [log_finish] returns, stopping the timer once more when that is an
    exception. *)
Lemma tick_exhausted (now : float) (m : machine) mfc vars vals t0 :
  sweep (self m) = (mfc, vars, vals, [], Some t0) ->
  count_geb mfc (_measurements_per_condition (self m)) = true ->
  exists r m' ev,
    _on_timer float_of_str now m = (r, m', ev) /\
    self m' = set_timer false
                (set_measurements_for_condition (Fin 0) (self m)) /\
    world m' = world (snd (fst (log_finish m))) /\
    r = fst (fst (log_finish m)) /\
    ev = TimerStop
           :: snd (log_finish m)
           ++ match r with inr _ => [] | inl _ => [TimerStop] end.
Proof.
  intros Hsw G. unfold sweep in Hsw.
  injection Hsw as Hmfc Hvars Hvals Hit Ht0.
  set (m1 := mkMachine
               (set_timer false
                  (set_measurements_for_condition (Fin 0) (self m)))
               (world m)).
  destruct (log_finish_ext m1 m eq_refl eq_refl) as [Hr [Hw Hev]].
  destruct (log_finish m1) as [[r1 m2] ev1] eqn:F.
  pose proof (log_finish_calls _ F) as [Hs _].
  cbn [fst snd] in Hr, Hw, Hev. rewrite <- Hr, <- Hw, <- Hev. clear Hr Hw Hev.
  unfold _on_timer, try_except, tick_body, prepare, advance, stop, timer_stop.
  mrun. rewrite Ht0. mrun. rewrite Hmfc, G. mrun. rewrite Hit. mrun.
  fold m1. destruct r1 as [e | []].
  - erewrite bind_fail by exact F.
    mrun. exists (inl e). eexists. eexists. split; [reflexivity |].
    cbn [self world]. rewrite Hs. now repeat split.
  - erewrite bind_run by exact F.
    mrun. exists (inr tt). eexists. eexists. split; [reflexivity |].
    cbn [self world]. rewrite Hs, !app_nil_r. now repeat split.
Qed.

(** What follows for the calls of that tick. *)
Lemma tick_exhausted_calls (now : float) (m : machine) mfc vars vals t0 :
  sweep (self m) = (mfc, vars, vals, [], Some t0) ->
  count_geb mfc (_measurements_per_condition (self m)) = true ->
  exists r m' ev,
    _on_timer float_of_str now m = (r, m', ev) /\
    _timer (self m') = false /\ table (self m') = table (self m) /\
    static (self m') = static (self m) /\
    world m' = world (snd (fst (log_finish m))) /\
    filter is_measure ev = [] /\ filter is_apply_condition ev = [] /\
    r = fst (fst (log_finish m)) /\
    (r = inr tt ->
     ev = TimerStop
            :: map CallLogFinish (seq 0 (List.length (_log (self m))))).
Proof.
  intros Hsw G.
  destruct (tick_exhausted now m Hsw G) as [r [m' [ev [T [Hs [Hw [Hr Hev]]]]]]].
  exists r, m', ev. split; [exact T |]. rewrite Hs.
  repeat (split; [reflexivity |]). split; [exact Hw |].
  destruct (log_finish m) as [[r0 m0] ev0] eqn:F. cbn [fst snd] in *.
  pose proof (log_finish_no_apply m) as Hna. rewrite F in Hna.
  cbn [snd] in Hna.
  apply log_finish_calls in F. destruct F as [_ [_ [Hm Hok]]].
  subst ev. cbn [filter is_measure is_apply_condition].
  rewrite !filter_app, Hm, Hna.
  split; [now destruct r |]. split; [now destruct r |].
  split; [exact Hr |]. intros ->. subst r0.
  now rewrite (Hok eq_refl), app_nil_r.
Qed.

(** [log_finish] with a logger whose [finish] returns normally whatever
    the world. *)
Lemma log_finish_ok (m : machine) :
  (forall logger, In logger (_log (self m)) ->
     forall w, fst (Logger_finish logger tt w) = inr tt) ->
  fst (fst (log_finish m)) = inr tt.
Proof.
  intros H. unfold log_finish. rewrite bind_get_self.
  destruct (for_each_ok CallLogFinish
              (fun logger => Logger_finish logger tt) (_log (self m)) H 0 m)
    as [w' ->].
  reflexivity.
Qed.

Lemma static_fields (e e' : Experiment) :
  static e' = static e ->
  _measurements_per_condition e' = _measurements_per_condition e /\
  _log e' = _log e.
Proof. unfold static. intros H. split; congruence. Qed.

(** ** Construction of the sweep *)

Lemma min_zero (ns : list nat) : fold_right Nat.min 0 ns = 0.
Proof. induction ns as [| n ns IH]; cbn; [reflexivity | lia]. Qed.

Section Zip.

Variable A : Type.

Lemma heads_tails_none (ls : list (list A)) (n : nat) :
  heads_tails ls = None ->
  fold_right Nat.min n (map (@List.length A) ls) = 0.
Proof.
  induction ls as [| [| x l] ls IH]; cbn; try discriminate.
  - reflexivity.
  - destruct (heads_tails ls) as [[hs ts] |]; [discriminate |].
    intros _. rewrite IH by reflexivity. lia.
Qed.

Lemma heads_tails_some (ls : list (list A)) : forall hs ts (n : nat),
  heads_tails ls = Some (hs, ts) ->
  fold_right Nat.min (S n) (map (@List.length A) ls)
    = S (fold_right Nat.min n (map (@List.length A) ts)) /\
  Forall2 (fun l h => nth_error l 0 = Some h) ls hs /\
  forall i row,
    Forall2 (fun t v => nth_error t i = Some v) ts row ->
    Forall2 (fun l v => nth_error l (S i) = Some v) ls row.
Proof.
  induction ls as [| [| x l] ls IH]; intros hs ts n H; cbn in H;
    try discriminate.
  - inversion H; subst. cbn. split; [reflexivity |]. split; [constructor |].
    intros i row F. inversion F. constructor.
  - destruct (heads_tails ls) as [[hs' ts'] |] eqn:E; [| discriminate].
    inversion H; subst. destruct (IH hs' ts' n eq_refl) as [Hm [Hh Ht]].
    cbn. rewrite Hm. split; [lia |]. split; [now constructor |].
    intros i row F. inversion F; subst. constructor; [assumption |].
    now apply Ht.
Qed.

(** [zip] is as long as the shortest sequence... *)
Lemma zip_from_length (l1 : list A) : forall rest,
  List.length (zip_from l1 rest)
  = fold_right Nat.min (List.length l1) (map (@List.length A) rest).
Proof.
  induction l1 as [| x l1 IH]; intros rest; cbn.
  - now rewrite min_zero.
  - destruct (heads_tails rest) as [[hs ts] |] eqn:E.
    + cbn. rewrite IH. symmetry. now apply (@heads_tails_some _ _ _ _ E).
    + cbn. symmetry. now apply heads_tails_none.
Qed.

(** ... and its tuple number [i] holds the values number [i]. *)
Lemma zip_from_nth (l1 : list A) : forall rest i row,
  nth_error (zip_from l1 rest) i = Some row ->
  Forall2 (fun l v => nth_error l i = Some v) (l1 :: rest) row.
Proof.
  induction l1 as [| x l1 IH]; intros rest i row H; cbn in H.
  - destruct i; discriminate.
  - destruct (heads_tails rest) as [[hs ts] |] eqn:E;
      [| destruct i; discriminate].
    destruct (@heads_tails_some _ _ _ 0 E) as [_ [Hh Ht]].
    destruct i as [| i]; cbn in H.
    + inversion H; subst. now constructor.
    + apply IH in H. inversion H; subst. constructor; [assumption |].
      now apply Ht.
Qed.

End Zip.

(** C4, amended.  No error is raised for a malformed condition set:
    whatever the lengths of the value sequences, the constructor returns
    an experiment and [start] returns normally.  The sweep pairs the
    values by position and is as long as the shortest sequence; values
    beyond that length are never applied. *)
Theorem sweep_construction :
  forall measure_fn plot_arg log_arg c conds mpc apply_arg
         (w : World U) (now : float) (interval : Z),
    let e := __init__ Plotter measure_fn plot_arg log_arg (c :: conds) mpc
                      apply_arg in
    exists m',
      start now interval (mkMachine e w)
        = (inr tt, m', [TimerStart (interval * 1000)]) /\
      _variables (self m') = map fst (c :: conds) /\
      List.length (_variable_values_iter (self m'))
        = fold_right Nat.min (List.length (snd c))
            (map (@List.length value) (map snd conds)) /\
      forall i row,
        nth_error (_variable_values_iter (self m')) i = Some row ->
        Forall2 (fun l v => nth_error l i = Some v)
                (map snd (c :: conds)) row.
Proof.
  intros. eexists. split; [apply start_run |]. cbn [self].
  unfold started, e. cbn [_conditions __init__]. simp_self.
  split; [reflexivity |]. cbn [map zip_star]. split.
  - apply zip_from_length.
  - intros i row. apply zip_from_nth.
Qed.

(** ** The CSV logger *)

Lemma log_start_others (filename : string) (row : void)
    (pre : list (Logger U)) :
  (forall logger, In logger pre -> forall w,
      exists w', Logger_start logger row w = (inr tt, w') /\
                 files w' filename = files w filename) ->
  forall post i (m : machine),
  exists w',
    files w' filename = files (world m) filename /\
    for_each (fun j logger =>
                bind (emit (CallLogStart j row))
                     (fun _ => call (Logger_start logger row)))
             i (pre ++ post) m
    = match for_each (fun j logger =>
                        bind (emit (CallLogStart j row))
                             (fun _ => call (Logger_start logger row)))
                     (i + List.length pre) post (mkMachine (self m) w') with
      | (r, m', ev) =>
          (r, m', map (fun j => CallLogStart j row)
                      (seq i (List.length pre)) ++ ev)
      end.
Proof.
  induction pre as [| lg pre IH]; intros H post i m.
  - exists (world m). split; [reflexivity |]. cbn [app List.length seq map].
    rewrite Nat.add_0_r. destruct m as [e w]. cbn [self world].
    now destruct (for_each _ i post _) as [[r m'] ev].
  - cbn [app for_each]. mrun.
    destruct (H lg (or_introl eq_refl) (world m)) as [w1 [Hs Hf1]].
    rewrite Hs.
    destruct (IH (fun l Hl => H l (or_intror Hl)) post (S i)
                 (mkMachine (self m) w1)) as [w' [Hf' Hrun]].
    exists w'. split; [cbn [world] in Hf'; congruence |].
    rewrite Hrun. cbn [self List.length].
    replace (i + S (List.length pre)) with (S i + List.length pre) by lia.
    now destruct (for_each _ (S i + List.length pre) post _) as [[r m'] ev].
Qed.

Variable str_of_value : value -> string.

(** C10.  [CsvLogger.start] opens its file with mode ['xt']: when the
    path names an existing file it raises [FileExistsError] and leaves the
    file as it is.  In a run, the tick that takes the first sample calls
    [start]; with the file present (and the loggers registered before the
    CSV logger starting normally without touching it) that tick stops the
    timer and raises [FileExistsError]: the sample is in the table but in
    no file. *)
Theorem csv_logger_exclusive_create :
  forall (filename sep : string) (content : list string),
    (forall (data : void) (w : World U),
        files w filename = Some content ->
        CsvLogger_start filename sep data w = (inl FileExistsError, w)) /\
    forall (m : machine) (now : float) pre post meas0 m1 ev1 meas m2 ev2
           row m3 ev3,
      _log (self m) = pre ++ CsvLogger U str_of_value filename sep :: post ->
      _first (self m) = true ->
      prepare now m = (inr (Some meas0), m1, ev1) ->
      measure meas0 m1 = (inr meas, m2, ev2) ->
      append float_of_str meas m2 = (inr row, m3, ev3) ->
      files (world m3) filename = Some content ->
      (forall logger, In logger pre -> forall w,
          exists w', Logger_start logger row w = (inr tt, w') /\
                     files w' filename = files w filename) ->
      exists m',
        _on_timer float_of_str now m
          = (inl FileExistsError, m',
             ev1 ++ ev2
               ++ map (fun j => CallLogStart j row)
                      (seq 0 (S (List.length pre)))
               ++ [TimerStop]) /\
        _timer (self m') = false /\
        files (world m') filename = Some content /\
        snapshot (self m') = snapshot (self m3).
Proof.
  intros filename sep content. split.
  - intros data w Hf. unfold CsvLogger_start. now rewrite Hf.
  - intros m now pre post meas0 m1 ev1 meas m2 ev2 row m3 ev3
      Hlog Hfirst P Me Ap Hfile Hpre.
    destruct (before_append _ _ P Me) as [_ [Hst [Hf2 _]]].
    pose proof (append_effect _ _ Ap) as [_ [-> [Hst3 [_ [_ Hf3]]]]].
    assert (Hlog3 : _log (self m3)
                    = pre ++ CsvLogger U str_of_value filename sep :: post).
    { rewrite <- Hlog. unfold static in *. congruence. }
    destruct (log_start_others filename row pre Hpre
                (CsvLogger U str_of_value filename sep :: post) 0 m3)
      as [w' [Hfw Hrun]].
    assert (Hls : log_start row m3
                  = (inl FileExistsError, mkMachine (self m3) w',
                     map (fun j => CallLogStart j row)
                         (seq 0 (S (List.length pre))))).
    { unfold log_start. rewrite bind_get_self, Hlog3, Hrun.
      cbn [for_each]. mrun. cbn [Logger_start CsvLogger].
      unfold CsvLogger_start at 1. rewrite Hfw, Hfile.
      rewrite seq_S, map_app. reflexivity. }
    exists (mkMachine (set_timer false (self m3)) w'). split.
    + unfold _on_timer, try_except. rewrite (tick_body_run _ _ P Me).
      erewrite bind_run by exact Ap. unfold report. rewrite bind_get_self.
      rewrite Hf3, Hf2, Hfirst. erewrite bind_fail by exact Hls.
      unfold timer_stop. mrun. unfold raise. cbn [app].
      now rewrite <- !app_assoc.
    + cbn [self world]. split; [reflexivity |].
      split; [congruence | reflexivity].
Qed.

(** [print] and [flush] on the handle of a path. *)
Lemma print_line_csv_file (path sep : string) items (w : World U) q :
  csv_file (print_line path sep items w) q = csv_file w q.
Proof. reflexivity. Qed.

Lemma flush_csv_file (path : string) (w : World U) q :
  csv_file (flush path w) q = csv_file w q.
Proof.
  unfold flush, set_csv_buffer. cbn [csv_file].
  now destruct (files w path).
Qed.

Lemma flush_buffer (path : string) (w : World U) :
  csv_buffer (flush path w) path = [].
Proof.
  unfold flush, set_csv_buffer. cbn [csv_buffer].
  now rewrite String.eqb_refl.
Qed.

Lemma flush_empty (path : string) (w : World U) :
  csv_buffer w path = [] -> files (flush path w) path = files w path.
Proof.
  intros Hb. unfold flush, set_csv_buffer. cbn [files].
  destruct (files w path) as [content |] eqn:Hf; [| exact Hf].
  unfold write_file. cbn [files].
  now rewrite String.eqb_refl, Hb, app_nil_r.
Qed.

(** The three calls of the logger on a path [p], seen from the file at
    [p], the handle open there and what the handle holds. *)
Lemma csv_start_fresh (filename sep : string) (data : void) (w : World U) :
  files w filename = None ->
  exists w1,
    CsvLogger_start filename sep data w = (inr tt, w1) /\
    files w1 filename = Some [] /\
    csv_file w1 filename = true /\
    csv_buffer w1 filename
      = [String.concat sep (names (void_dtype data))] /\
    user w1 = user w /\
    forall p, p <> filename ->
      files w1 p = files w p /\ csv_file w1 p = csv_file w p /\
      csv_buffer w1 p = csv_buffer w p.
Proof.
  intros Hf. unfold CsvLogger_start. rewrite Hf. eexists.
  split; [reflexivity |].
  unfold print_line, set_csv_buffer, set_csv_file, write_file.
  cbn [files csv_file csv_buffer user]. rewrite !String.eqb_refl.
  repeat (split; [reflexivity |]). intros p Hp.
  apply String.eqb_neq in Hp. now rewrite Hp.
Qed.

Lemma csv_log_open (filename sep : string) (data : void) (w : World U)
    content :
  csv_file w filename = true -> files w filename = Some content ->
  exists w1,
    CsvLogger_log str_of_value filename sep data w = (inr tt, w1) /\
    files w1 filename
      = Some (content ++ csv_buffer w filename
                ++ [String.concat sep (map str_of_value (void_items data))])
    /\
    csv_file w1 filename = true /\ csv_buffer w1 filename = [] /\
    user w1 = user w /\
    forall p, p <> filename ->
      files w1 p = files w p /\ csv_file w1 p = csv_file w p /\
      csv_buffer w1 p = csv_buffer w p.
Proof.
  intros Hopen Hf. unfold CsvLogger_log. rewrite Hopen. eexists.
  split; [reflexivity |].
  unfold flush, print_line, set_csv_buffer, write_file.
  cbn [files csv_file csv_buffer user]. rewrite Hf.
  cbn [files csv_file csv_buffer user]. rewrite !String.eqb_refl.
  split; [reflexivity |]. split; [exact Hopen |].
  repeat (split; [reflexivity |]). intros p Hp.
  apply String.eqb_neq in Hp. now rewrite Hp.
Qed.

Lemma csv_finish_open (filename : string) (w : World U) content :
  csv_file w filename = true -> files w filename = Some content ->
  exists w1,
    CsvLogger_finish filename tt w = (inr tt, w1) /\
    files w1 filename = Some (content ++ csv_buffer w filename) /\
    csv_file w1 filename = false /\ csv_buffer w1 filename = [] /\
    user w1 = user w /\
    forall p, p <> filename ->
      files w1 p = files w p /\ csv_file w1 p = csv_file w p /\
      csv_buffer w1 p = csv_buffer w p.
Proof.
  intros Hopen Hf. unfold CsvLogger_finish. rewrite Hopen. eexists.
  split; [reflexivity |].
  unfold flush, set_csv_file, set_csv_buffer, write_file.
  cbn [files csv_file csv_buffer user]. rewrite Hf.
  cbn [files csv_file csv_buffer user]. rewrite !String.eqb_refl.
  repeat (split; [reflexivity |]). intros p Hp.
  apply String.eqb_neq in Hp. now rewrite Hp.
Qed.

(** What the logger writes: [start] creates the file, empty, the header
    waiting in the handle; the first [log] puts the header and the line
    of the values on disk. *)
Lemma csv_logger_writes (filename sep : string) (data : void) (w : World U) :
  files w filename = None ->
  exists w1,
    CsvLogger_start filename sep data w = (inr tt, w1) /\
    files w1 filename = Some [] /\
    forall row,
    exists w2,
      CsvLogger_log str_of_value filename sep row w1 = (inr tt, w2) /\
      files w2 filename
        = Some [String.concat sep (names (void_dtype data));
                String.concat sep (map str_of_value (void_items row))].
Proof.
  intros Hf.
  destruct (csv_start_fresh filename sep data w Hf)
    as [w1 [Hs [Hf1 [Ho1 [Hb1 _]]]]].
  exists w1. split; [exact Hs |]. split; [exact Hf1 |]. intros row.
  destruct (csv_log_open filename sep row w1 Ho1 Hf1)
    as [w2 [Hl [Hf2 _]]].
  exists w2. split; [exact Hl |]. now rewrite Hf2, Hb1.
Qed.

(** ** What holds in every state *)

(** Only [append] touches the table: what [append] keeps of the table, a
    whole tick keeps. *)
Lemma tick_keeps (P : Experiment -> Prop) :
  (forall e e' : Experiment, table e' = table e -> P e -> P e') ->
  (forall meas (m1 : machine) r1 m1' ev1,
      append float_of_str meas m1 = (r1, m1', ev1) ->
      P (self m1) -> P (self m1')) ->
  forall now (m : machine) r m' ev,
    _on_timer float_of_str now m = (r, m', ev) -> P (self m) -> P (self m').
Proof.
  intros Hext Happ now m r m' ev H HP.
  apply on_timer_of_body in H.
  destruct H as [rb [mb [evb [tl [H [_ [_ [_ [_ [Ht _]]]]]]]]]].
  apply (Hext _ _ Ht). clear Ht.
  apply tick_body_inv in H.
  destruct H as [[e [P0 _]] | [[P0 _] | [meas0 [m1 [ev1 [P0 H]]]]]].
  - apply prepare_inv in P0. destruct P0 as [_ [Ht _]].
    now apply (Hext _ _ Ht).
  - apply prepare_inv in P0. destruct P0 as [_ [Ht _]].
    now apply (Hext _ _ Ht).
  - apply prepare_inv in P0. destruct P0 as [_ [Ht _]].
    assert (P1 : P (self m1)) by now apply (Hext _ _ Ht).
    destruct H as [[e [Me _]] | [meas [m2 [Me H]]]].
    + apply measure_calls in Me. destruct Me as [-> _]. exact P1.
    + apply measure_calls in Me. destruct Me as [Hs _]. rewrite <- Hs in P1.
      destruct H as [[e [Ap _]] | [row [m3 [ev3 [Ap [Rp _]]]]]].
      * now apply (Happ _ _ _ _ _ Ap).
      * apply (Happ _ _ _ _ _ Ap) in P1. apply report_inv in Rp.
        destruct Rp as [Hs5 _].
        assert (Hx : self mb = self m3 \/ self mb = set_first false (self m3)
                     \/ self mb = set_timer false (self m3)) by tauto.
        apply table_of_self in Hx. destruct Hx as [Ht5 _].
        now apply (Hext _ _ Ht5).
Qed.

Lemma np_cast_holds (t : pytype) (v c : value) :
  np_cast float_of_str t v = inr c -> field_holds t c = true.
Proof.
  destruct t, v; cbn; try discriminate;
    try (intros H; inversion H; subst; reflexivity).
  - destruct (float_of_int z); [discriminate |]. intros H. now inversion H.
  - destruct (float_of_str s); [| discriminate]. intros H. now inversion H.
Qed.

Lemma store_fields_fits (dt : dtype) : forall data row,
  store_fields float_of_str dt data = inr row -> fits dt row = true.
Proof.
  induction dt as [| [k t] dt IH]; intros [| v data] row H; cbn in H;
    try discriminate.
  - now inversion H.
  - destruct (np_cast float_of_str t v) as [e | c] eqn:C; [discriminate |].
    destruct (store_fields float_of_str dt data) as [e | cs] eqn:S;
      [discriminate |].
    inversion H; subst. cbn. rewrite (np_cast_holds _ _ C). cbn.
    now apply (IH data).
Qed.

(** The element [append] returns fits its own schema. *)
Lemma append_row_fits (meas : OrderedDict) (m : machine) row m' ev :
  append float_of_str meas m = (inr row, m', ev) ->
  fits (void_dtype row) (void_items row) = true.
Proof.
  intros H. destruct meas as [| kv meas]; [discriminate H |].
  destruct (_data (self m)) as [a |] eqn:Hd.
  - rewrite (append_run m (meas := kv :: meas) Hd) in H by discriminate.
    cbv zeta in H.
    destruct (negb _); [discriminate |].
    destruct (_ <=? _); [discriminate |].
    destruct (store_fields float_of_str (arr_dtype a) (map snd (kv :: meas)))
      as [ex | rw] eqn:S; [discriminate |].
    inversion H; subst. cbn. now apply (store_fields_fits _ _ S).
  - rewrite (append_first m (meas := kv :: meas) Hd) in H by discriminate.
    destruct (infer_dtype (kv :: meas)) as [ex0 | dt]; [discriminate |].
    destruct (store_fields float_of_str dt (map snd (kv :: meas)))
      as [ex | rw] eqn:S; [discriminate |].
    inversion H; subst. cbn. now apply (store_fields_fits _ _ S).
Qed.

Lemma rows_fit_ext (e e' : Experiment) :
  table e' = table e -> rows_fit e = true -> rows_fit e' = true.
Proof.
  unfold table, rows_fit, snapshot. intros H. inversion H as [[Hd Hl]].
  now rewrite Hd, Hl.
Qed.

Lemma capacity_ok_ext (e e' : Experiment) :
  table e' = table e -> capacity_ok e -> capacity_ok e'.
Proof.
  unfold table, capacity_ok. intros H. inversion H as [[Hd Hl]].
  now rewrite Hd, Hl.
Qed.

Lemma append_rows_fit (meas : OrderedDict) (m : machine) r m' ev :
  append float_of_str meas m = (r, m', ev) ->
  table_ok (self m) -> rows_fit (self m) = true -> rows_fit (self m') = true.
Proof.
  intros H Hok Hfit. pose proof (append_table _ _ H Hok) as [_ [Hsch Hr]].
  destruct r as [e | row].
  - destruct Hr as [Hsn Hl]. unfold rows_fit in *.
    destruct (_data (self m')) as [a' |] eqn:Hd'; [| reflexivity].
    rewrite Hsn. destruct (_data (self m)) as [a |] eqn:Hd.
    + destruct (Hsch a eq_refl) as [a2 [Ha2 Hdt]].
      assert (a2 = a') by congruence. subst a2. now rewrite Hdt.
    + unfold snapshot. now rewrite Hd.
  - destruct Hr as [Hsn [Hl [a' [Hd' Hdt']]]]. unfold rows_fit in *.
    rewrite Hd', Hsn, forallb_app. cbn [forallb].
    rewrite <- Hdt', (append_row_fits _ _ H), Hdt'. cbn [andb].
    rewrite andb_true_r. destruct (_data (self m)) as [a |] eqn:Hd.
    + destruct (Hsch a eq_refl) as [a2 [Ha2 Hdt]].
      assert (a2 = a') by congruence. subst a2. now rewrite Hdt.
    + unfold snapshot. now rewrite Hd.
Qed.

Lemma append_capacity (meas : OrderedDict) (m : machine) r m' ev :
  append float_of_str meas m = (r, m', ev) ->
  table_ok (self m) -> capacity_ok (self m) -> capacity_ok (self m').
Proof.
  intros H Hok Hcap. unfold table_ok, capacity_ok in *.
  destruct meas as [| kv meas].
  { cbn in H. inversion H; subst. exact Hcap. }
  destruct (_data (self m)) as [a |] eqn:Hd.
  - rewrite (append_run m (meas := kv :: meas) Hd) in H by discriminate.
    cbv zeta in H. destruct Hok as [Hlen [Hone Hdt]].
    destruct Hcap as [[j Hj] Hmax].
    pose proof (grown_shape a (_len (self m))) as Hg.
    assert (Hg' : (exists j', shape0 (grown a (_len (self m))) = 2 ^ S j') /\
                  shape0 (grown a (_len (self m)))
                    <= Nat.max 2 (2 * _len (self m)) /\
                  shape0 (grown a (_len (self m)))
                    <= Nat.max 2 (2 * (_len (self m) + 1))).
    { destruct (shape0 a <=? _len (self m)) eqn:F.
      - apply Nat.leb_le in F. rewrite Hg. split; [| lia].
        exists (S j). rewrite Hj. cbn [Nat.pow]. lia.
      - rewrite Hg. split; [now exists j |]. lia. }
    destruct Hg' as [Hpow [Hm1 Hm2]].
    destruct (negb _).
    { inversion H; subst. rewrite Hd. split; [now exists j | exact Hmax]. }
    destruct (_ <=? _).
    { inversion H; subst. simp_self. now split. }
    destruct (store_fields float_of_str (arr_dtype a) (map snd (kv :: meas)))
      as [ex | row]; inversion H; subst; simp_self.
    + now split.
    + unfold shape0 in *. cbn [arr_buf]. rewrite list_set_length.
      now split.
  - rewrite (append_first m (meas := kv :: meas) Hd) in H by discriminate.
    destruct (infer_dtype (kv :: meas)) as [ex0 | dt].
    { inversion H; subst. now rewrite Hd. }
    destruct (store_fields float_of_str dt (map snd (kv :: meas)))
      as [ex | row];
      inversion H; subst; simp_self; cbn; (split; [now exists 0 | lia]).
Qed.

(** The three invariants together are kept by [start], by [stop] and by
    every tick, whatever these return. *)
Lemma invariants_step (o : op) (m : machine) :
  table_ok (self m) /\ rows_fit (self m) = true /\ capacity_ok (self m) ->
  let m' := snd (fst (run_op float_of_str o m)) in
  table_ok (self m') /\ rows_fit (self m') = true /\ capacity_ok (self m').
Proof.
  intros [Hok [Hfit Hcap]]. cbv zeta. destruct o as [now interval | | now];
    cbn [run_op].
  - rewrite start_run. cbn [fst snd self].
    destruct (started_parts now (self m)) as [_ [Ht _]].
    split; [now apply (table_ok_ext Ht) |].
    split; [now apply (rows_fit_ext Ht) | now apply (capacity_ok_ext Ht)].
  - destruct (stop m) as [[r m'] ev] eqn:H. cbn [fst snd].
    apply stop_calls in H. destruct H as [-> _]. now repeat split.
  - destruct (_on_timer float_of_str now m) as [[r m'] ev] eqn:H.
    cbn [fst snd].
    apply (tick_keeps
             (fun e => table_ok e /\ rows_fit e = true /\ capacity_ok e))
      with (now := now) (m := m) (r := r) (ev := ev).
    + intros e e' Ht [H1 [H2 H3]].
      split; [now apply (table_ok_ext Ht) |].
      split; [now apply (rows_fit_ext Ht)
             | now apply (capacity_ok_ext Ht)].
    + intros meas m1 r1 m1' ev1 Ap [H1 [H2 H3]].
      split; [now apply (append_table _ _ Ap) |].
      split; [now apply (append_rows_fit _ _ Ap)
             | now apply (append_capacity _ _ Ap)].
    + exact H.
    + now repeat split.
Qed.

Lemma invariants_reachable (ops : list op) : forall m : machine,
  table_ok (self m) /\ rows_fit (self m) = true /\ capacity_ok (self m) ->
  let m' := run_ops float_of_str ops m in
  table_ok (self m') /\ rows_fit (self m') = true /\ capacity_ok (self m').
Proof.
  induction ops as [| o ops IH]; intros m H; cbn [run_ops]; [exact H |].
  apply IH. now apply invariants_step.
Qed.

Lemma forallb_rows (dt : dtype) (buf : list (option (list value))) :
  forallb (fun slot => match slot with
                       | Some row => fits dt row
                       | None => false
                       end) buf = true ->
  buf = map Some (rows_of buf) /\
  Forall (fun row => fits dt row = true) (rows_of buf).
Proof.
  induction buf as [| [row |] buf IH]; cbn.
  - now split.
  - intros H. apply andb_true_iff in H. destruct H as [Hr Hb].
    destruct (IH Hb) as [E F]. split; [now rewrite <- E |].
    now constructor.
  - discriminate.
Qed.

(** X1.  In every state an experiment reaches from its constructor by
    calls of [start], [stop] and [_on_timer], in any order and whatever
    they return or raise, what [get_data] returns is a fully initialised
    array: every slot of it holds a row (none is the uninitialised memory
    of [np.empty]), and every row has one value per column, a float in a
    float column; the columns are of type float or object only. *)
Theorem get_data_rows_fit :
  forall measure_fn plot_arg log_arg conditions mpc apply_arg
         (w : World U) (ops : list op) (a : ndarray),
    let m := run_ops float_of_str ops
               (mkMachine (__init__ Plotter measure_fn plot_arg log_arg
                                    conditions mpc apply_arg) w) in
    get_data (self m) = inr a ->
    List.length (rows a) = _len (self m) /\
    arr_buf a = map Some (rows a) /\
    Forall (fun row => fits (arr_dtype a) row = true) (rows a).
Proof.
  intros measure_fn plot_arg log_arg conditions mpc apply_arg w ops a m H.
  destruct (invariants_reachable ops
              (mkMachine (__init__ Plotter measure_fn plot_arg log_arg
                                   conditions mpc apply_arg) w))
    as [Hok [Hfit _]].
  { cbn. repeat split. }
  fold m in Hok, Hfit. unfold get_data in H.
  destruct (_data (self m)) as [a0 |] eqn:Hd; [| discriminate].
  inversion H; subst a. clear H. unfold rows_fit in Hfit. rewrite Hd in Hfit.
  pose proof (@snapshot_length _ Hok) as Hl. unfold snapshot in *.
  rewrite Hd in *. unfold rows, slice_to. cbn [arr_buf arr_dtype].
  apply forallb_rows in Hfit. destruct Hfit as [E F].
  split; [| now split].
  rewrite <- (length_map Some), <- E. exact Hl.
Qed.

(** X2.  In every state an experiment reaches from its constructor, the
    buffer of the table, once allocated, has a capacity of 2, 4, 8, ...
    rows (it is only ever doubled), holds no more rows than its
    capacity, and is never larger than twice the number of rows stored
    (or the first two rows). *)
Theorem buffer_capacity :
  forall measure_fn plot_arg log_arg conditions mpc apply_arg
         (w : World U) (ops : list op) (a : ndarray),
    let m := run_ops float_of_str ops
               (mkMachine (__init__ Plotter measure_fn plot_arg log_arg
                                    conditions mpc apply_arg) w) in
    _data (self m) = Some a ->
    (exists j, shape0 a = 2 ^ S j) /\
    _len (self m) <= shape0 a /\
    shape0 a <= Nat.max 2 (2 * _len (self m)).
Proof.
  intros measure_fn plot_arg log_arg conditions mpc apply_arg w ops a m H.
  destruct (invariants_reachable ops
              (mkMachine (__init__ Plotter measure_fn plot_arg log_arg
                                   conditions mpc apply_arg) w))
    as [Hok [_ Hcap]].
  { cbn. repeat split. }
  fold m in Hok, Hcap. unfold table_ok, capacity_ok in *. rewrite H in *.
  tauto.
Qed.

Lemma step_rows (o : op) (m : machine) :
  table_ok (self m) ->
  let m' := snd (fst (run_op float_of_str o m)) in
  table_ok (self m') /\ static (self m') = static (self m) /\
  (forall a, _data (self m) = Some a ->
     exists a', _data (self m') = Some a' /\ arr_dtype a' = arr_dtype a) /\
  exists more, snapshot (self m') = snapshot (self m) ++ more.
Proof.
  intros Hok. cbv zeta. destruct o as [now interval | | now]; cbn [run_op].
  - rewrite start_run. cbn [fst snd self].
    destruct (started_parts now (self m)) as [Hst [Ht _]].
    split; [now apply (table_ok_ext Ht) |]. split; [exact Hst |].
    split.
    + intros a Ha. exists a. split; [| reflexivity]. unfold table in Ht.
      inversion Ht. congruence.
    + exists []. rewrite app_nil_r. now apply snapshot_ext.
  - destruct (stop m) as [[r m'] ev] eqn:H. cbn [fst snd].
    apply stop_calls in H. destruct H as [-> _].
    split; [exact Hok |]. split; [reflexivity |]. split.
    + intros a Ha. now exists a.
    + exists []. now rewrite app_nil_r.
  - destruct (_on_timer float_of_str now m) as [[r m'] ev] eqn:H.
    cbn [fst snd]. apply tick_table in H; [| exact Hok].
    destruct H as [Hst [Hok' [Hsch Hsn]]].
    split; [exact Hok' |]. split; [exact Hst |]. split; [exact Hsch |].
    destruct Hsn as [-> | [row ->]].
    + exists []. now rewrite app_nil_r.
    + now exists [Some row].
Qed.

Lemma run_ops_rows (ops : list op) : forall m : machine,
  table_ok (self m) ->
  let m' := run_ops float_of_str ops m in
  table_ok (self m') /\ static (self m') = static (self m) /\
  (forall a, _data (self m) = Some a ->
     exists a', _data (self m') = Some a' /\ arr_dtype a' = arr_dtype a) /\
  exists more, snapshot (self m') = snapshot (self m) ++ more.
Proof.
  induction ops as [| o ops IH]; intros m Hok; cbn [run_ops].
  - split; [exact Hok |]. split; [reflexivity |]. split.
    + intros a Ha. now exists a.
    + exists []. now rewrite app_nil_r.
  - destruct (step_rows o m Hok) as [Hok1 [Hst1 [Hsch1 [more1 Hsn1]]]].
    destruct (IH _ Hok1) as [Hok2 [Hst2 [Hsch2 [more2 Hsn2]]]].
    split; [exact Hok2 |]. split; [congruence |]. split.
    + intros a Ha. destruct (Hsch1 a Ha) as [a1 [Ha1 Hdt1]].
      destruct (Hsch2 a1 Ha1) as [a2 [Ha2 Hdt2]]. exists a2.
      split; [exact Ha2 | congruence].
    + exists (more1 ++ more2). rewrite Hsn2, Hsn1. now rewrite app_assoc.
Qed.

(** X3.  Rows once collected stay: whatever an experiment has returned
    from [get_data], after any further calls of [start], [stop] and
    [_on_timer], failing ones included, [get_data] returns an array with
    the same columns whose first rows are the rows returned before.  A
    restart, a failed tick or a stopped run neither clears, changes nor
    reorders collected data (the hooks, by the convention of this
    development, do not write through the arrays they are handed). *)
Theorem collected_rows_stay :
  forall measure_fn plot_arg log_arg conditions mpc apply_arg
         (w : World U) (before after : list op) (a : ndarray),
    let m := run_ops float_of_str before
               (mkMachine (__init__ Plotter measure_fn plot_arg log_arg
                                    conditions mpc apply_arg) w) in
    let m' := run_ops float_of_str after m in
    get_data (self m) = inr a ->
    exists more,
      get_data (self m') = inr (mkArray (arr_dtype a) (arr_buf a ++ more)).
Proof.
  intros measure_fn plot_arg log_arg conditions mpc apply_arg w before after
    a m m' H.
  assert (Hok : table_ok (self m)).
  { apply (run_ops_rows before
             (mkMachine (__init__ Plotter measure_fn plot_arg log_arg
                                  conditions mpc apply_arg) w)).
    reflexivity. }
  destruct (run_ops_rows after m Hok) as [_ [_ [Hsch [more Hsn]]]].
  fold m' in Hsch, Hsn. unfold get_data in H.
  destruct (_data (self m)) as [a0 |] eqn:Hd; [| discriminate].
  inversion H; subst a. clear H.
  destruct (Hsch a0 eq_refl) as [a' [Ha' Hdt]]. exists more.
  rewrite (get_data_snapshot _ Ha'), Hsn, Hdt. unfold snapshot, slice_to.
  now rewrite Hd.
Qed.

(** ** The timer *)

Lemma report_raise (row : void) (m : machine) e m' ev :
  report row m = (inl e, m', ev) -> self m' = self m.
Proof.
  unfold report. rewrite bind_get_self. intros H. apply bind_inv in H.
  destruct H as [[e0 [H _]] | [[] [m1 [ev1 [ev2 [H [R ->]]]]]]].
  { destruct (_first (self m)).
    - apply log_start_calls in H. tauto.
    - discriminate H. }
  assert (Hs1 : self m1 = self m).
  { destruct (_first (self m)).
    - apply log_start_calls in H. tauto.
    - inversion H; now subst. }
  apply bind_inv in R.
  destruct R as [[e0 [R _]] | [[] [m2 [ev3 [ev4 [R [R' ->]]]]]]].
  { apply log_calls in R. destruct R as [Hs2 _]. congruence. }
  apply log_calls in R. destruct R as [Hs2 _].
  rewrite bind_get_self in R'. destruct (_data (self m2)) as [a |].
  2:{ inversion R'; subst. congruence. }
  apply bind_inv in R'.
  destruct R' as [[e0 [R' _]] | [[] [m3 [ev5 [ev6 [R' [R'' _]]]]]]].
  { apply plot_calls in R'. destruct R' as [Hs3 _]. congruence. }
  discriminate R''.
Qed.

(** X4.  A tick never arms the timer, and no tick that raises leaves it
    armed: when [_on_timer] raises, whatever the cause (a hook, the
    table, a logger, a plot function), the timer is stopped, as the last
    thing the tick does, and the exception is the one raised inside; a
    timer that is active after a tick was active before it, and the tick
    returned normally.  Called on an experiment that was never started
    ([_t0] is [None]), [_on_timer] raises [TypeError], stops the timer
    and does nothing else. *)
Theorem tick_never_arms :
  forall (now : float) (m : machine) r m' ev,
    _on_timer float_of_str now m = (r, m', ev) ->
    (forall e, r = inl e ->
       _timer (self m') = false /\
       exists m1 ev1,
         tick_body float_of_str now m = (inl e, m1, ev1) /\
         ev = ev1 ++ [TimerStop]) /\
    (_timer (self m') = true -> r = inr tt /\ _timer (self m) = true) /\
    (_t0 (self m) = None ->
     r = inl TypeError /\ ev = [TimerStop] /\
     m' = mkMachine (set_timer false (self m)) (world m)).
Proof.
  intros now m r m' ev H. split; [| split].
  - intros e ->. apply on_timer_inv in H.
    destruct H as [[E _] | [e' [m1 [ev1 [E [H [-> ->]]]]]]]; [discriminate |].
    inversion E; subst e'. split; [reflexivity |]. now exists m1, ev1.
  - intros Hti. apply on_timer_inv in H.
    destruct H as [[-> H] | [e' [m1 [ev1 [_ [_ [-> _]]]]]]];
      [| discriminate Hti].
    split; [reflexivity |]. apply tick_body_inv in H.
    destruct H as [[e [_ E]] | [[P _] | [meas0 [m1 [ev1 [P H]]]]]];
      [discriminate | |].
    + apply prepare_inv in P. destruct P as [_ [_ [_ [_ [Hf _]]]]].
      congruence.
    + destruct H as [[e [_ [E _]]] | [meas [m2 [Me H]]]]; [discriminate |].
      destruct (before_append _ _ P Me) as [_ [_ [_ [Hti2 _]]]].
      destruct H as [[e [_ [E _]]] | [row [m3 [ev3 [Ap [Rp _]]]]]];
        [discriminate |].
      pose proof (append_effect _ _ Ap) as [_ [_ [_ [_ [Hti3 _]]]]].
      apply report_inv in Rp. destruct Rp as [[Hs | Hs] _];
        rewrite Hs in Hti; simp_self_in Hti; congruence.
  - intros Ht0. unfold _on_timer, try_except, tick_body, prepare in H.
    rewrite bind_bind, bind_get_self, Ht0 in H. rewrite bind_raise in H.
    unfold timer_stop in H. mrun_in H. unfold raise in H.
    inversion H; subst. now repeat split.
Qed.

(** X5.  There is no rollback: when the record of a tick has been
    appended and then a logger or a plot function raises, the tick stops
    the timer and raises that exception, and the row stays in the table:
    [get_data] returns the rows collected before followed by the row of
    the failed tick. *)
Theorem sink_failure_keeps_row :
  forall (now : float) (m : machine) meas0 m1 ev1 meas m2 ev2 row m3 ev3
         e m4 ev4,
    table_ok (self m) ->
    prepare now m = (inr (Some meas0), m1, ev1) ->
    measure meas0 m1 = (inr meas, m2, ev2) ->
    append float_of_str meas m2 = (inr row, m3, ev3) ->
    report row m3 = (inl e, m4, ev4) ->
    exists m',
      _on_timer float_of_str now m
        = (inl e, m', ev1 ++ ev2 ++ ev4 ++ [TimerStop]) /\
      _timer (self m') = false /\
      _len (self m') = S (_len (self m)) /\
      get_data (self m')
        = inr (mkArray (void_dtype row)
                       (snapshot (self m) ++ [Some (void_items row)])).
Proof.
  intros now m meas0 m1 ev1 meas m2 ev2 row m3 ev3 e m4 ev4
    Hok P Me Ap Rp.
  destruct (before_append _ _ P Me) as [Ht [_ _]].
  assert (Hok2 : table_ok (self m2)) by now apply (table_ok_ext Ht).
  pose proof (append_effect _ _ Ap) as [_ [-> _]].
  pose proof (append_table _ _ Ap Hok2) as [_ [_ [Hsn [Hl [a' [Ha' Hdt]]]]]].
  pose proof (report_raise _ _ Rp) as Hs4.
  exists (mkMachine (set_timer false (self m4)) (world m4)). split.
  - unfold _on_timer, try_except. rewrite (tick_body_run _ _ P Me).
    erewrite bind_run by exact Ap. rewrite Rp. unfold timer_stop. mrun.
    unfold raise. cbn [app]. now rewrite <- !app_assoc.
  - simp_self. split; [reflexivity |]. rewrite Hs4.
    split.
    + rewrite Hl. unfold table in Ht. inversion Ht. congruence.
    + unfold get_data. simp_self. rewrite Ha'. unfold slice_to.
      rewrite Hdt. f_equal. f_equal. unfold snapshot in Hsn.
      rewrite Ha' in Hsn. rewrite Hsn. rewrite <- (snapshot_ext Ht).
      reflexivity.
Qed.

(** ** Sweeps of any length *)

Lemma fire_app (c1 : list float) : forall (c2 : list float) (m : machine),
  fire float_of_str (c1 ++ c2) m =
  match fire float_of_str c1 m with
  | (o1, m1) =>
      match fire float_of_str c2 m1 with
      | (o2, m2) => (o1 ++ o2, m2)
      end
  end.
Proof.
  induction c1 as [| now c1 IH]; intros c2 m; cbn [app fire].
  - now destruct (fire float_of_str c2 m).
  - destruct (_on_timer float_of_str now m) as [[r m1] ev].
    rewrite IH. destruct (fire float_of_str c1 m1) as [o1 m2].
    now destruct (fire float_of_str c2 m2).
Qed.

(** While the count of measurements stays below the measurements per
    condition, every tick hands on the same condition values. *)
Lemma fire_stay (clock : list float) :
  forall (m : machine) c vars vals it t0 outs m',
  sweep (self m) = (Fin c, vars, vals, it, Some t0) ->
  (forall j, j < List.length clock ->
     count_geb (Fin (c + Z.of_nat j)) (_measurements_per_condition (self m))
     = false) ->
  fire float_of_str clock m = (outs, m') ->
  static (self m') = static (self m) /\
  sweep (self m')
    = (Fin (c + Z.of_nat (List.length clock)), vars, vals, it, Some t0) /\
  records outs = map (fun now => Some (record_of t0 vars vals now)) clock.
Proof.
  induction clock as [| now clock IH]; intros m c vars vals it t0 outs m'
    Hsw G H; cbn [fire] in H.
  - inversion H; subst. cbn. rewrite Z.add_0_r. now repeat split.
  - destruct (_on_timer float_of_str now m) as [[r m1] ev] eqn:T.
    destruct (fire float_of_str clock m1) as [out m2] eqn:F.
    inversion H; subst. clear H.
    assert (G0 : count_geb (Fin c) (_measurements_per_condition (self m))
                 = false).
    { specialize (G 0). rewrite Z.add_0_r in G. apply G. cbn. lia. }
    eapply tick_stay in T; [| exact Hsw | exact G0].
    destruct T as [Hst [Hsw1 Hc]]. cbn [count_succ] in Hsw1.
    apply static_fields in Hst as Hf. destruct Hf as [Hmpc _].
    eapply IH in F; [| exact Hsw1 |].
    + destruct F as [Hst' [Hsw' Hrec]]. split; [congruence |]. split.
      * rewrite Hsw'. cbn [List.length]. do 5 f_equal. lia.
      * unfold records in *. cbn [map snd]. now rewrite Hc, Hrec.
    + intros j Hj. rewrite Hmpc.
      replace (c + 1 + Z.of_nat j)%Z with (c + Z.of_nat (S j))%Z by lia.
      apply G. cbn. lia.
Qed.

(** The same for the timer firing while it is active: no tick ends the
    run. *)
Lemma run_ticks_stay (clock : list float) :
  forall (m : machine) c vars vals it t0 m' ev,
  sweep (self m) = (Fin c, vars, vals, it, Some t0) ->
  (forall j, j < List.length clock ->
     count_geb (Fin (c + Z.of_nat j)) (_measurements_per_condition (self m))
     = false) ->
  table_ok (self m) -> _timer (self m) = true ->
  run_ticks float_of_str clock m = (inr tt, m', ev) ->
  _timer (self m') = true /\
  _len (self m') = _len (self m) + List.length clock.
Proof.
  induction clock as [| now clock IH]; intros m c vars vals it t0 m' ev
    Hsw G Hok Hti H; cbn [run_ticks] in H.
  - inversion H; subst. cbn. split; [exact Hti | lia].
  - rewrite bind_get_self, Hti in H. apply bind_inv in H.
    destruct H as [[e [_ E]] | [[] [m1 [ev1 [ev2 [T [R ->]]]]]]];
      [discriminate |].
    assert (G0 : count_geb (Fin c) (_measurements_per_condition (self m))
                 = false).
    { specialize (G 0). rewrite Z.add_0_r in G. apply G. cbn. lia. }
    pose proof (tick_ok _ _ T Hok) as [_ [Hok1 Hcase]].
    eapply tick_stay in T; [| exact Hsw | exact G0].
    destruct T as [Hst [Hsw1 Hc]]. cbn [count_succ] in Hsw1.
    apply static_fields in Hst as Hf. destruct Hf as [Hmpc _].
    destruct Hcase as [[_ [_ [_ Hstop]]] | [row [Hti1 [_ [_ [Hl1 _]]]]]].
    { rewrite Hstop in Hc. discriminate Hc. }
    eapply IH in R; [| exact Hsw1 | | exact Hok1 | congruence].
    + destruct R as [Hti' Hl']. split; [exact Hti' |].
      cbn [List.length]. lia.
    + intros j Hj. rewrite Hmpc.
      replace (c + 1 + Z.of_nat j)%Z with (c + Z.of_nat (S j))%Z by lia.
      apply G. cbn. lia.
Qed.

Lemma started_sweep (now : float) (e : Experiment) :
  sweep (started now e) =
  match _conditions e with
  | _ :: _ =>
      (_measurements_per_condition e, map fst (_conditions e),
       _variable_values e, zip_star (map snd (_conditions e)), Some now)
  | [] => (Fin 0, [], _variable_values e, [], Some now)
  end.
Proof. unfold started, sweep. now destruct (_conditions e). Qed.

Lemma record_of_no_vars (t0 : float) (vals : list value) (now : float) :
  record_of t0 [] vals now = [("time", VFloat (PrimFloat.sub now t0))].
Proof. reflexivity. Qed.

(** X6.  Without conditions and without a number of measurements per
    condition (the default, infinity), the engine never ends a run: after
    [start], every tick hands the measurement a record that holds the
    elapsed time and nothing else, and when the ticks of a clock all
    return normally the timer is still active and the table has one more
    row for every tick. *)
Theorem run_without_conditions :
  forall (m : machine) (now0 : float) (clock : list float),
    _conditions (self m) = [] ->
    _measurements_per_condition (self m) = Inf ->
    let m0 := mkMachine (started now0 (self m)) (world m) in
    (forall interval,
        start now0 interval m = (inr tt, m0, [TimerStart (interval * 1000)]))
    /\
    (forall outs m',
        fire float_of_str clock m0 = (outs, m') ->
        records outs
          = map (fun now => Some [("time", VFloat (PrimFloat.sub now now0))])
                clock) /\
    (forall m' ev,
        table_ok (self m) ->
        run_ticks float_of_str clock m0 = (inr tt, m', ev) ->
        _timer (self m') = true /\
        _len (self m') = _len (self m) + List.length clock).
Proof.
  intros m now0 clock Hc Hmpc m0.
  split; [intros interval; apply start_run |].
  pose proof (started_sweep now0 (self m)) as Hsw. rewrite Hc in Hsw.
  destruct (started_parts now0 (self m)) as [Hst [Ht [Hti _]]].
  apply static_fields in Hst as Hf. destruct Hf as [Hmpc0 _].
  assert (G : forall j, j < List.length clock ->
            count_geb (Fin (0 + Z.of_nat j))
                      (_measurements_per_condition (self m0)) = false).
  { intros j _. subst m0. cbn [self]. rewrite Hmpc0, Hmpc. reflexivity. }
  split.
  - intros outs m' F. eapply fire_stay in F; [| exact Hsw | exact G].
    destruct F as [_ [_ ->]]. apply map_ext. intros now.
    now rewrite record_of_no_vars.
  - intros m' ev Hok R.
    eapply run_ticks_stay in R;
      [| exact Hsw | exact G | now apply (table_ok_ext Ht) | exact Hti].
    destruct R as [Hti' Hl]. split; [exact Hti' |]. rewrite Hl.
    subst m0. cbn [self]. unfold table in Ht. inversion Ht. congruence.
Qed.

(** [log_finish] with a CSV logger that holds no file, at the head of
    the loggers. *)
Lemma log_finish_csv_closed (m : machine) (filename sep : string) post :
  _log (self m) = CsvLogger U str_of_value filename sep :: post ->
  csv_file (world m) filename = false ->
  fst (fst (log_finish m)) = inl AttributeError.
Proof.
  intros Hlog Hclosed. unfold log_finish. mrun. rewrite Hlog.
  cbn [for_each]. mrun. cbn [Logger_finish CsvLogger].
  unfold CsvLogger_finish. now rewrite Hclosed.
Qed.

(** X7.  Without conditions but with [measurements_per_condition = n]
    (an int), a run takes n samples and ends by itself: after [start],
    each of the first n ticks hands the measurement the record of the
    elapsed time, and the next tick stops the timer, calls [finish] of
    the loggers in turn, measures nothing, leaves the table as it is, and
    returns what [log_finish] returns: normally when every [finish]
    does, and then every logger got its [finish].  For n <= 0 that is
    the first tick; a [CsvLogger] at the head of the loggers, which holds
    no file as long as no sample was logged, then raises
    [AttributeError]. *)
Theorem run_of_n_samples :
  forall (m : machine) (now0 : float) (n : Z) (clock : list float) outs m1,
    _conditions (self m) = [] ->
    _measurements_per_condition (self m) = Fin n ->
    List.length clock = Z.to_nat n ->
    fire float_of_str clock (mkMachine (started now0 (self m)) (world m))
      = (outs, m1) ->
    records outs
      = map (fun now => Some [("time", VFloat (PrimFloat.sub now now0))])
            clock /\
    forall now, exists r m2 ev,
      _on_timer float_of_str now m1 = (r, m2, ev) /\
      _timer (self m2) = false /\ table (self m2) = table (self m1) /\
      filter is_measure ev = [] /\
      r = fst (fst (log_finish m1)) /\
      (r = inr tt ->
       ev = TimerStop :: map CallLogFinish
                             (seq 0 (List.length (_log (self m))))) /\
      ((forall logger, In logger (_log (self m)) ->
          forall w, fst (Logger_finish logger tt w) = inr tt) ->
       r = inr tt) /\
      (forall filename sep post,
          _log (self m) = CsvLogger U str_of_value filename sep :: post ->
          csv_file (world m1) filename = false ->
          r = inl AttributeError).
Proof.
  intros m now0 n clock outs m1 Hc Hmpc Hlen F.
  pose proof (started_sweep now0 (self m)) as Hsw. rewrite Hc in Hsw.
  destruct (started_parts now0 (self m)) as [Hst _].
  apply static_fields in Hst as Hf. destruct Hf as [Hmpc0 Hlog0].
  eapply fire_stay in F; [| exact Hsw |].
  2:{ intros j Hj. cbn [self]. rewrite Hmpc0, Hmpc. cbn [count_geb].
      apply Z.leb_gt. lia. }
  destruct F as [Hst1 [Hsw1 ->]].
  apply static_fields in Hst1 as Hf. destruct Hf as [Hmpc1 Hlog1].
  cbn [self] in Hmpc1, Hlog1. split.
  - apply map_ext. intros now. now rewrite record_of_no_vars.
  - intros now.
    destruct (@tick_exhausted_calls now m1 _ _ _ _ Hsw1)
      as [r [m2 [ev [T [Hti [Ht [_ [_ [Hm [_ [Hr Hev]]]]]]]]]]].
    { rewrite Hmpc1, Hmpc0, Hmpc. cbn [count_geb]. apply Z.leb_le. lia. }
    exists r, m2, ev. rewrite Hlog1, Hlog0 in Hev.
    repeat (split; [assumption |]). split.
    + intros Hfin. rewrite Hr. apply log_finish_ok.
      intros logger Hin. apply Hfin. now rewrite <- Hlog0, <- Hlog1.
    + intros filename sep post Hlog Hclosed. rewrite Hr.
      apply log_finish_csv_closed with (filename := filename) (sep := sep)
                                       (post := post); [| exact Hclosed].
      now rewrite Hlog1, Hlog0.
Qed.

Lemma planned_app (t0 : float) (vars : list string) (c1 c2 : list float)
    (p1 p2 : list (list value)) :
  List.length c1 = List.length p1 ->
  planned t0 vars (c1 ++ c2) (p1 ++ p2)
  = planned t0 vars c1 p1 ++ planned t0 vars c2 p2.
Proof.
  unfold planned. revert p1.
  induction c1 as [| now c1 IH]; intros [| row p1] H; cbn in H;
    try discriminate; [reflexivity |].
  cbn. f_equal. apply IH. lia.
Qed.

Lemma planned_repeat (t0 : float) (vars : list string) (row : list value)
    (clock : list float) :
  planned t0 vars clock (repeat row (List.length clock))
  = map (fun now => Some (record_of t0 vars row now)) clock.
Proof.
  unfold planned. induction clock as [| now clock IH]; [reflexivity |].
  cbn. now rewrite IH.
Qed.

Lemma held_pos (k : Z) : 1 <= held k.
Proof. unfold held. lia. Qed.

(** The ticks that hold one condition row. *)
Lemma hold_row (clock : list float) (m : machine) k mfc vars vals row it t0
    outs m' :
  sweep (self m) = (mfc, vars, vals, row :: it, Some t0) ->
  _measurements_per_condition (self m) = Fin k ->
  count_geb mfc (Fin k) = true ->
  List.length clock = held k ->
  fire float_of_str clock m = (outs, m') ->
  static (self m') = static (self m) /\
  sweep (self m') = (Fin (Z.max 1 k), vars, row, it, Some t0) /\
  records outs = map (fun now => Some (record_of t0 vars row now)) clock.
Proof.
  intros Hsw Hmpc G Hlen F. pose proof (held_pos k) as Hpos.
  destruct clock as [| now clock]; [cbn in Hlen; lia |].
  cbn [fire] in F.
  destruct (_on_timer float_of_str now m) as [[r m1] ev] eqn:T.
  destruct (fire float_of_str clock m1) as [out m2] eqn:F1.
  inversion F; subst. clear F.
  eapply tick_next in T; [| exact Hsw | now rewrite Hmpc].
  destruct T as [Hst [Hsw1 Hc]].
  apply static_fields in Hst as Hf. destruct Hf as [Hmpc1 _].
  eapply fire_stay in F1; [| exact Hsw1 |].
  2:{ intros j Hj. rewrite Hmpc1, Hmpc. cbn [count_geb]. apply Z.leb_gt.
      cbn [List.length] in Hlen. unfold held in Hlen. lia. }
  destruct F1 as [Hst' [Hsw' Hrec]]. split; [congruence |]. split.
  - rewrite Hsw'. do 5 f_equal. cbn [List.length] in Hlen.
    unfold held in Hlen. lia.
  - unfold records in *. cbn [map snd]. now rewrite Hc, Hrec.
Qed.

(** The ticks of the condition rows still to come. *)
Lemma sweep_rows (k : Z) (vars : list string) (t0 : float)
    (it : list (list value)) :
  forall (clock : list float) (m : machine) mfc vals outs m',
  sweep (self m) = (mfc, vars, vals, it, Some t0) ->
  _measurements_per_condition (self m) = Fin k ->
  count_geb mfc (Fin k) = true ->
  List.length clock = List.length (sweep_plan k it) ->
  fire float_of_str clock m = (outs, m') ->
  static (self m') = static (self m) /\
  (exists mfc' vals',
      sweep (self m') = (mfc', vars, vals', [], Some t0) /\
      count_geb mfc' (Fin k) = true) /\
  records outs = planned t0 vars clock (sweep_plan k it).
Proof.
  induction it as [| row it IH]; intros clock m mfc vals outs m'
    Hsw Hmpc G Hlen F.
  - cbn in Hlen. destruct clock; [| discriminate]. cbn in F.
    inversion F; subst. split; [reflexivity |]. split; [| reflexivity].
    now exists mfc, vals.
  - unfold sweep_plan in Hlen. cbn [flat_map] in Hlen.
    fold (sweep_plan k it) in Hlen. rewrite length_app, repeat_length in Hlen.
    rewrite <- (firstn_skipn (held k) clock) in F |- *.
    assert (Hl1 : List.length (firstn (held k) clock) = held k).
    { rewrite length_firstn. lia. }
    assert (Hl2 : List.length (skipn (held k) clock)
                  = List.length (sweep_plan k it)).
    { rewrite length_skipn. lia. }
    rewrite fire_app in F.
    destruct (fire float_of_str (firstn (held k) clock) m) as [o1 m1] eqn:F1.
    destruct (fire float_of_str (skipn (held k) clock) m1) as [o2 m2] eqn:F2.
    inversion F; subst. clear F.
    eapply hold_row in F1; [| exact Hsw | exact Hmpc | exact G | exact Hl1].
    destruct F1 as [Hst1 [Hsw1 Hrec1]].
    apply static_fields in Hst1 as Hf. destruct Hf as [Hmpc1 _].
    eapply IH in F2; [| exact Hsw1 | congruence | | exact Hl2].
    2:{ cbn [count_geb]. apply Z.leb_le. lia. }
    destruct F2 as [Hst2 [Hend Hrec2]]. split; [congruence |].
    split; [exact Hend |].
    unfold sweep_plan. cbn [flat_map]. fold (sweep_plan k it).
    rewrite planned_app by (now rewrite repeat_length).
    unfold records in *. rewrite map_app, Hrec1, Hrec2. f_equal.
    rewrite <- planned_repeat. now rewrite Hl1.
Qed.

(** X8.  The sweep in general.  With conditions and
    [measurements_per_condition = k] (an int), the ticks after [start]
    go through the rows [zip] makes of the value sequences, in order,
    and hold each row for k ticks (for one tick when k < 1): tick by
    tick, the record handed to the first hook holds the elapsed time and
    the values of the row of the plan, whatever the hooks, the table and
    the sinks do.  The tick after the last row stops the timer, calls
    [finish] of the loggers in turn, measures nothing, leaves the table
    as it is, and returns what [log_finish] returns: normally when every
    [finish] does, and then every logger got its [finish].  With a value
    sequence that is empty this is the first tick; a [CsvLogger] at the
    head of the loggers, which holds no file as long as no sample was
    logged, then raises [AttributeError]. *)
Theorem sweep_in_order :
  forall (m : machine) (now0 : float) (k : Z) (clock : list float) outs m1,
    _conditions (self m) <> [] ->
    _measurements_per_condition (self m) = Fin k ->
    let vars := map fst (_conditions (self m)) in
    let plan := sweep_plan k (zip_star (map snd (_conditions (self m)))) in
    List.length clock = List.length plan ->
    fire float_of_str clock (mkMachine (started now0 (self m)) (world m))
      = (outs, m1) ->
    records outs = planned now0 vars clock plan /\
    forall now, exists r m2 ev,
      _on_timer float_of_str now m1 = (r, m2, ev) /\
      _timer (self m2) = false /\ table (self m2) = table (self m1) /\
      filter is_measure ev = [] /\
      r = fst (fst (log_finish m1)) /\
      (r = inr tt ->
       ev = TimerStop :: map CallLogFinish
                             (seq 0 (List.length (_log (self m))))) /\
      ((forall logger, In logger (_log (self m)) ->
          forall w, fst (Logger_finish logger tt w) = inr tt) ->
       r = inr tt) /\
      (forall filename sep post,
          _log (self m) = CsvLogger U str_of_value filename sep :: post ->
          csv_file (world m1) filename = false ->
          r = inl AttributeError).
Proof.
  intros m now0 k clock outs m1 Hc Hmpc vars plan Hlen F.
  pose proof (started_sweep now0 (self m)) as Hsw.
  destruct (_conditions (self m)) as [| cd cds] eqn:Hcd; [congruence |].
  destruct (started_parts now0 (self m)) as [Hst _].
  apply static_fields in Hst as Hf. destruct Hf as [Hmpc0 Hlog0].
  rewrite Hmpc in Hsw.
  eapply sweep_rows in F; [| exact Hsw | cbn [self]; rewrite Hmpc0; exact Hmpc
                           | cbn [count_geb]; apply Z.leb_refl | exact Hlen].
  destruct F as [Hst1 [[mfc' [vals' [Hsw1 G1]]] Hrec]].
  apply static_fields in Hst1 as Hf. destruct Hf as [Hmpc1 Hlog1].
  cbn [self] in Hmpc1, Hlog1. split; [exact Hrec |].
  intros now.
  destruct (@tick_exhausted_calls now m1 _ _ _ _ Hsw1)
    as [r [m2 [ev [T [Hti [Ht [_ [_ [Hm [_ [Hr Hev]]]]]]]]]]].
  { rewrite Hmpc1, Hmpc0, Hmpc. exact G1. }
  exists r, m2, ev. rewrite Hlog1, Hlog0 in Hev.
  repeat (split; [assumption |]). split.
  - intros Hfin. rewrite Hr. apply log_finish_ok.
    intros logger Hin. apply Hfin. now rewrite <- Hlog0, <- Hlog1.
  - intros filename sep post Hlog Hclosed. rewrite Hr.
    apply log_finish_csv_closed with (filename := filename) (sep := sep)
                                     (post := post); [| exact Hclosed].
    now rewrite Hlog1, Hlog0.
Qed.

(** X9.  With conditions and [measurements_per_condition = float('inf')],
    the sweep never leaves its first row and the engine never ends the
    run: every tick after [start] hands its first hook the record with
    the values of the first row. *)
Theorem first_row_forever :
  forall (m : machine) (now0 : float) (clock : list float) row rest outs m1,
    _conditions (self m) <> [] ->
    _measurements_per_condition (self m) = Inf ->
    zip_star (map snd (_conditions (self m))) = row :: rest ->
    fire float_of_str clock (mkMachine (started now0 (self m)) (world m))
      = (outs, m1) ->
    records outs
      = map (fun now =>
               Some (record_of now0 (map fst (_conditions (self m))) row now))
            clock.
Proof.
  intros m now0 clock row rest outs m1 Hc Hmpc Hz F.
  pose proof (started_sweep now0 (self m)) as Hsw.
  destruct (_conditions (self m)) as [| cd cds] eqn:Hcd; [congruence |].
  destruct (started_parts now0 (self m)) as [Hst _].
  apply static_fields in Hst as Hf. destruct Hf as [Hmpc0 _].
  rewrite Hmpc, Hz in Hsw.
  destruct clock as [| now clock]; cbn [fire] in F.
  { inversion F; subst. reflexivity. }
  destruct (_on_timer float_of_str now _) as [[r m2] ev] eqn:T.
  destruct (fire float_of_str clock m2) as [out m3] eqn:F1.
  inversion F; subst. clear F.
  eapply tick_next in T; [| exact Hsw | cbn [self]; now rewrite Hmpc0, Hmpc].
  destruct T as [Hst1 [Hsw1 Hcond]].
  apply static_fields in Hst1 as Hf. destruct Hf as [Hmpc1 _].
  cbn [self] in Hmpc1.
  eapply fire_stay in F1; [| exact Hsw1 |].
  2:{ intros j _. rewrite Hmpc1, Hmpc0, Hmpc. reflexivity. }
  destruct F1 as [_ [_ Hrec]]. unfold records in *. cbn [map snd].
  now rewrite Hcond, Hrec.
Qed.

(** ** Sessions of the CSV logger *)

Lemma log_each_csv (filename sep : string) (rws : list void) :
  forall (w : World U) content,
  csv_file w filename = true -> files w filename = Some content ->
  exists w' content',
    log_each (CsvLogger U str_of_value filename sep) rws w = (inr tt, w') /\
    files w' filename = Some content' /\
    content' ++ csv_buffer w' filename
      = content ++ csv_buffer w filename
          ++ map (csv_line str_of_value sep) rws /\
    csv_file w' filename = true /\ user w' = user w /\
    forall p, p <> filename ->
      files w' p = files w p /\ csv_file w' p = csv_file w p.
Proof.
  induction rws as [| r rws IH]; intros w content Hopen Hf; cbn [log_each].
  - exists w, content. rewrite app_nil_r. now repeat split.
  - unfold and_then. cbn [Logger_log CsvLogger].
    destruct (csv_log_open filename sep r w Hopen Hf)
      as [w1 [-> [Hf1 [Ho1 [Hb1 [Hu1 Hother1]]]]]].
    destruct (IH w1 _ Ho1 Hf1) as [w' [c' [Hrun [Hf' [Hc' [Ho' [Hu' Hother']]]]]]].
    exists w', c'. split; [exact Hrun |]. split; [exact Hf' |]. split.
    + rewrite Hc', Hb1. cbn [app map]. unfold csv_line.
      now rewrite <- !app_assoc.
    + split; [exact Ho' |]. split; [congruence |]. intros p Hp.
      destruct (Hother' p Hp) as [H1 H2].
      destruct (Hother1 p Hp) as [H3 [H4 _]]. split; congruence.
Qed.

(** What a whole session leaves behind. *)
Lemma csv_session_files (filename sep : string) (first : void)
    (rest : list void) (w : World U) :
  files w filename = None ->
  exists w',
    logger_session (CsvLogger U str_of_value filename sep) first rest w
      = (inr tt, w') /\
    files w' filename
      = Some (String.concat sep (names (void_dtype first))
                :: map (csv_line str_of_value sep) (first :: rest)) /\
    csv_file w' filename = false /\ user w' = user w /\
    forall p, p <> filename -> files w' p = files w p.
Proof.
  intros Hf. unfold logger_session, and_then at 1.
  cbn [Logger_start CsvLogger].
  destruct (csv_start_fresh filename sep first w Hf)
    as [w1 [-> [Hf1 [Ho1 [Hb1 [Hu1 Hother1]]]]]].
  destruct (log_each_csv filename sep (first :: rest) w1 Ho1 Hf1)
    as [w2 [c2 [Hrun [Hf2 [Hc2 [Ho2 [Hu2 Hother2]]]]]]].
  unfold and_then. rewrite Hrun. cbn [Logger_finish CsvLogger].
  destruct (csv_finish_open filename w2 Ho2 Hf2)
    as [w3 [-> [Hf3 [Ho3 [_ [Hu3 Hother3]]]]]].
  exists w3. split; [reflexivity |]. split.
  - rewrite Hf3, Hc2, Hb1. reflexivity.
  - split; [exact Ho3 |]. split; [congruence |]. intros p Hp.
    destruct (Hother3 p Hp) as [-> _]. destruct (Hother2 p Hp) as [-> _].
    now destruct (Hother1 p Hp) as [-> _].
Qed.

(** X10.  A session of the CSV logger as the engine drives it, [start]
    with the first sample, [log] with every sample, [finish], on a path
    that does not exist: every call returns normally; the file then holds
    the header line, the column names joined by the separator, followed
    by one line per sample in the order logged, the values joined by the
    separator; no other file is touched.  The logger is closed
    afterwards: a further [log] or [finish] raises [AttributeError], and
    a further [start] raises [FileExistsError]; all three leave the file
    as it is. *)
Theorem csv_logger_session :
  forall (filename sep : string) (first : void) (rest : list void)
         (w : World U),
    files w filename = None ->
    exists w',
      logger_session (CsvLogger U str_of_value filename sep) first rest w
        = (inr tt, w') /\
      files w' filename
        = Some (String.concat sep (names (void_dtype first))
                  :: map (csv_line str_of_value sep) (first :: rest)) /\
      (forall p, p <> filename -> files w' p = files w p) /\
      (forall data,
          CsvLogger_log str_of_value filename sep data w'
            = (inl AttributeError, w') /\
          CsvLogger_start filename sep data w' = (inl FileExistsError, w')) /\
      CsvLogger_finish filename tt w' = (inl AttributeError, w').
Proof.
  intros filename sep first rest w Hf.
  destruct (csv_session_files filename sep first rest w Hf)
    as [w' [Hrun [Hf' [Hclosed [_ Hother]]]]].
  exists w'. split; [exact Hrun |]. split; [exact Hf' |].
  split; [exact Hother |]. split.
  - intros data. unfold CsvLogger_log, CsvLogger_start.
    now rewrite Hclosed, Hf'.
  - unfold CsvLogger_finish. now rewrite Hclosed.
Qed.

(** X11.  [stop] with a CSV logger that was never started, a run
    stopped before its first sample or stopped a second time: the timer
    is stopped, then [finish] of the CSV logger raises [AttributeError]
    (its [_file] is [None]), [stop] raises it, and [finish] of the
    loggers registered after it is not called. *)
Theorem stop_before_first_sample :
  forall (m : machine) (filename sep : string) post,
    _log (self m) = CsvLogger U str_of_value filename sep :: post ->
    csv_file (world m) filename = false ->
    stop m = (inl AttributeError,
              mkMachine (set_timer false (self m)) (world m),
              [TimerStop; CallLogFinish 0]).
Proof.
  intros m filename sep post Hlog Hclosed.
  unfold stop, timer_stop, log_finish. mrun. rewrite Hlog.
  cbn [for_each]. mrun. cbn [Logger_finish CsvLogger].
  unfold CsvLogger_finish. rewrite Hclosed. reflexivity.
Qed.

(** ** The hooks of a tick *)

Section Rounds.

Variable A : Type.
Variable mk : nat -> event.
Variable f : A -> World U -> (exn + unit) * World U.

Lemma for_each_no_apply (l : list A) i (m : machine) r m' ev :
  (forall j, is_apply_condition (mk j) = false) ->
  for_each (fun j x => bind (emit (mk j)) (fun _ => call (f x))) i l m
    = (r, m', ev) ->
  filter is_apply_condition ev = [].
Proof.
  intros Hmk H. apply for_each_calls in H.
  destruct H as [_ [[n [_ ->]] _]]. generalize i. clear - Hmk.
  induction n as [| n IH]; intros i; [reflexivity |].
  cbn. rewrite Hmk. apply IH.
Qed.

Lemma for_each_world (path : string) (l : list A) :
  (forall x, In x l -> forall w,
      files (snd (f x w)) path = files w path /\
      csv_file (snd (f x w)) path = csv_file w path /\
      csv_buffer (snd (f x w)) path = csv_buffer w path) ->
  forall i (m : machine) r m' ev,
  for_each (fun j x => bind (emit (mk j)) (fun _ => call (f x))) i l m
    = (r, m', ev) ->
  files (world m') path = files (world m) path /\
  csv_file (world m') path = csv_file (world m) path /\
  csv_buffer (world m') path = csv_buffer (world m) path.
Proof.
  induction l as [| x l IH]; intros Hq i m r m' ev H; cbn [for_each] in H.
  - inversion H; subst. now repeat split.
  - mrun_in H.
    pose proof (Hq x (or_introl eq_refl) (world m)) as [Hf [Hc Hb]].
    destruct (f x (world m)) as [[e | []] w1]; cbn [snd] in Hf, Hc, Hb.
    + inversion H; subst. now repeat split.
    + destruct (for_each _ (S i) l (mkMachine (self m) w1))
        as [[r2 m2] ev2] eqn:R.
      inversion H; subst. apply IH in R; [| intros y Hy; apply Hq; now right].
      cbn [world] in R. destruct R as [Hf' [Hc' Hb']].
      repeat split; congruence.
Qed.

End Rounds.

Lemma report_no_apply (row : void) (m : machine) r m' ev :
  report row m = (r, m', ev) -> filter is_apply_condition ev = [].
Proof.
  unfold report. rewrite bind_get_self. intros H.
  assert (Hstart : forall r1 m1 ev1,
    (if _first (self m) then log_start row else ret tt) m = (r1, m1, ev1) ->
    filter is_apply_condition ev1 = []).
  { intros r1 m1 ev1 H1. destruct (_first (self m)).
    - unfold log_start in H1. rewrite bind_get_self in H1.
      now apply for_each_no_apply with (mk := fun i => CallLogStart i row)
        in H1.
    - now inversion H1. }
  assert (Hlog : forall (m0 : machine) r1 m1 ev1,
    log row m0 = (r1, m1, ev1) -> filter is_apply_condition ev1 = []).
  { intros m0 r1 m1 ev1 H1. unfold log in H1. rewrite bind_get_self in H1.
    now apply for_each_no_apply with (mk := fun i => CallLog i row) in H1. }
  assert (Hplot : forall a (m0 : machine) r1 m1 ev1,
    plot a m0 = (r1, m1, ev1) -> filter is_apply_condition ev1 = []).
  { intros a m0 r1 m1 ev1 H1. unfold plot in H1. rewrite bind_get_self in H1.
    now apply for_each_no_apply with (mk := fun j => CallPlot j a) in H1. }
  apply bind_inv in H.
  destruct H as [[e [H _]] | [[] [m1 [ev1 [ev2 [H [R ->]]]]]]].
  { now apply Hstart in H. }
  apply Hstart in H. rewrite filter_app, H. cbn [app]. clear H.
  apply bind_inv in R.
  destruct R as [[e [R _]] | [[] [m2 [ev3 [ev4 [R [R' ->]]]]]]].
  { now apply Hlog in R. }
  apply Hlog in R. rewrite filter_app, R. cbn [app]. clear R.
  rewrite bind_get_self in R'. destruct (_data (self m2)) as [a |].
  2:{ now inversion R'. }
  apply bind_inv in R'.
  destruct R' as [[e [R' _]] | [[] [m3 [ev5 [ev6 [R' [R'' ->]]]]]]].
  { now apply Hplot in R'. }
  apply Hplot in R'. rewrite filter_app, R'. now inversion R''.
Qed.

Lemma tail_no_apply (meas0 : OrderedDict) (m : machine) r m' ev :
  bind (measure meas0)
       (fun meas => bind (append float_of_str meas) (@report U)) m
    = (r, m', ev) ->
  exists ev', ev = CallMeasure meas0 :: ev' /\
              filter is_apply_condition ev' = [].
Proof.
  intros H. apply bind_inv in H.
  destruct H as [[e [Me _]] | [meas [m1 [ev1 [ev2 [Me [H ->]]]]]]].
  - apply measure_calls in Me. destruct Me as [_ [-> _]]. now exists [].
  - apply measure_calls in Me. destruct Me as [_ [-> _]].
    exists ev2. split; [reflexivity |]. apply bind_inv in H.
    destruct H as [[e [Ap _]] | [row [m2 [ev3 [ev4 [Ap [Rp ->]]]]]]].
    + apply append_effect in Ap. now destruct Ap as [_ [-> _]].
    + apply append_effect in Ap. destruct Ap as [_ [-> _]].
      now apply report_no_apply in Rp.
Qed.

Lemma body_hooks (now : float) (m : machine) rb mb evb mfc vars vals it t0 :
  sweep (self m) = (mfc, vars, vals, it, Some t0) ->
  tick_body float_of_str now m = (rb, mb, evb) ->
  (count_geb mfc (_measurements_per_condition (self m)) = false ->
   exists ev',
     evb = CallMeasure (record_of t0 vars vals now) :: ev' /\
     filter is_apply_condition ev' = []) /\
  (count_geb mfc (_measurements_per_condition (self m)) = true ->
   forall vals' it', it = vals' :: it' ->
     exists ev',
       evb = CallApplyCondition (record_of t0 vars vals' now) :: ev' /\
       filter is_apply_condition ev' = []).
Proof.
  intros Hsw H. unfold sweep in Hsw.
  injection Hsw as Hmfc Hvars Hvals Hit Ht0.
  unfold tick_body, prepare, advance in H. mrun_in H.
  rewrite Ht0 in H. mrun_in H. rewrite Hmfc in H. split.
  - intros G. rewrite G in H. mrun_in H. apply tail_no_apply in H.
    destruct H as [ev' [-> Hev']]. exists ev'. split; [| exact Hev'].
    unfold record_of. now rewrite Hvars, Hvals.
  - intros G vals' it' Hit'. rewrite G in H. mrun_in H.
    rewrite Hit, Hit' in H. mrun_in H. apply bind_inv in H.
    destruct H as [[e [Ac _]] | [meas [m1 [ev1 [ev2 [Ac [H ->]]]]]]].
    + apply apply_condition_calls in Ac. destruct Ac as [_ ->].
      exists []. split; [| reflexivity]. unfold record_of. now rewrite Hvars.
    + apply apply_condition_calls in Ac. destruct Ac as [_ ->].
      rewrite bind_ret in H. apply tail_no_apply in H.
      destruct H as [ev' [-> Hev']]. exists (CallMeasure meas :: ev').
      split; [| exact Hev']. unfold record_of. now rewrite Hvars.
Qed.

(** X16.  [apply_condition] is called exactly when the condition row
    changes.  A tick that stays on its row (fewer measurements taken than
    the measurements per condition) calls no [apply_condition]: the
    first thing it does is the measurement.  A tick that moves to the
    next row calls [apply_condition] once, with the record of the
    elapsed time and the new values, as the first thing it does, before
    the measurement, and not again. *)
Theorem apply_condition_on_change :
  forall (now : float) (m : machine) r m' ev mfc vars vals it t0,
    sweep (self m) = (mfc, vars, vals, it, Some t0) ->
    _on_timer float_of_str now m = (r, m', ev) ->
    (count_geb mfc (_measurements_per_condition (self m)) = false ->
     exists ev',
       ev = CallMeasure (record_of t0 vars vals now) :: ev' /\
       filter is_apply_condition ev' = []) /\
    (count_geb mfc (_measurements_per_condition (self m)) = true ->
     forall vals' it', it = vals' :: it' ->
       exists ev',
         ev = CallApplyCondition (record_of t0 vars vals' now) :: ev' /\
         filter is_apply_condition ev' = []).
Proof.
  intros now m r m' ev mfc vars vals it t0 Hsw H.
  apply on_timer_inv in H.
  destruct H as [[_ H] | [e [m1 [ev1 [_ [H [_ ->]]]]]]].
  - exact (body_hooks _ _ Hsw H).
  - destruct (body_hooks _ _ Hsw H) as [Hstay Hnext]. split.
    + intros G. destruct (Hstay G) as [ev' [-> Hev']].
      exists (ev' ++ [TimerStop]). split; [reflexivity |].
      now rewrite filter_app, Hev'.
    + intros G vals' it' Hit. destruct (Hnext G vals' it' Hit)
        as [ev' [-> Hev']].
      exists (ev' ++ [TimerStop]). split; [reflexivity |].
      now rewrite filter_app, Hev'.
Qed.

(** ** The file of a run *)

Lemma apply_each_world (path : string)
    (fs : list (callback U OrderedDict OrderedDict)) :
  Forall (leaves_file path (B := OrderedDict)) fs ->
  forall meas (m : machine) r m' ev,
  apply_each fs meas m = (r, m', ev) ->
  files (world m') path = files (world m) path /\
  csv_file (world m') path = csv_file (world m) path /\
  csv_buffer (world m') path = csv_buffer (world m) path.
Proof.
  induction 1 as [| f fs Hf HF IH]; intros meas m r m' ev H; cbn in H.
  - inversion H; subst. now repeat split.
  - rewrite bind_call in H. destruct (Hf meas (world m)) as [H1 [H2 H2']].
    destruct (f meas (world m)) as [[e | meas'] w]; cbn [snd] in H1, H2, H2'.
    + inversion H; subst. now repeat split.
    + apply IH in H. cbn [world] in H. destruct H as [H3 [H4 H5]].
      repeat split; congruence.
Qed.

Lemma prepare_world (path : string) (now : float) (m : machine) meas0 m1 ev1 :
  Forall (leaves_file path (B := OrderedDict)) (_apply_condition (self m)) ->
  prepare now m = (inr (Some meas0), m1, ev1) ->
  files (world m1) path = files (world m) path /\
  csv_file (world m1) path = csv_file (world m) path /\
  csv_buffer (world m1) path = csv_buffer (world m) path.
Proof.
  intros Hq. unfold prepare. rewrite bind_get_self.
  destruct (_t0 (self m)) as [t0 |]; [| discriminate].
  intros H. apply bind_inv in H.
  destruct H as [[e [_ E]] | [ch [mx [evx [ev2 [H [R _]]]]]]];
    [discriminate |].
  apply advance_inv in H. cbv zeta in H. destruct ch as [[|] |].
  - destruct H as [_ [vals [it [_ [-> _]]]]]. mrun_in R.
    apply bind_inv in R.
    destruct R as [[e [_ E]] | [meas [m2 [ev3 [ev4 [R [R' _]]]]]]];
      [discriminate |].
    inversion R'; subst. clear R'. unfold apply_condition in R.
    mrun_in R.
    destruct (apply_each _ _ _) as [[r0 m0] ev0] eqn:E in R.
    inversion R; subst. apply (apply_each_world Hq) in E. exact E.
  - destruct H as [_ [-> _]]. mrun_in R. inversion R; subst.
    now repeat split.
  - discriminate R.
Qed.

Lemma hooks_leave_file_ext (path : string) (e e' : Experiment) :
  static e' = static e -> hooks_leave_file path e ->
  hooks_leave_file path e'.
Proof.
  unfold static, hooks_leave_file. intros H. inversion H as [[H1 H2 H3 H4]].
  now rewrite H1, H2, H4.
Qed.

(** The rounds of calls to a single logger. *)
Lemma log_start_single (logger : Logger U) (row : void) (m : machine) :
  _log (self m) = [logger] ->
  log_start row m =
  (fst (Logger_start logger row (world m)),
   mkMachine (self m) (snd (Logger_start logger row (world m))),
   [CallLogStart 0 row]).
Proof.
  intros Hlog. unfold log_start. rewrite bind_get_self, Hlog.
  cbn [for_each]. mrun.
  destruct (Logger_start logger row (world m)) as [[e | []] w]; reflexivity.
Qed.

Lemma log_single (logger : Logger U) (row : void) (m : machine) :
  _log (self m) = [logger] ->
  log row m =
  (fst (Logger_log logger row (world m)),
   mkMachine (self m) (snd (Logger_log logger row (world m))),
   [CallLog 0 row]).
Proof.
  intros Hlog. unfold log. rewrite bind_get_self, Hlog.
  cbn [for_each]. mrun.
  destruct (Logger_log logger row (world m)) as [[e | []] w]; reflexivity.
Qed.

Lemma log_finish_single (logger : Logger U) (m : machine) :
  _log (self m) = [logger] ->
  log_finish m =
  (fst (Logger_finish logger tt (world m)),
   mkMachine (self m) (snd (Logger_finish logger tt (world m))),
   [CallLogFinish 0]).
Proof.
  intros Hlog. unfold log_finish. rewrite bind_get_self, Hlog.
  cbn [for_each]. mrun.
  destruct (Logger_finish logger tt (world m)) as [[e | []] w]; reflexivity.
Qed.

Lemma plot_world (path : string) (a : ndarray) (m : machine) r m' ev :
  Forall (leaves_file path (B := unit)) (_plot (self m)) ->
  plot a m = (r, m', ev) ->
  files (world m') path = files (world m) path /\
  csv_file (world m') path = csv_file (world m) path /\
  csv_buffer (world m') path = csv_buffer (world m) path.
Proof.
  intros Hq. unfold plot. rewrite bind_get_self. intros H.
  apply for_each_world with (path := path) (mk := fun j => CallPlot j a)
    in H; [exact H |].
  intros f Hin w. rewrite Forall_forall in Hq. exact (Hq f Hin a w).
Qed.

(** What a successful [report] does to the file of a CSV logger that is
    the only logger. *)
Lemma report_csv (filename sep : string) (row : void) (m : machine) m' ev :
  _log (self m) = [CsvLogger U str_of_value filename sep] ->
  Forall (leaves_file filename (B := unit)) (_plot (self m)) ->
  report row m = (inr tt, m', ev) ->
  csv_file (world m') filename = true /\
  csv_buffer (world m') filename = [] /\
  if _first (self m)
  then files (world m) filename = None /\
       files (world m') filename
         = Some [String.concat sep (names (void_dtype row));
                 csv_line str_of_value sep row]
  else csv_file (world m) filename = true /\
       forall content,
         files (world m) filename = Some content ->
         files (world m') filename
           = Some (content ++ csv_buffer (world m) filename
                     ++ [csv_line str_of_value sep row]).
Proof.
  intros Hlog Hq. unfold report. rewrite bind_get_self. intros H.
  apply bind_inv in H.
  destruct H as [[e [_ E]] | [[] [m1 [ev1 [ev2 [H [R _]]]]]]];
    [discriminate |].
  apply bind_inv in R.
  destruct R as [[e [_ E]] | [[] [m2 [ev3 [ev4 [R [R' _]]]]]]];
    [discriminate |].
  rewrite bind_get_self in R'. destruct (_data (self m2)) as [a |];
    [| discriminate].
  apply bind_inv in R'.
  destruct R' as [[e [_ E]] | [[] [m3 [ev5 [ev6 [R' [R'' _]]]]]]];
    [discriminate |].
  unfold modify in R''. inversion R''; subst m'. cbn [world]. clear R''.
  assert (Hs1 : self m1 = self m).
  { destruct (_first (self m)).
    - apply log_start_calls in H. tauto.
    - inversion H; now subst. }
  pose proof (log_calls _ _ R) as [Hs2 _].
  apply plot_world with (path := filename) in R';
    [| now rewrite Hs2, Hs1].
  destruct R' as [-> [-> ->]].
  erewrite log_single in R by (rewrite Hs1; exact Hlog).
  cbn [Logger_log CsvLogger] in R.
  assert (Hopen1 : csv_file (world m1) filename = true).
  { unfold CsvLogger_log in R.
    destruct (csv_file (world m1) filename); [reflexivity | discriminate R]. }
  destruct (_first (self m)).
  - erewrite log_start_single in H by exact Hlog.
    cbn [Logger_start CsvLogger] in H.
    destruct (files (world m) filename) eqn:Hf.
    { unfold CsvLogger_start in H. rewrite Hf in H. discriminate H. }
    destruct (csv_start_fresh filename sep row (world m) Hf)
      as [w1 [Hs [Hf1 [Ho1 [Hb1 _]]]]].
    rewrite Hs in H. inversion H; subst m1. cbn [world] in *. clear H.
    destruct (csv_log_open filename sep row w1 Ho1 Hf1)
      as [w2 [Hl [Hf2 [Ho2 [Hb2 _]]]]].
    rewrite Hl in R. inversion R; subst m2. cbn [world].
    rewrite Hb1 in Hf2. now repeat split.
  - inversion H; subst m1. clear H.
    unfold CsvLogger_log in R. rewrite Hopen1 in R.
    inversion R; subst m2. cbn [world]. clear R.
    split; [now rewrite flush_csv_file, print_line_csv_file |].
    split; [apply flush_buffer |]. split; [exact Hopen1 |].
    intros content Hf.
    destruct (csv_log_open filename sep row (world m) Hopen1 Hf)
      as [w2 [Hl [Hf2 _]]].
    unfold CsvLogger_log in Hl. rewrite Hopen1 in Hl.
    inversion Hl as [Hw2]. rewrite <- Hw2 in Hf2. exact Hf2.
Qed.

Lemma advance_none_csv (filename sep : string) (m : machine) m' ev :
  _log (self m) = [CsvLogger U str_of_value filename sep] ->
  advance m = (inr None, m', ev) ->
  count_geb (_measurements_for_condition (self m))
            (_measurements_per_condition (self m)) = true /\
  csv_file (world m) filename = true /\
  csv_file (world m') filename = false /\
  csv_buffer (world m') filename = [] /\
  (csv_buffer (world m) filename = [] ->
   files (world m') filename = files (world m) filename).
Proof.
  intros Hlog. unfold advance. rewrite bind_get_self.
  destruct (count_geb _ _); [| discriminate].
  rewrite bind_modify. destruct (_variable_values_iter (self m));
    [| mrun; discriminate].
  intros H. apply bind_inv in H.
  destruct H as [[e [_ E]] | [[] [m1 [ev1 [ev2 [H [R _]]]]]]];
    [discriminate |].
  inversion R; subst m'. clear R. unfold stop, timer_stop in H.
  mrun_in H.
  erewrite log_finish_single in H by (simp_self; exact Hlog).
  cbn [Logger_finish CsvLogger world] in H. unfold CsvLogger_finish in H.
  destruct (csv_file (world m) filename) eqn:Hopen; [| discriminate H].
  inversion H; subst m1. cbn [world]. unfold set_csv_file.
  cbn [files csv_file csv_buffer]. rewrite String.eqb_refl.
  split; [reflexivity |]. split; [reflexivity |]. split; [reflexivity |].
  split; [apply flush_buffer |]. intros Hb. now apply flush_empty.
Qed.

(** A tick that returns normally, with a CSV logger as the only logger
    and hooks that leave its file alone: the sweep was exhausted and the
    file is closed as it is, or the row of the tick is in the table and
    its line is in the file, after the header when the sample is the
    first of the run. *)
Lemma tick_csv (filename sep : string) (now : float) (m : machine) m' ev :
  _on_timer float_of_str now m = (inr tt, m', ev) ->
  table_ok (self m) ->
  _log (self m) = [CsvLogger U str_of_value filename sep] ->
  hooks_leave_file filename (self m) ->
  static (self m') = static (self m) /\
  table_ok (self m') /\
  csv_buffer (world m') filename = [] /\
  ((count_geb (_measurements_for_condition (self m))
              (_measurements_per_condition (self m)) = true /\
    _timer (self m') = false /\ table (self m') = table (self m) /\
    csv_file (world m) filename = true /\
    csv_file (world m') filename = false /\
    (csv_buffer (world m) filename = [] ->
     files (world m') filename = files (world m) filename))
   \/
   (exists row,
       _timer (self m') = _timer (self m) /\ _first (self m') = false /\
       snapshot (self m') = snapshot (self m) ++ [Some (void_items row)] /\
       _len (self m') = S (_len (self m)) /\
       csv_file (world m') filename = true /\
       if _first (self m)
       then files (world m) filename = None /\
            files (world m') filename
              = Some [String.concat sep (names (void_dtype row));
                      csv_line str_of_value sep row]
       else csv_file (world m) filename = true /\
            forall content,
              files (world m) filename = Some content ->
              files (world m') filename
                = Some (content ++ csv_buffer (world m) filename
                          ++ [csv_line str_of_value sep row]))).
Proof.
  intros H Hok Hlog [Hqm [Hqa Hqp]]. apply on_timer_inv in H.
  destruct H as [[_ H] | [e [m1 [ev1 [E _]]]]]; [| discriminate].
  apply tick_body_inv in H.
  destruct H as [[e [_ E]] | [[P _] | [meas0 [m1 [ev1 [P H]]]]]];
    [discriminate | |].
  - pose proof (prepare_inv _ _ P) as [Hst [Ht [_ [_ [Hti _]]]]].
    split; [exact Hst |]. split; [now apply (table_ok_ext Ht) |].
    unfold prepare in P. rewrite bind_get_self in P.
    destruct (_t0 (self m)); [| discriminate P].
    apply bind_inv in P.
    destruct P as [[e [_ E]] | [ch [mx [evx [ev2 [A [R _]]]]]]];
      [discriminate |].
    destruct ch as [ch |].
    { mrun_in R. apply bind_inv in R.
      destruct R as [[e [_ E]] | [meas [m2 [ev3 [ev4 [_ [R' _]]]]]]];
        discriminate. }
    inversion R; subst mx. eapply advance_none_csv in A; [| exact Hlog].
    destruct A as [A0 [A1 [A2 [A3 A4]]]]. split; [exact A3 |].
    left. now repeat split.
  - destruct H as [[e [_ [E _]]] | [meas [m2 [Me H]]]]; [discriminate |].
    destruct (before_append _ _ P Me) as [Ht [Hst [Hf [Hti _]]]].
    destruct H as [[e [_ [E _]]] | [row [m3 [ev3 [Ap [Rp _]]]]]];
      [discriminate |].
    assert (Hok2 : table_ok (self m2)) by now apply (table_ok_ext Ht).
    pose proof (append_effect _ _ Ap) as [Hw3 [_ [Hst3 [_ [Hti3 Hf3]]]]].
    pose proof (append_table _ _ Ap Hok2) as [Hok3 [_ [Hsnap [Hlen _]]]].
    pose proof (report_inv _ _ Rp) as [_ Rp'].
    destruct (Rp' eq_refl) as [Hs' _].
    assert (Hst3' : static (self m3) = static (self m)) by congruence.
    assert (Hlog3 : _log (self m3) = [CsvLogger U str_of_value filename sep]).
    { unfold static in Hst3'. inversion Hst3'. congruence. }
    assert (Hplot3 : _plot (self m3) = _plot (self m)).
    { unfold static in Hst3'. now inversion Hst3'. }
    apply (report_csv _ _ Hlog3) in Rp; [| now rewrite Hplot3].
    destruct Rp as [Hopen [Hbuf Hfile]].
    (* the world before the report is the world of the tick, as far as
       the file goes *)
    pose proof (prepare_world _ _ Hqa P) as [Hf1 [Hc1 Hb1]].
    pose proof (measure_calls _ _ Me) as [Hs2 [_ Hm2]].
    assert (Hmeas : _measure (self m1) = _measure (self m)).
    { pose proof (prepare_inv _ _ P) as [Hst1 _]. unfold static in Hst1.
      now inversion Hst1. }
    destruct (Hqm meas0 (world m1)) as [Hf2 [Hc2 Hb2]].
    rewrite <- Hmeas, <- Hm2 in Hf2, Hc2, Hb2. cbn [snd] in Hf2, Hc2, Hb2.
    assert (Hfw : files (world m3) filename = files (world m) filename)
      by congruence.
    assert (Hcw : csv_file (world m3) filename = csv_file (world m) filename)
      by congruence.
    assert (Hbw : csv_buffer (world m3) filename
                  = csv_buffer (world m) filename) by congruence.
    rewrite Hs'.
    split; [exact Hst3' |]. split; [exact Hok3 |]. split; [exact Hbuf |].
    right. exists row.
    split; [simp_self; congruence |]. split; [reflexivity |].
    split; [rewrite <- (snapshot_ext Ht); exact Hsnap |].
    split.
    { simp_self. rewrite Hlen. unfold table in Ht. inversion Ht.
      congruence. }
    split; [exact Hopen |].
    rewrite Hf3, Hf in Hfile. rewrite Hfw, Hcw, Hbw in Hfile. exact Hfile.
Qed.


(** C1.  After [start] with conditions [('v', [1, 2, 3])] and two
    measurements per condition, the first six calls of [_on_timer] bind
    v to 1, 1, 2, 2, 3, 3, whatever the hooks and the loggers do.  The
    seventh call finds the sweep exhausted: it stops the timer and calls
    the loggers' [finish], calls neither [apply_condition] nor the
    measurement, and appends nothing.  The engine raises nothing of its
    own there: the call returns what [log_finish] returns, and when that
    is a normal return every logger got its [finish].  It is a normal
    return with loggers whose [finish] never raises, as that of the base
    [Logger], and with a [CsvLogger] as the logger, once the sixth call
    has returned normally (hooks that leave the file of the logger
    alone). *)
Theorem sweep_determinism :
  forall (m : machine) (now0 : float) (interval : Z)
         (t1 t2 t3 t4 t5 t6 t7 : float),
    _conditions (self m) = [("v", [VInt 1; VInt 2; VInt 3])] ->
    _measurements_per_condition (self m) = Fin 2 ->
    exists m0 outs m6 r7 m7 ev7,
      start now0 interval m = (inr tt, m0, [TimerStart (interval * 1000)]) /\
      fire float_of_str [t1; t2; t3; t4; t5; t6] m0 = (outs, m6) /\
      map bound_v outs
        = map Some [VInt 1; VInt 1; VInt 2; VInt 2; VInt 3; VInt 3] /\
      _on_timer float_of_str t7 m6 = (r7, m7, ev7) /\
      _timer (self m7) = false /\
      table (self m7) = table (self m6) /\
      filter is_measure ev7 = [] /\
      filter is_apply_condition ev7 = [] /\
      r7 = fst (fst (log_finish m6)) /\
      (r7 = inr tt ->
       ev7 = TimerStop
               :: map CallLogFinish (seq 0 (List.length (_log (self m))))) /\
      ((forall logger, In logger (_log (self m)) ->
          forall w, fst (Logger_finish logger tt w) = inr tt) ->
       r7 = inr tt) /\
      (forall filename sep,
          _log (self m) = [CsvLogger U str_of_value filename sep] ->
          hooks_leave_file filename (self m) ->
          table_ok (self m) ->
          (exists ev6, nth_error outs 5 = Some (inr tt, ev6)) ->
          r7 = inr tt).
Proof.
  intros m now0 interval t1 t2 t3 t4 t5 t6 t7 Hcond Hmpc.
  set (m0 := mkMachine (started now0 (self m)) (world m)).
  assert (Hst0 : static (self m0) = static (self m))
    by apply started_parts.
  assert (Hsw0 : sweep (self m0)
                 = (Fin 2, ["v"], _variable_values (self m),
                    [[VInt 1]; [VInt 2]; [VInt 3]], Some now0)).
  { unfold m0, started. cbn [self]. rewrite Hcond, Hmpc. reflexivity. }
  assert (Hmpc' : forall mk : machine,
            static (self mk) = static (self m) ->
            _measurements_per_condition (self mk) = Fin 2).
  { intros mk Hk. apply static_fields in Hk. destruct Hk as [-> _].
    exact Hmpc. }
  destruct (_on_timer float_of_str t1 m0) as [[r1 m1] ev1] eqn:T1.
  destruct (tick_next _ _ Hsw0 (eq_trans (f_equal _ (Hmpc' _ Hst0)) eq_refl) T1)
    as [Hst1 [Hsw1 Hc1]].
  rewrite Hst0 in Hst1.
  destruct (_on_timer float_of_str t2 m1) as [[r2 m2] ev2] eqn:T2.
  destruct (tick_stay _ _ Hsw1 (eq_trans (f_equal _ (Hmpc' _ Hst1)) eq_refl) T2)
    as [Hst2 [Hsw2 Hc2]].
  rewrite Hst1 in Hst2.
  destruct (_on_timer float_of_str t3 m2) as [[r3 m3] ev3] eqn:T3.
  destruct (tick_next _ _ Hsw2 (eq_trans (f_equal _ (Hmpc' _ Hst2)) eq_refl) T3)
    as [Hst3 [Hsw3 Hc3]].
  rewrite Hst2 in Hst3.
  destruct (_on_timer float_of_str t4 m3) as [[r4 m4] ev4] eqn:T4.
  destruct (tick_stay _ _ Hsw3 (eq_trans (f_equal _ (Hmpc' _ Hst3)) eq_refl) T4)
    as [Hst4 [Hsw4 Hc4]].
  rewrite Hst3 in Hst4.
  destruct (_on_timer float_of_str t5 m4) as [[r5 m5] ev5] eqn:T5.
  destruct (tick_next _ _ Hsw4 (eq_trans (f_equal _ (Hmpc' _ Hst4)) eq_refl) T5)
    as [Hst5 [Hsw5 Hc5]].
  rewrite Hst4 in Hst5.
  destruct (_on_timer float_of_str t6 m5) as [[r6 m6] ev6] eqn:T6.
  destruct (tick_stay _ _ Hsw5 (eq_trans (f_equal _ (Hmpc' _ Hst5)) eq_refl) T6)
    as [Hst6 [Hsw6 Hc6]].
  rewrite Hst5 in Hst6.
  destruct (static_fields Hst6) as [_ Hlg6].
  destruct (@tick_exhausted_calls t7 m6 _ _ _ _ Hsw6
              (eq_trans (f_equal _ (Hmpc' _ Hst6)) eq_refl))
    as [r7 [m7 [ev7 [T7 [Hti7 [Ht7 [_ [_ [Hm7 [Ha7 [Hr7 Hev7]]]]]]]]]]].
  exists m0, [(r1, ev1); (r2, ev2); (r3, ev3); (r4, ev4); (r5, ev5); (r6, ev6)],
    m6, r7, m7, ev7.
  split; [apply start_run |].
  split; [cbn [fire]; now rewrite T1, T2, T3, T4, T5, T6 |].
  split.
  { unfold bound_v. cbn [map snd]. rewrite Hc1, Hc2, Hc3, Hc4, Hc5, Hc6.
    reflexivity. }
  rewrite Hlg6 in Hev7. repeat (split; [assumption |]). split.
  - intros Hfin. rewrite Hr7. apply log_finish_ok. now rewrite Hlg6.
  - intros filename sep Hlog Hq Hok [ev6' Hnth]. cbn in Hnth.
    inversion Hnth; subst r6 ev6'. clear Hnth.
    (* the table is in order before the sixth call *)
    assert (Hok0 : table_ok (self m0)).
    { apply (table_ok_ext (e := self m)); [| exact Hok].
      apply started_parts. }
    pose proof (tick_table _ _ T1 Hok0) as [_ [Hok1 _]].
    pose proof (tick_table _ _ T2 Hok1) as [_ [Hok2 _]].
    pose proof (tick_table _ _ T3 Hok2) as [_ [Hok3 _]].
    pose proof (tick_table _ _ T4 Hok3) as [_ [Hok4 _]].
    pose proof (tick_table _ _ T5 Hok4) as [_ [Hok5 _]].
    assert (Hlog5 : _log (self m5) = [CsvLogger U str_of_value filename sep]).
    { destruct (static_fields Hst5) as [_ ->]. exact Hlog. }
    assert (Hq5 : hooks_leave_file filename (self m5))
      by now apply (hooks_leave_file_ext Hst5).
    pose proof (tick_csv _ _ T6 Hok5 Hlog5 Hq5) as [_ [_ [_ Hcase]]].
    destruct Hcase as [[G6 _] | [row [_ [_ [_ [_ [Hopen _]]]]]]].
    + (* the sixth call measured: it did not end the run *)
      exfalso. unfold sweep in Hsw5. injection Hsw5 as Hmfc5 _ _ _ _.
      rewrite Hmfc5, (Hmpc' _ Hst5) in G6. discriminate G6.
    + rewrite Hr7.
      unfold log_finish. mrun. destruct (static_fields Hst6) as [_ ->].
      rewrite Hlog. cbn [for_each]. mrun. cbn [Logger_finish CsvLogger].
      unfold CsvLogger_finish. rewrite Hopen. reflexivity.
Qed.


(** ** The calls of a tick, in order *)




End Properties.

(* ------------------------------------------------------------------ *)
(** ** The table as objects *)

Section ObjectProperties.

Variable U : Type.
Variable float_of_str : string -> option float.

Lemma nth_list_set_same (A : Type) (x d : A) (l : list A) : forall i,
  i < List.length l -> nth i (list_set i x l) d = x.
Proof.
  induction l as [| y l IH]; intros [| i] H; cbn in *; try lia;
    [reflexivity | apply IH; lia].
Qed.

Lemma nth_list_set_other (A : Type) (x d : A) (l : list A) : forall i j,
  i <> j -> nth j (list_set i x l) d = nth j l d.
Proof.
  induction l as [| y l IH]; intros [| i] [| j] H; cbn; try reflexivity;
    try congruence.
  apply IH. congruence.
Qed.

Lemma buffer_of_app (mem : memory) (r : array_ref) b :
  ref_base r < List.length mem ->
  buffer_of (mem ++ [b]) r = buffer_of mem r.
Proof. intros H. unfold buffer_of. now rewrite app_nth1. Qed.

Lemma deref_app (mem : memory) (r : array_ref) b :
  ref_base r < List.length mem -> deref (mem ++ [b]) r = deref mem r.
Proof. intros H. unfold deref. now rewrite buffer_of_app. Qed.

Lemma buffer_of_new (mem : memory) (r : array_ref) b :
  ref_base r = List.length mem -> buffer_of (mem ++ [b]) r = b.
Proof.
  intros H. unfold buffer_of. rewrite H, app_nth2, Nat.sub_diag by lia.
  reflexivity.
Qed.

(** A view shows the slice. *)
Lemma deref_view (mem : memory) (n : nat) (r : array_ref) :
  deref mem (view_to n r) = slice_to n (deref mem r).
Proof.
  unfold deref, view_to, slice_to, buffer_of. cbn. f_equal.
  now rewrite firstn_firstn.
Qed.

(** An array of its own shows its buffer. *)
Lemma deref_whole (mem : memory) (r : array_ref) :
  ref_shape r = List.length (buffer_of mem r) ->
  deref mem r = mkArray (ref_dtype r) (buffer_of mem r).
Proof. intros H. unfold deref. now rewrite H, firstn_all. Qed.

Lemma deref_np_empty (n : nat) (dt : dtype) (mem : memory) :
  deref (snd (np_empty_ref n dt mem)) (fst (np_empty_ref n dt mem))
  = np_empty n dt.
Proof.
  unfold np_empty_ref, np_empty. cbn [fst snd]. unfold deref. cbn.
  rewrite buffer_of_new by reflexivity.
  now rewrite <- (repeat_length (@None (list value)) n) at 1; rewrite firstn_all.
Qed.


Lemma list_set_last (A : Type) (x y : A) (l : list A) :
  list_set (List.length l) y (l ++ [x]) = l ++ [y].
Proof. induction l as [| z l IH]; cbn; [reflexivity | now rewrite IH]. Qed.

Lemma list_set_app_length (A : Type) (x : A) (l : list A) : forall i,
  List.length (list_set i x l) = List.length l.
Proof.
  induction l as [| y l IH]; intros [| i]; cbn; try reflexivity.
  now rewrite IH.
Qed.

Lemma store_row_ref_eq (data : list value) (t : table_ref) (mem : memory)
    (a : array_ref) :
  data_ref t = Some a -> ref_base a < List.length mem ->
  store_row_ref float_of_str data t mem =
  match grown_ref a (len_ref t) mem with
  | (a1, mem1) =>
      if ref_shape a1 <=? len_ref t
      then (inl IndexError, mkTable (Some a1) (len_ref t), mem1)
      else
        match store_fields float_of_str (ref_dtype a) data with
        | inl ex => (inl ex, mkTable (Some a1) (len_ref t), mem1)
        | inr row =>
            (inr (mkVoid (ref_dtype a) row),
             mkTable (Some a1) (len_ref t + 1),
             write_ref a1 (len_ref t) row mem1)
        end
  end.
Proof.
  intros Hd Hb. unfold store_row_ref, grown_ref. rewrite Hd. cbv zeta.
  destruct (ref_shape a <=? len_ref t) eqn:Hfull.
  - unfold np_empty_ref, assign_prefix_ref. cbn [ref_base ref_shape ref_dtype
      data_ref len_ref].
    rewrite list_set_last, (@deref_app mem a _ Hb).
    rewrite buffer_of_new by reflexivity. reflexivity.
  - rewrite Hd. destruct t as [d l]. cbn in Hd, Hfull |- *. subst d.
    reflexivity.
Qed.

Lemma grown_ref_spec (a : array_ref) (len : nat) (mem : memory) a1 mem1 :
  ref_base a < List.length mem ->
  ref_shape a = List.length (buffer_of mem a) ->
  grown_ref a len mem = (a1, mem1) ->
  ref_dtype a1 = ref_dtype a /\
  ref_base a1 < List.length mem1 /\
  ref_shape a1 = List.length (buffer_of mem1 a1) /\
  deref mem1 a1 = grown (deref mem a) len /\
  List.length mem <= List.length mem1 /\
  (a1 = a \/ List.length mem <= ref_base a1) /\
  (forall b, b < List.length mem -> nth b mem1 [] = nth b mem []).
Proof.
  intros Hb Hs. unfold grown_ref, grown.
  assert (Hsh : shape0 (deref mem a) = ref_shape a).
  { unfold shape0, deref. cbn. rewrite length_firstn. lia. }
  rewrite Hsh. destruct (ref_shape a <=? len).
  - intros H. inversion H; subst. clear H. cbn [ref_dtype ref_base ref_shape].
    rewrite length_app. cbn [List.length].
    rewrite buffer_of_new by reflexivity.
    assert (Hl : List.length (arr_buf (deref mem a)
                    ++ skipn (ref_shape a) (repeat None (ref_shape a * 2)))
                 = ref_shape a * 2).
    { rewrite length_app, length_skipn, repeat_length.
      fold (shape0 (deref mem a)). rewrite Hsh. lia. }
    unfold deref in Hl. cbn [arr_buf] in Hl.
    split; [reflexivity |]. split; [lia |]. split; [now rewrite Hl |].
    split.
    + unfold deref at 1. cbn [ref_dtype ref_shape ref_base].
      rewrite buffer_of_new by reflexivity.
      rewrite <- Hl at 1. rewrite firstn_all. unfold assign_prefix, np_empty.
      rewrite Hsh. reflexivity.
    + split; [lia |]. split; [right; lia |].
      intros b Hlt. now rewrite app_nth1.
  - intros H. inversion H; subst. repeat split; auto.
Qed.

Lemma write_ref_own (a : array_ref) (idx : nat) (row : list value)
    (mem : memory) :
  ref_base a < List.length mem ->
  buffer_of (write_ref a idx row mem) a
  = list_set idx (Some row) (buffer_of mem a).
Proof.
  intros Hb. unfold write_ref, buffer_of. now apply nth_list_set_same.
Qed.

Lemma write_ref_other (a : array_ref) (idx : nat) (row : list value)
    (mem : memory) (b : nat) :
  ref_base a <> b -> nth b (write_ref a idx row mem) [] = nth b mem [].
Proof. intros Hb. unfold write_ref. now apply nth_list_set_other. Qed.

Lemma write_ref_length (a : array_ref) (idx : nat) (row : list value)
    (mem : memory) :
  List.length (write_ref a idx row mem) = List.length mem.
Proof. unfold write_ref. apply list_set_app_length. Qed.

Lemma shape0_deref (mem : memory) (a : array_ref) :
  ref_shape a = List.length (buffer_of mem a) ->
  shape0 (deref mem a) = ref_shape a.
Proof. intros H. unfold shape0, deref. cbn. rewrite length_firstn. lia. Qed.

(** What [store_row_ref] does for a table that is in order, next to the
    explicit form of the engine. *)
Lemma store_row_ref_spec (data : list value) (t : table_ref) (mem : memory)
    (a : array_ref) r t' mem' :
  data_ref t = Some a -> ref_base a < List.length mem ->
  ref_shape a = List.length (buffer_of mem a) ->
  store_row_ref float_of_str data t mem = (r, t', mem') ->
  let av := deref mem a in
  let len := len_ref t in
  let a1v := grown av len in
  table_wf t' mem' /\
  List.length mem <= List.length mem' /\
  (forall a', data_ref t' = Some a' ->
     a' = a \/ List.length mem <= ref_base a') /\
  (forall b, b < List.length mem -> ref_base a <> b ->
     nth b mem' [] = nth b mem []) /\
  (r, shown t' mem') =
  if shape0 a1v <=? len then (inl IndexError, (Some a1v, len))
  else
    match store_fields float_of_str (arr_dtype av) data with
    | inl ex => (inl ex, (Some a1v, len))
    | inr row =>
        (inr (mkVoid (arr_dtype av) row),
         (Some (mkArray (arr_dtype av)
                        (list_set len (Some row) (arr_buf a1v))),
          len + 1))
    end.
Proof.
  intros Hd Hb Hs H. cbv zeta. rewrite (@store_row_ref_eq data t mem a Hd Hb) in H.
  destruct (grown_ref a (len_ref t) mem) as [a1 mem1] eqn:G.
  destruct (@grown_ref_spec a (len_ref t) mem a1 mem1 Hb Hs G)
    as [Hdt [Hb1 [Hs1 [Hv [Hlen [Hfresh Hold]]]]]].
  rewrite <- Hv, (@shape0_deref mem1 a1 Hs1).
  change (arr_dtype (deref mem a)) with (ref_dtype a).
  destruct (ref_shape a1 <=? len_ref t) eqn:Hfull.
  - inversion H; subst. clear H. unfold table_wf, shown. cbn [data_ref len_ref].
    split; [now split |]. split; [exact Hlen |]. split.
    + intros a' E. inversion E; subst. exact Hfresh.
    + split; [intros b Hlt _; now apply Hold | reflexivity].
  - destruct (store_fields float_of_str (ref_dtype a) data) as [ex | row].
    + inversion H; subst. clear H. unfold table_wf, shown.
      cbn [data_ref len_ref].
      split; [now split |]. split; [exact Hlen |]. split.
      * intros a' E. inversion E; subst. exact Hfresh.
      * split; [intros b Hlt _; now apply Hold | reflexivity].
    + inversion H; subst. clear H. unfold table_wf, shown.
      cbn [data_ref len_ref option_map].
      rewrite write_ref_length, (@write_ref_own a1 (len_ref t) row mem1 Hb1),
        list_set_app_length.
      split; [now split |]. split; [exact Hlen |]. split.
      * intros a' E. inversion E; subst. exact Hfresh.
      * split.
        -- intros b Hlt Hne. rewrite write_ref_other; [now apply Hold |].
           destruct Hfresh as [-> | Hge]; [exact Hne | lia].
        -- f_equal. f_equal. f_equal. unfold deref at 1.
           rewrite (@write_ref_own a1 (len_ref t) row mem1 Hb1). rewrite Hdt.
           rewrite Hs1 at 1.
           rewrite <- (@list_set_app_length _ (Some row) (buffer_of mem1 a1)
                         (len_ref t)).
           rewrite firstn_all. f_equal. f_equal.
           rewrite (@deref_whole mem1 a1 Hs1). reflexivity.
Qed.

(** The frame of [append_ref]: the table stays in order, no buffer goes
    away, the table stays in its buffer or moves to a new one, and the
    buffers the table does not look at are left as they are. *)
Lemma append_ref_frame (meas : OrderedDict) (t : table_ref) (mem : memory)
    r t' mem' :
  table_wf t mem ->
  append_ref float_of_str meas t mem = (r, t', mem') ->
  table_wf t' mem' /\
  List.length mem <= List.length mem' /\
  (forall a', data_ref t' = Some a' ->
     data_ref t = Some a' \/ List.length mem <= ref_base a') /\
  (forall b, b < List.length mem ->
     (forall a, data_ref t = Some a -> ref_base a <> b) ->
     nth b mem' [] = nth b mem []).
Proof.
  intros Hwf H. unfold append_ref in H.
  assert (Hsame : forall r0 : exn + void, (r0, t, mem) = (r, t', mem') ->
    table_wf t' mem' /\
    List.length mem <= List.length mem' /\
    (forall a', data_ref t' = Some a' ->
       data_ref t = Some a' \/ List.length mem <= ref_base a') /\
    (forall b, b < List.length mem ->
       (forall a, data_ref t = Some a -> ref_base a <> b) ->
       nth b mem' [] = nth b mem [])).
  { intros r0 E. inversion E; subst. repeat split; auto. }
  destruct meas as [| kv meas]; [exact (Hsame _ H) |].
  cbv zeta in H. unfold table_wf in Hwf.
  destruct (data_ref t) as [a |] eqn:Hd.
  - destruct Hwf as [Hb Hs].
    destruct (negb _); [exact (Hsame _ H) |].
    destruct (@store_row_ref_spec (map snd (kv :: meas)) t mem a r t' mem'
                Hd Hb Hs H) as [Hwf' [Hlen [Hfresh [Hold _]]]].
    split; [exact Hwf' |]. split; [exact Hlen |]. split.
    + intros a' E. destruct (Hfresh a' E) as [-> | Hge]; [now left | now right].
    + intros b Hlt Hne. apply Hold; [exact Hlt | now apply Hne].
  - destruct (infer_dtype (kv :: meas)) as [ex | dt]; [exact (Hsame _ H) |].
    unfold np_empty_ref in H.
    set (a := mkRef (List.length mem) dt 2) in *.
    set (mem1 := mem ++ [repeat None 2]) in *.
    assert (Hb : ref_base a < List.length mem1).
    { unfold mem1. rewrite length_app. cbn. lia. }
    assert (Hs : ref_shape a = List.length (buffer_of mem1 a)).
    { unfold mem1. now rewrite buffer_of_new. }
    destruct (@store_row_ref_spec (map snd (kv :: meas))
                (mkTable (Some a) 0) mem1 a r t' mem' eq_refl Hb Hs H)
      as [Hwf' [Hlen [Hfresh [Hold _]]]].
    assert (Hl1 : List.length mem1 = S (List.length mem)).
    { unfold mem1. rewrite length_app. cbn. lia. }
    split; [exact Hwf' |]. split; [lia |]. split.
    + intros a' E. right. destruct (Hfresh a' E) as [-> | Hge]; cbn; lia.
    + intros b Hlt _. rewrite Hold; [| lia | cbn; lia].
      unfold mem1. now rewrite app_nth1.
Qed.

(** [append_ref] is [append] on the objects: from a table that shows the
    table of the engine, both return the same and the tables they leave
    show the same. *)
Lemma append_ref_simulates (meas : OrderedDict) (m : machine U)
    (t : table_ref) (mem : memory) :
  table_wf t mem -> shown t mem = table (self m) ->
  exists r t' mem' m',
    append_ref float_of_str meas t mem = (r, t', mem') /\
    append float_of_str meas m = (r, m', []) /\
    shown t' mem' = table (self m').
Proof.
  intros Hwf Hsh. unfold shown, table in Hsh. injection Hsh as Hd Hl.
  destruct meas as [| kv meas].
  { exists (inl ValueError), t, mem, m. repeat split.
    unfold shown, table. congruence. }
  destruct (append_ref float_of_str (kv :: meas) t mem) as [[r t'] mem']
    eqn:A.
  exists r, t', mem'. unfold append_ref in A. cbv zeta in A.
  unfold table_wf in Hwf.
  destruct (data_ref t) as [a |] eqn:Hdr; cbn [option_map] in Hd.
  - destruct Hwf as [Hb Hs]. symmetry in Hd.
    rewrite (@append_run U float_of_str m (deref mem a) (kv :: meas) Hd)
      by discriminate.
    change (names (arr_dtype (deref mem a))) with (names (ref_dtype a)).
    destruct (negb _).
    + inversion A; subst. exists m. repeat split. unfold shown, table.
      rewrite Hdr. cbn [option_map]. congruence.
    + cbv zeta.
      destruct (@store_row_ref_spec (map snd (kv :: meas)) t mem a r t' mem'
                  Hdr Hb Hs A) as [_ [_ [_ [_ E]]]].
      cbv zeta in E. rewrite Hl in E.
      destruct (shape0 (grown (deref mem a) (_len (self m)))
                  <=? _len (self m)).
      * pose proof (f_equal snd E) as Esh. pose proof (f_equal fst E) as Er.
        cbn [fst snd] in Esh, Er. subst r. eexists. split; [reflexivity |].
        split; [reflexivity |]. rewrite Esh. reflexivity.
      * destruct (store_fields float_of_str (arr_dtype (deref mem a))
                    (map snd (kv :: meas))) as [ex | row].
        -- pose proof (f_equal snd E) as Esh. pose proof (f_equal fst E) as Er.
        cbn [fst snd] in Esh, Er. subst r. eexists. split; [reflexivity |].
           split; [reflexivity |]. rewrite Esh. reflexivity.
        -- pose proof (f_equal snd E) as Esh. pose proof (f_equal fst E) as Er.
        cbn [fst snd] in Esh, Er. subst r. eexists. split; [reflexivity |].
           split; [reflexivity |]. rewrite Esh. reflexivity.
  - symmetry in Hd.
    rewrite (@append_first U float_of_str m (kv :: meas) Hd) by discriminate.
    destruct (infer_dtype (kv :: meas)) as [ex | dt].
    + inversion A; subst. exists m. repeat split. unfold shown, table.
      rewrite Hdr. cbn [option_map]. congruence.
    + unfold np_empty_ref in A.
      set (a := mkRef (List.length mem) dt 2) in *.
      set (mem1 := mem ++ [repeat None 2]) in *.
      assert (Hb : ref_base a < List.length mem1).
      { unfold mem1. rewrite length_app. cbn. lia. }
      assert (Hs : ref_shape a = List.length (buffer_of mem1 a)).
      { unfold mem1. now rewrite buffer_of_new. }
      destruct (@store_row_ref_spec (map snd (kv :: meas))
                  (mkTable (Some a) 0) mem1 a r t' mem' eq_refl Hb Hs A)
        as [_ [_ [_ [_ E]]]].
      cbv zeta in E. cbn [len_ref] in E.
      assert (Hv : deref mem1 a = np_empty 2 dt).
      { exact (deref_np_empty 2 dt mem). }
      rewrite Hv in E. set (data := map snd (kv :: meas)) in *.
      clearbody data. cbn in E.
      destruct (store_fields float_of_str dt data) as [ex | row].
      * pose proof (f_equal snd E) as Esh. pose proof (f_equal fst E) as Er.
        cbn [fst snd] in Esh, Er. subst r. eexists. split; [reflexivity |].
        split; [reflexivity |]. rewrite Esh. reflexivity.
      * pose proof (f_equal snd E) as Esh. pose proof (f_equal fst E) as Er.
        cbn [fst snd] in Esh, Er. subst r. eexists. split; [reflexivity |].
        split; [reflexivity |]. rewrite Esh. reflexivity.
Qed.

Lemma nth_error_list_set (A : Type) (x : A) (l : list A) : forall i,
  i < List.length l -> nth_error (list_set i x l) i = Some x.
Proof.
  induction l as [| y l IH]; intros [| i] H; cbn in *; try lia;
    [reflexivity | apply IH; lia].
Qed.

(** The appends after a copy was taken leave the buffer of the copy. *)
Lemma append_each_ref_keeps (records : list OrderedDict) :
  forall (t : table_ref) (mem : memory) (c : array_ref) t' mem',
  table_wf t mem -> ref_base c < List.length mem ->
  (forall a, data_ref t = Some a -> ref_base a <> ref_base c) ->
  append_each_ref float_of_str records t mem = (t', mem') ->
  buffer_of mem' c = buffer_of mem c.
Proof.
  induction records as [| r records IH]; intros t mem c t' mem' Hwf Hc Hne H;
    cbn [append_each_ref] in H.
  - now inversion H.
  - destruct (append_ref float_of_str r t mem) as [[r1 t1] mem1] eqn:A.
    destruct (@append_ref_frame r t mem r1 t1 mem1 Hwf A)
      as [Hwf1 [Hlen [Hfresh Hold]]].
    rewrite (IH t1 mem1 c t' mem' Hwf1); [| lia | | exact H].
    + unfold buffer_of. apply Hold; [exact Hc | exact Hne].
    + intros a E. destruct (Hfresh a E) as [E' | Hge]; [now apply Hne | lia].
Qed.

(** [get_data] on the objects: the array it returns shows the rows of
    the table and has a buffer of its own. *)
Lemma get_data_ref_copy (m : machine U) (t : table_ref) (mem : memory) av :
  table_wf t mem -> shown t mem = table (self m) ->
  _data (self m) = Some av ->
  exists a c mem',
    data_ref t = Some a /\
    get_data_ref t mem = inr (c, mem') /\
    get_data (self m) = inr (deref mem' c) /\
    ref_base a < List.length mem /\
    ref_base c = List.length mem /\
    List.length mem' = S (List.length mem) /\
    (forall b, b < List.length mem -> nth b mem' [] = nth b mem []).
Proof.
  intros Hwf Hsh Hd. unfold shown, table in Hsh. injection Hsh as Hdr Hl.
  unfold table_wf in Hwf. rewrite Hd in Hdr.
  destruct (data_ref t) as [a |] eqn:Ha; [| discriminate Hdr].
  destruct Hwf as [Hb Hs]. cbn [option_map] in Hdr. injection Hdr as Hav.
  exists a. unfold get_data_ref. rewrite Ha. unfold copy_ref.
  eexists. eexists. split; [reflexivity |]. split; [reflexivity |].
  cbn [ref_base]. rewrite length_app. cbn [List.length].
  split; [| split; [exact Hb |]; split; [reflexivity |]; split; [lia |];
            intros b Hlt; now rewrite app_nth1].
  unfold get_data. rewrite Hd. f_equal. rewrite <- Hav, <- Hl.
  unfold slice_to, deref, view_to, buffer_of.
  cbn [arr_dtype arr_buf ref_dtype ref_shape ref_base]. f_equal.
  rewrite app_nth2, Nat.sub_diag by lia. cbn [nth].
  rewrite !firstn_firstn. f_equal. lia.
Qed.

(** The array [get_data] returns is independent of the table: it has a
    buffer no other object looks at, a write through it leaves the table,
    and the appends that follow leave it; the slice handed to [plot] is a
    view, a write through it is a write into the table. *)
Lemma get_data_independent (m : machine U) (t : table_ref) (mem : memory) av :
  table_ok (self m) -> _data (self m) = Some av ->
  table_wf t mem -> shown t mem = table (self m) ->
  exists c mem',
    get_data_ref t mem = inr (c, mem') /\
    get_data (self m) = inr (deref mem' c) /\
    shown t mem' = table (self m) /\
    (forall r, ref_base r < List.length mem -> ref_base r <> ref_base c) /\
    (forall idx row, shown t (write_ref c idx row mem') = table (self m)) /\
    (forall records t' mem'',
        append_each_ref float_of_str records t mem' = (t', mem'') ->
        deref mem'' c = deref mem' c) /\
    (forall v idx row,
        plot_argument t = Some v -> idx < len_ref t ->
        exists a a',
          data_ref t = Some a /\ ref_base v = ref_base a /\
          fst (shown t (write_ref v idx row mem')) = Some a' /\
          nth_error (arr_buf a') idx = Some (Some row)).
Proof.
  intros Hok Hd Hwf Hsh.
  destruct (@get_data_ref_copy m t mem av Hwf Hsh Hd)
    as [a [c [mem' [Ha [Hget [Hval [Hb [Hc [Hlen Hold]]]]]]]]].
  exists c, mem'. split; [exact Hget |]. split; [exact Hval |].
  assert (Hwf' : table_wf t mem').
  { unfold table_wf in *. rewrite Ha in *. destruct Hwf as [_ Hs].
    split; [lia |]. unfold buffer_of in *. now rewrite Hold. }
  assert (Hsh' : shown t mem' = shown t mem).
  { unfold shown. rewrite Ha. cbn [option_map]. unfold deref, buffer_of.
    now rewrite Hold. }
  split; [congruence |]. split; [intros r Hr; lia |]. split.
  { intros idx row. rewrite <- Hsh, <- Hsh'. unfold shown. rewrite Ha.
    cbn [option_map]. unfold deref, buffer_of.
    rewrite write_ref_other by lia. reflexivity. }
  split.
  { intros records t' mem'' H. unfold deref. f_equal. f_equal.
    apply (@append_each_ref_keeps records t mem' c t' mem'' Hwf');
      [lia | | exact H].
    intros a0 E. rewrite Ha in E. inversion E; subst. lia. }
  intros v idx row Hv Hidx. unfold plot_argument in Hv. rewrite Ha in Hv.
  cbn [option_map] in Hv. inversion Hv; subst v. clear Hv.
  exists a. eexists. split; [exact Ha |]. split; [reflexivity |].
  unfold shown. rewrite Ha. cbn [option_map fst]. split; [reflexivity |].
  unfold table_wf in Hwf'. rewrite Ha in Hwf'. destruct Hwf' as [Hb' Hs'].
  unfold deref. cbn [arr_buf]. unfold buffer_of, write_ref.
  cbn [ref_base view_to buffer_of].
  rewrite nth_list_set_same by exact Hb'. fold (buffer_of mem' a).
  rewrite Hs'.
  rewrite <- (@list_set_app_length _ (Some row) (buffer_of mem' a) idx) at 1.
  rewrite firstn_all. apply nth_error_list_set.
  (* the rows of the table lie in the buffer *)
  unfold table_ok in Hok. rewrite Hd in Hok. destruct Hok as [Hle _].
  unfold shown, table in Hsh. rewrite Ha in Hsh. cbn [option_map] in Hsh.
  injection Hsh as Hdr Hl. rewrite Hd in Hdr. injection Hdr as Hav.
  rewrite <- Hav in Hle.
  unfold table_wf in Hwf. rewrite Ha in Hwf. destruct Hwf as [_ Hs].
  rewrite (@shape0_deref mem a Hs) in Hle.
  change (buffer_of mem' (view_to (len_ref t) a)) with (buffer_of mem' a).
  lia.
Qed.

(** C3, amended.  Once the table exists, that is from the first
    measurement on, [get_data] succeeds at every moment and returns the
    first [_len] rows of the table.  [start] and [stop] leave these rows
    as they are, so a restarted run continues the table of the runs
    before it; a tick leaves them as they are or puts exactly one row
    after them.  The array returned is an independent copy: on the array
    objects, [get_data] allocates a buffer no object that existed looks
    at, the array it returns shows the rows of the table, taking it
    leaves the table as it is, a write through it leaves the table as it
    is, and whatever records are appended afterwards leave it as it is;
    the slice handed to [plot] is a view on the buffer of the table, a
    write through it is a write into the table.  What [get_data] does
    before the table exists is not part of this statement. *)
Theorem get_data_once_table_exists :
  forall (m : machine U) a,
    table_ok (self m) -> _data (self m) = Some a ->
    get_data (self m) = inr (mkArray (arr_dtype a) (snapshot (self m))) /\
    List.length (snapshot (self m)) = _len (self m) /\
    (forall now interval,
        exists m' ev,
          start now interval m = (inr tt, m', ev) /\
          table_ok (self m') /\ get_data (self m') = get_data (self m)) /\
    (forall r m' ev,
        stop m = (r, m', ev) ->
        table_ok (self m') /\ get_data (self m') = get_data (self m)) /\
    (forall now r m' ev,
        _on_timer float_of_str now m = (r, m', ev) ->
        table_ok (self m') /\
        (get_data (self m') = get_data (self m) \/
         exists row,
           get_data (self m')
             = inr (mkArray (arr_dtype a) (snapshot (self m) ++ [Some row]))))
    /\
    (forall (t : table_ref) (mem : memory),
        table_wf t mem -> shown t mem = table (self m) ->
        exists c mem',
          get_data_ref t mem = inr (c, mem') /\
          get_data (self m) = inr (deref mem' c) /\
          shown t mem' = table (self m) /\
          (forall r, ref_base r < List.length mem ->
             ref_base r <> ref_base c) /\
          (forall idx row,
              shown t (write_ref c idx row mem') = table (self m)) /\
          (forall records t' mem'',
              append_each_ref float_of_str records t mem' = (t', mem'') ->
              deref mem'' c = deref mem' c) /\
          (forall v idx row,
              plot_argument t = Some v -> idx < len_ref t ->
              exists a0 a',
                data_ref t = Some a0 /\ ref_base v = ref_base a0 /\
                fst (shown t (write_ref v idx row mem')) = Some a' /\
                nth_error (arr_buf a') idx = Some (Some row))).
Proof.
  intros m a Hok Hd.
  destruct (@get_data_rows U float_of_str m a Hok Hd)
    as [H1 [H2 [H3 [H4 H5]]]].
  repeat (split; [assumption |]).
  intros t mem Hwf Hsh. exact (@get_data_independent m t mem a Hok Hd Hwf Hsh).
Qed.

End ObjectProperties.


(** ** Reading back *)

Lemma split_on_none (d : ascii) (s : string) :
  has_char d s = false -> split_on d s = [s].
Proof.
  induction s as [| c s IH]; cbn; [reflexivity |].
  destruct (Ascii.eqb c d); [discriminate |]. cbn. intros H.
  now rewrite (IH H).
Qed.



Lemma has_char_app (d : ascii) (s1 s2 : string) :
  has_char d (s1 ++ s2) = has_char d s1 || has_char d s2.
Proof.
  induction s1 as [| c s1 IH]; cbn; [reflexivity |].
  now rewrite IH, orb_assoc.
Qed.

Lemma has_char_concat (d : ascii) (sep : string) (cols : list string) :
  has_char d sep = false -> Forall (fun c => has_char d c = false) cols ->
  has_char d (String.concat sep cols) = false.
Proof.
  intros Hsep HF. induction HF as [| c cols Hc HF IH]; [reflexivity |].
  destruct cols as [| c' cols]; [exact Hc |].
  cbn [String.concat]. rewrite !has_char_app, Hc, Hsep. exact IH.
Qed.

(** *** Stripping *)

Lemma append_nil_r (s : string) : (s ++ EmptyString)%string = s.
Proof. induction s as [| c s IH]; cbn; [reflexivity | now rewrite IH]. Qed.

Lemma append_assoc (a b c : string) :
  ((a ++ b) ++ c)%string = (a ++ (b ++ c))%string.
Proof. induction a as [| x a IH]; cbn; [reflexivity | now rewrite IH]. Qed.

Lemma string_rev_app (a b : string) :
  string_rev (a ++ b) = (string_rev b ++ string_rev a)%string.
Proof.
  induction a as [| x a IH]; cbn.
  - now rewrite append_nil_r.
  - now rewrite IH, append_assoc.
Qed.

Lemma string_rev_involutive (s : string) : string_rev (string_rev s) = s.
Proof.
  induction s as [| c s IH]; cbn; [reflexivity |].
  rewrite string_rev_app, IH. reflexivity.
Qed.

Lemma string_rev_empty (s : string) :
  string_rev s = EmptyString -> s = EmptyString.
Proof.
  intros H. rewrite <- (string_rev_involutive s), H. reflexivity.
Qed.

Lemma lstrip_id (chars s : string) :
  starts_in chars s = false -> lstrip chars s = s.
Proof. destruct s as [| c s]; cbn; [reflexivity |]. now intros ->. Qed.

Lemma strip_id (chars s : string) :
  starts_in chars s = false -> starts_in chars (string_rev s) = false ->
  strip chars s = s.
Proof.
  intros H1 H2. unfold strip.
  now rewrite (lstrip_id _ _ H1), (lstrip_id _ _ H2), string_rev_involutive.
Qed.

Lemma starts_in_app (chars a b : string) :
  a <> EmptyString -> starts_in chars (a ++ b) = starts_in chars a.
Proof. destruct a; [congruence | reflexivity]. Qed.

Lemma has_other_app (chars a b : string) :
  has_other chars (a ++ b) = has_other chars a || has_other chars b.
Proof.
  induction a as [| c a IH]; cbn; [reflexivity |].
  now rewrite IH, orb_assoc.
Qed.

Lemma has_other_rev (chars s : string) :
  has_other chars (string_rev s) = has_other chars s.
Proof.
  induction s as [| c s IH]; cbn; [reflexivity |].
  rewrite has_other_app, IH. cbn. rewrite orb_false_r. apply orb_comm.
Qed.

Lemma has_other_lstrip (chars s : string) :
  has_other chars (lstrip chars s) = has_other chars s.
Proof.
  induction s as [| c s IH]; cbn; [reflexivity |].
  destruct (has_char c chars) eqn:E; cbn; [exact IH | now rewrite E].
Qed.

Lemma has_other_nonempty (chars s : string) :
  has_other chars s = true -> s <> EmptyString.
Proof. destruct s; [discriminate | discriminate]. Qed.

(** A text that holds a character outside [chars] is not stripped away. *)
Lemma strip_other (chars s : string) :
  has_other chars s = true -> strip chars s <> EmptyString.
Proof.
  intros H. apply has_other_nonempty with (chars := chars). unfold strip.
  now rewrite has_other_rev, has_other_lstrip, has_other_rev,
    has_other_lstrip.
Qed.

Lemma has_char_rev (d : ascii) (s : string) :
  has_char d (string_rev s) = has_char d s.
Proof.
  induction s as [| c s IH]; cbn; [reflexivity |].
  rewrite has_char_app, IH. cbn. rewrite orb_false_r. apply orb_comm.
Qed.

Lemma has_char_lstrip (d : ascii) (chars s : string) :
  has_char d s = false -> has_char d (lstrip chars s) = false.
Proof.
  induction s as [| c s IH]; cbn; [reflexivity |]. intros H.
  apply orb_false_iff in H. destruct H as [H1 H2].
  destruct (has_char c chars); [now apply IH |]. cbn. now rewrite H1, H2.
Qed.

(** Stripping brings no character in. *)
Lemma has_char_strip (d : ascii) (chars s : string) :
  has_char d s = false -> has_char d (strip chars s) = false.
Proof.
  intros H. unfold strip. rewrite has_char_rev. apply has_char_lstrip.
  rewrite has_char_rev. now apply has_char_lstrip.
Qed.

(** *** The lines of the file *)

Lemma lines_from_nonempty (s : string) :
  forall after_cr, lines_from after_cr s <> [].
Proof.
  induction s as [| c s IH]; intros after_cr; cbn; [discriminate |].
  destruct (Ascii.eqb c "010"); [destruct after_cr; [apply IH | discriminate] |].
  destruct (Ascii.eqb c "013"); [discriminate |].
  destruct (lines_from false s); discriminate.
Qed.

(** A printed line without line ends of its own is the first line read. *)
Lemma lines_from_line (h t : string) :
  has_char "010" h = false -> has_char "013" h = false ->
  lines_from false (h ++ String "010" t) = h :: lines_from false t.
Proof.
  induction h as [| c h IH]; cbn; [reflexivity |]. intros H1 H2.
  apply orb_false_iff in H1. destruct H1 as [H1 H1'].
  apply orb_false_iff in H2. destruct H2 as [H2 H2'].
  rewrite H1, H2. now rewrite (IH H1' H2').
Qed.

Lemma text_lines_head (h t : string) :
  has_char "010" h = false -> has_char "013" h = false ->
  exists rest, text_lines (h ++ String "010" t) = h :: rest.
Proof.
  intros H1 H2. unfold text_lines. rewrite (@lines_from_line h t H1 H2).
  pose proof (lines_from_nonempty t false) as Hne.
  destruct (lines_from false t) as [| l L]; [congruence |]. clear Hne.
  cbn [rev]. destruct (rev L ++ [l]) as [| x xs] eqn:E.
  { apply app_eq_nil in E. destruct E as [_ E]. discriminate E. }
  cbn [app]. destruct x as [| a x].
  - rewrite rev_app_distr. cbn. eexists. reflexivity.
  - eexists. reflexivity.
Qed.

Lemma text_lines_empty : text_lines (text_of []) = [].
Proof. reflexivity. Qed.

(** *** The header *)

Lemma header_values_plain (h : string) :
  h <> EmptyString -> has_char "#" h = false ->
  starts_in line_ends h = false ->
  starts_in line_ends (string_rev h) = false ->
  header_values h = split_on "," h.
Proof.
  intros Hne Hc H1 H2. unfold header_values. rewrite Hc.
  rewrite (split_on_none _ _ Hc). cbn [hd]. rewrite (strip_id _ _ H1 H2).
  destruct h; [congruence | reflexivity].
Qed.

Lemma split_on_nonempty (d : ascii) (s : string) : split_on d s <> [].
Proof.
  induction s as [| c s IH]; cbn; [discriminate |].
  destruct (Ascii.eqb c d); [discriminate |].
  destruct (split_on d s); [congruence | discriminate].
Qed.

Lemma header_name_parts (c : string) :
  header_name c = true ->
  has_other whitespace c = true /\ c <> EmptyString /\
  has_char "," c = false /\ has_char "#" c = false /\
  has_char "013" c = false /\ has_char "010" c = false /\
  starts_in line_ends c = false /\
  starts_in line_ends (string_rev c) = false.
Proof.
  unfold header_name. rewrite !andb_true_iff, !negb_true_iff.
  intros [[[[[[H1 H2] H3] H4] H5] H6] H7].
  repeat split; try assumption. now apply has_other_nonempty in H1.
Qed.

(** The header line of names that are all header names. *)
Lemma header_line (sep : string) (cols : list string) :
  cols <> [] -> Forall (fun c => header_name c = true) cols ->
  let h := String.concat sep cols in
  h <> EmptyString /\ has_other whitespace h = true /\
  starts_in line_ends h = false /\
  starts_in line_ends (string_rev h) = false.
Proof.
  intros Hne HF. cbv zeta.
  induction HF as [| c cols Hc HF IH]; [congruence |].
  apply header_name_parts in Hc.
  destruct Hc as [Ho [Hn [_ [_ [_ [_ [Hs He]]]]]]].
  destruct cols as [| c' cols].
  - cbn. now repeat split.
  - cbn [String.concat].
    destruct IH as [IH1 [_ [_ IH4]]]; [discriminate |].
    set (t := String.concat sep (c' :: cols)) in *.
    split; [destruct c; [congruence | discriminate] |].
    split; [now rewrite has_other_app, Ho |].
    split; [now rewrite starts_in_app |].
    rewrite !string_rev_app, append_assoc, starts_in_app; [exact IH4 |].
    intros E. apply string_rev_empty in E. exact (IH1 E).
Qed.

Lemma header_name_chars (d : ascii) (cols : list string) :
  (forall c, header_name c = true -> has_char d c = false) ->
  Forall (fun c => header_name c = true) cols ->
  Forall (fun c => has_char d c = false) cols.
Proof. intros H HF. eapply Forall_impl; [| exact HF]. exact H. Qed.

Lemma split_on_has_char (d : ascii) (s : string) :
  forall field, In field (split_on "," s) ->
  has_char d s = false -> has_char d field = false.
Proof.
  induction s as [| a s IH]; cbn; intros field Hin Hs.
  - destruct Hin as [<- | []]. reflexivity.
  - apply orb_false_iff in Hs. destruct Hs as [Ha Hs].
    destruct (Ascii.eqb a ",").
    + destruct Hin as [<- | Hin]; [reflexivity | now apply IH].
    + pose proof (split_on_nonempty "," s) as Hn.
      destruct (split_on "," s) as [| x xs]; [congruence |].
      destruct Hin as [<- | Hin].
      * cbn. rewrite Ha. apply IH; [now left | exact Hs].
      * apply IH; [now right | exact Hs].
Qed.

(** What [read_csv] takes from a file whose first line is a header [h]:
    the fields of [h] between the commas, when [h] holds no comment mark
    and no line end, does not begin or end with a space, and its first
    field is not blank. *)
Lemma read_csv_header_line (U : Type) (filename h : string)
    (lines : list string) (first : string) (fields : list string)
    (w : World U) :
  files w filename = Some (h :: lines) ->
  has_char "#" h = false -> has_char "013" h = false ->
  has_char "010" h = false ->
  starts_in line_ends h = false ->
  starts_in line_ends (string_rev h) = false ->
  split_on "," h = first :: fields ->
  has_other whitespace first = true ->
  read_csv_header filename w = Some (first :: fields).
Proof.
  intros Hf Hc Hcr Hlf Hst He Hsp Ho.
  assert (Hh : h <> EmptyString).
  { intros ->. cbn in Hsp. inversion Hsp; subst. discriminate Ho. }
  unfold read_csv_header. rewrite Hf. cbn [text_of].
  destruct (@text_lines_head h (text_of lines) Hlf Hcr) as [rest ->].
  cbn [first_values]. rewrite (@header_values_plain h Hh Hc Hst He), Hsp.
  assert (Hc' : has_char "#" first = false).
  { apply (@split_on_has_char "#" h); [rewrite Hsp; now left | exact Hc]. }
  cbv zeta.
  destruct (String.eqb_spec (strip whitespace first) EmptyString)
    as [E1 | _].
  { now apply strip_other in Ho. }
  destruct (String.eqb_spec (strip whitespace first) "#") as [E2 | _].
  { apply (@has_char_strip "#" whitespace) in Hc'. rewrite E2 in Hc'.
    discriminate Hc'. }
  reflexivity.
Qed.

(** The same for a header line the logger writes. *)
Lemma read_csv_header_names (U : Type) (filename sep : string)
    (cols lines : list string) (first : string) (fields : list string)
    (w : World U) :
  files w filename = Some (String.concat sep cols :: lines) ->
  cols <> [] -> Forall (fun c => header_name c = true) cols ->
  has_char "#" sep = false -> has_char "013" sep = false ->
  has_char "010" sep = false ->
  split_on "," (String.concat sep cols) = first :: fields ->
  has_other whitespace first = true ->
  read_csv_header filename w = Some (first :: fields).
Proof.
  intros Hf Hne HF Hs1 Hs2 Hs3 Hsp Ho.
  destruct (@header_line sep cols Hne HF) as [_ [_ [Hst He]]].
  apply read_csv_header_line
    with (h := String.concat sep cols) (lines := lines); try assumption.
  - apply has_char_concat; [exact Hs1 |].
    apply (header_name_chars "#"); [| exact HF].
    intros c Hc. now apply header_name_parts in Hc.
  - apply has_char_concat; [exact Hs2 |].
    apply (header_name_chars "013"); [| exact HF].
    intros c Hc. now apply header_name_parts in Hc.
  - apply has_char_concat; [exact Hs3 |].
    apply (header_name_chars "010"); [| exact HF].
    intros c Hc. now apply header_name_parts in Hc.
Qed.

(** Before the first [log] nothing is on disk: [read_csv] finds an empty
    file and fails. *)
Lemma read_csv_before_first_log (U : Type) (filename sep : string)
    (data : void) (w : World U) :
  files w filename = None ->
  read_csv_header filename (snd (CsvLogger_start filename sep data w))
  = None.
Proof.
  intros Hf.
  destruct (csv_start_fresh filename sep data w Hf) as [w1 [-> [Hf1 _]]].
  cbn [snd]. unfold read_csv_header. now rewrite Hf1.
Qed.

(** C9.  A file written with another separator than the comma is not read
    back.  After [CsvLogger('out.csv', sep=';')] has logged a row with
    the columns time and current and closed the file, the file holds the
    header [time;current] and the line of the row, and [read_csv], whose
    delimiter is the constant [','], takes the header for the single
    column [time;current] instead of the columns time and current.  With
    the default separator the same session is read back as the columns
    time and current. *)
Theorem read_csv_semicolon :
  files world_semicolon "out.csv" = Some ["time;current"; "1.0;0.0"] /\
  read_csv_header "out.csv" world_semicolon = Some ["time;current"] /\
  read_csv_header "out.csv" world_semicolon
    <> Some (names dtype_time_current) /\
  files world_comma "out.csv" = Some ["time,current"; "1.0,0.0"] /\
  read_csv_header "out.csv" world_comma = Some (names dtype_time_current).
Proof. repeat split. discriminate. Qed.


(** X13.  No other separator is read back.  After a session of a
    [CsvLogger] whose separator holds no comma (and no comment mark ['#']
    and no line end), for samples of two or more columns whose names are
    header names, [read_csv] takes the whole header line for one field:
    it never gets the column names the logger wrote. *)
Theorem csv_other_separator_not_read_back :
  forall (U : Type) (str_of_value : value -> string) (filename sep : string)
         (first : void) (rest : list void) (w : World U) c1 c2 cs,
    files w filename = None ->
    has_char "," sep = false -> has_char "#" sep = false ->
    has_char "013" sep = false -> has_char "010" sep = false ->
    names (void_dtype first) = c1 :: c2 :: cs ->
    Forall (fun c => header_name c = true) (names (void_dtype first)) ->
    let w' := snd (logger_session (CsvLogger U str_of_value filename sep)
                                  first rest w) in
    read_csv_header filename w'
      = Some [String.concat sep (names (void_dtype first))] /\
    read_csv_header filename w' <> Some (names (void_dtype first)).
Proof.
  intros U sv filename sep first rest w c1 c2 cs Hf Hsep Hs1 Hs2 Hs3 Hn Hc w'.
  destruct (@csv_session_files U sv filename sep first rest w Hf)
    as [w2 [Hrun [Hf' _]]].
  subst w'. rewrite Hrun. cbn [snd].
  assert (Hne : names (void_dtype first) <> []) by (rewrite Hn; discriminate).
  destruct (@header_line sep _ Hne Hc) as [_ [Ho _]].
  assert (Hsp : split_on "," (String.concat sep (names (void_dtype first)))
                = [String.concat sep (names (void_dtype first))]).
  { apply split_on_none. apply has_char_concat; [exact Hsep |].
    apply (header_name_chars ","); [| exact Hc].
    intros c Hc'. now apply header_name_parts in Hc'. }
  rewrite (@read_csv_header_names U filename sep _ _ _ _ w2
             Hf' Hne Hc Hs1 Hs2 Hs3 Hsp Ho).
  split; [reflexivity |]. rewrite Hn. intros E. inversion E.
Qed.

(** ** The plotter *)

Lemma ceil_div_spec (n c : nat) :
  0 < c -> n <= ceil_div n c * c /\ (0 < n -> (ceil_div n c - 1) * c < n).
Proof.
  intros Hc. unfold ceil_div.
  pose proof (Nat.div_mod (n + c - 1) c) as E.
  pose proof (Nat.mod_upper_bound (n + c - 1) c) as B.
  assert (Hc' : c <> 0) by lia. specialize (E Hc'). specialize (B Hc').
  set (q := (n + c - 1) / c) in *. set (r := (n + c - 1) mod c) in *.
  split; [nia |]. intros Hn. destruct q as [| q]; [nia |].
  cbn [Nat.sub]. rewrite Nat.sub_0_r. nia.
Qed.

(** The grid of [layout]. *)
Lemma layout_grid (n : nat) (axes : list Axes) :
  layout n = inr axes ->
  let c := Nat.sqrt_up n in
  let r := ceil_div n c in
  axes = map (fun i => mkAxes r c (i + 1)) (seq 0 n) /\
  0 < n /\ n <= r * c /\ (r - 1) * c < n /\ r <= c /\ c <= r + 1 /\
  (c - 1) * (c - 1) < n /\ n <= c * c.
Proof.
  unfold layout. cbv zeta. destruct (Nat.sqrt_up n =? 0) eqn:Z;
    [discriminate |].
  intros H. inversion H; subst. clear H. apply Nat.eqb_neq in Z.
  assert (Hn : 0 < n).
  { destruct n; [| lia]. exfalso. apply Z. reflexivity. }
  pose proof (Nat.sqrt_up_spec n Hn) as [Hlo Hhi].
  assert (Hc : 0 < Nat.sqrt_up n) by lia.
  pose proof (ceil_div_spec n Hc) as [Hr1 Hr2]. specialize (Hr2 Hn).
  set (c := Nat.sqrt_up n) in *. set (r := ceil_div n c) in *.
  destruct c as [| c']; [lia |]. cbn [Nat.pred] in Hlo.
  replace (S c' - 1) with c' by lia.
  destruct r as [| r']; [nia |].
  replace (S r' - 1) with r' in * by lia.
  repeat split; try lia; try nia.
Qed.

Lemma layout_length (n : nat) (axes : list Axes) :
  layout n = inr axes -> List.length axes = n.
Proof.
  unfold layout. cbv zeta. destruct (Nat.sqrt_up n =? 0); [discriminate |].
  intros H. inversion H. now rewrite length_map, length_seq.
Qed.

Lemma call_axes (p : PlotterObject) (data : ndarray) p' dr :
  Plotter__call__ p data = (inr tt, p', dr) ->
  _columns p' = _columns p /\ _style p' = _style p /\
  List.length (_axes p') = List.length (plotted_columns p data) /\
  (_axes p = [] \/ layout (List.length (_axes p)) = inr (_axes p) ->
   _axes p' = [] \/ layout (List.length (_axes p')) = inr (_axes p')).
Proof.
  unfold Plotter__call__. destruct (getitem "time" data) as [time |];
    [| discriminate].
  cbv zeta.
  destruct (List.length (plotted_columns p data) =? List.length (_axes p))
    eqn:E.
  - intros H. inversion H; subst. cbn. apply Nat.eqb_eq in E.
    now repeat split.
  - destruct (layout (List.length (plotted_columns p data))) as [e | axes]
      eqn:L; [discriminate |].
    intros H. inversion H; subst. cbn.
    pose proof (layout_length _ L) as Hl. repeat split; [exact Hl |].
    intros _. right. now rewrite Hl.
Qed.

Lemma plot_all_axes (datas : list ndarray) : forall p p',
  plot_all p datas = inr p' ->
  (_axes p = [] \/ layout (List.length (_axes p)) = inr (_axes p)) ->
  _axes p' = [] \/ layout (List.length (_axes p')) = inr (_axes p').
Proof.
  induction datas as [| data datas IH]; intros p p' H Hinv; cbn in H.
  - now inversion H; subst.
  - destruct (Plotter__call__ p data) as [[[e | []] p1] dr] eqn:C;
      [discriminate |].
    apply call_axes in C. destruct C as [_ [_ [_ Hstep]]].
    apply (IH p1 p' H). now apply Hstep.
Qed.

(** X14.  The grid of the plotter.  Whatever arrays a [Plotter] has been
    called with, the axes it holds all lie on one grid of [n_rows] by
    [n_cols] subplots and have the indices 1, 2, ... in order; the grid
    has room for all of them, no row of it is empty, and it is square or
    one row short of square, [n_cols] being the least number whose
    square is the number of axes or more. *)
Theorem plotter_grid :
  forall (columns : option (list string)) (style : option string)
         (datas : list ndarray) (p : PlotterObject) (i : nat) (axis : Axes),
    plot_all (Plotter__init__ columns style) datas = inr p ->
    nth_error (_axes p) i = Some axis ->
    let n := List.length (_axes p) in
    let r := subplot_rows axis in
    let c := subplot_cols axis in
    subplot_index axis = i + 1 /\
    c = Nat.sqrt_up n /\ r = ceil_div n c /\
    n <= r * c /\ (r - 1) * c < n /\ r <= c /\ c <= r + 1 /\
    (c - 1) * (c - 1) < n /\ n <= c * c.
Proof.
  intros columns style datas p i axis H Hi n r c.
  apply plot_all_axes in H; [| now left].
  destruct H as [E | L].
  { rewrite E in Hi. destruct i; discriminate Hi. }
  apply layout_grid in L. cbv zeta in L. fold n in L.
  destruct L as [Hax Hgrid].
  assert (Hlt : i < n).
  { apply nth_error_Some. congruence. }
  rewrite Hax in Hi.
  rewrite nth_error_map, nth_error_seq in Hi.
  destruct (i <? n) eqn:Z; [| apply Nat.ltb_ge in Z; lia].
  cbn in Hi. inversion Hi; subst axis. subst r c. cbn.
  split; [reflexivity |]. split; [reflexivity |]. split; [reflexivity |].
  tauto.
Qed.

Lemma default_columns_are_fields (dt : dtype) (name : string) :
  In name (names dt) -> field_type name dt <> None.
Proof.
  unfold field_type, names. induction dt as [| [k t] dt IH]; cbn;
    [tauto |].
  intros [-> | H].
  - now rewrite String.eqb_refl.
  - destruct (String.eqb name k); [discriminate | now apply IH].
Qed.

Lemma draw_default (style : string) (time : list (option value))
    (data : ndarray) (pairs : list (Axes * string)) :
  Forall (fun pair => In (snd pair) (names (arr_dtype data))) pairs ->
  flat_map (draw_column style time data) pairs
  = flat_map (fun pair =>
                [Cla (fst pair);
                 Plot (fst pair) time
                      match getitem (snd pair) data with
                      | Some y => y
                      | None => []
                      end
                      style;
                 SetTitle (fst pair) (snd pair)])
             pairs.
Proof.
  induction 1 as [| [axis column] pairs Hin HF IH]; [reflexivity |].
  cbn [flat_map]. rewrite IH. f_equal. unfold draw_column. cbn [fst snd] in *.
  unfold getitem. apply default_columns_are_fields in Hin.
  now destruct (field_type column (arr_dtype data)).
Qed.

(** X15.  What the default plotter draws.  A [Plotter] made without
    columns, called with an array that has a time field, returns
    normally when the array has another field besides, or when the
    plotter holds no axes yet: it then holds one axes for every field
    but the time, and in the order of the fields each axes is cleared,
    gets the plot of its column against the time, and gets the name of
    the column as title; no column is skipped.  Called with an array
    without a time field it raises the [ValueError] of numpy, draws
    nothing and keeps its axes. *)
Theorem plotter_default_draws :
  forall (p : PlotterObject) (data : ndarray),
    _columns p = None ->
    let columns :=
      filter (fun name => negb (String.eqb name "time"))
             (names (arr_dtype data)) in
    (getitem "time" data = None ->
     Plotter__call__ p data = (inl (NoFieldError "time"), p, [])) /\
    (forall time,
        getitem "time" data = Some time ->
        columns <> [] \/ _axes p = [] ->
        exists p',
          Plotter__call__ p data
            = (inr tt, p',
               flat_map (fun pair =>
                           [Cla (fst pair);
                            Plot (fst pair) time
                                 match getitem (snd pair) data with
                                 | Some y => y
                                 | None => []
                                 end
                                 (_style p);
                            SetTitle (fst pair) (snd pair)])
                        (combine (_axes p') columns)) /\
          List.length (_axes p') = List.length columns).
Proof.
  intros p data Hcols columns. split.
  - intros Ht. unfold Plotter__call__. now rewrite Ht.
  - intros time Ht Hne. unfold Plotter__call__. rewrite Ht. cbv zeta.
    unfold plotted_columns. rewrite Hcols. fold columns.
    assert (Hin : forall axes : list Axes,
              Forall (fun pair => In (snd pair) (names (arr_dtype data)))
                     (combine axes columns)).
    { intros axes. apply Forall_forall. intros [axis column] Hp.
      apply in_combine_r in Hp. subst columns. apply filter_In in Hp.
      exact (proj1 Hp). }
    destruct (List.length columns =? List.length (_axes p)) eqn:E.
    + apply Nat.eqb_eq in E.
      exists (mkPlotter (_columns p) (_style p) (_axes p)). cbn [_axes].
      rewrite draw_default by apply Hin. rewrite Hcols. now split.
    + assert (Hpos : columns <> []).
      { destruct Hne as [H | H]; [exact H |]. rewrite H in E.
        destruct columns; [discriminate E | discriminate]. }
      unfold layout. cbv zeta.
      destruct (Nat.sqrt_up (List.length columns) =? 0) eqn:Z.
      { apply Nat.eqb_eq in Z. destruct columns as [| c cs]; [congruence |].
        exfalso. pose proof (proj2 (Nat.sqrt_up_pos (List.length (c :: cs))))
          as Hs. cbn [List.length] in *. lia. }
      exists (mkPlotter (_columns p) (_style p)
                (map (fun i =>
                        mkAxes (ceil_div (List.length columns)
                                         (Nat.sqrt_up (List.length columns)))
                               (Nat.sqrt_up (List.length columns)) (i + 1))
                     (seq 0 (List.length columns)))).
      cbn [_axes]. rewrite draw_default by apply Hin. rewrite Hcols.
      split; [reflexivity |]. now rewrite length_map, length_seq.
Qed.

(** ** The record of a tick *)

Lemma dict_set_fresh (k : string) (v : value) (d : OrderedDict) :
  ~ In k (map fst d) -> dict_set k v d = d ++ [(k, v)].
Proof.
  induction d as [| [k' v'] d IH]; cbn; [reflexivity |].
  intros H. destruct (String.eqb k k') eqn:E.
  - apply String.eqb_eq in E. subst. tauto.
  - rewrite IH by tauto. reflexivity.
Qed.

Lemma dict_update_fresh (kvs : list (string * value)) :
  forall d : OrderedDict,
  NoDup (map fst kvs) ->
  (forall k, In k (map fst kvs) -> ~ In k (map fst d)) ->
  dict_update kvs d = d ++ kvs.
Proof.
  unfold dict_update.
  induction kvs as [| [k v] kvs IH]; intros d Hnd Hfresh; cbn.
  - now rewrite app_nil_r.
  - cbn in Hnd. inversion Hnd as [| k0 l Hk Hnd']; subst.
    rewrite dict_set_fresh by (apply Hfresh; now left).
    rewrite IH; [now rewrite <- app_assoc | exact Hnd' |].
    intros k' Hk'. rewrite map_app, in_app_iff. cbn.
    intros [H | [H | []]].
    + apply (Hfresh k'); [now right | exact H].
    + subst. contradiction.
Qed.

Lemma dict_set_keys (k : string) (v : value) (d : OrderedDict) :
  In k (map fst d) -> map fst (dict_set k v d) = map fst d.
Proof.
  induction d as [| [k' v'] d IH]; cbn; [tauto |].
  intros H. destruct (String.eqb k k') eqn:E.
  - apply String.eqb_eq in E. now subst.
  - cbn. f_equal. apply IH. destruct H as [H | H]; [| exact H].
    subst. now rewrite String.eqb_refl in E.
Qed.

(** X19.  The record a tick hands to its hooks.  With condition
    variables of distinct names, none of them ['time'], and a row of as
    many values, the record holds the elapsed time first and then the
    condition values under their names, in the order of the conditions:
    these are the first columns of the table.  A condition variable
    called ['time'] takes the place of the elapsed time: the record
    keeps a single column of that name, holding the condition value. *)
Theorem record_columns :
  forall (t0 now : float) (vars : list string) (vals : list value),
    (NoDup vars -> ~ In "time" vars -> List.length vals = List.length vars ->
     record_of t0 vars vals now
       = ("time", VFloat (PrimFloat.sub now t0)) :: combine vars vals /\
     map fst (record_of t0 vars vals now) = "time" :: vars) /\
    (forall v, record_of t0 ["time"] [v] now = [("time", v)]).
Proof.
  intros t0 now vars vals. split; [| reflexivity].
  intros Hnd Htime Hlen. unfold record_of.
  assert (Hk : map fst (combine vars vals) = vars).
  { revert vals Hlen. clear. induction vars as [| x vars IH];
      intros [| v vals] Hlen; cbn in *; try discriminate; [reflexivity |].
    f_equal. apply IH. lia. }
  rewrite dict_update_fresh.
  - cbn [app]. split; [reflexivity |]. cbn [map fst]. now rewrite Hk.
  - now rewrite Hk.
  - rewrite Hk. intros k Hin [H | []]. cbn in H. subst. contradiction.
Qed.

(** X20.  The plotter and arrays without columns.  A [Plotter] made
    without columns that holds axes already, called with an array whose
    only field is the time, raises [ZeroDivisionError] (the grid for no
    plots has [n_cols = 0], and [n_plots/n_cols] divides by it); it draws
    nothing and keeps its axes.  A plotter that holds no axes yet
    returns normally on such an array and draws nothing. *)
Theorem plotter_without_columns :
  forall (p : PlotterObject) (data : ndarray) time,
    _columns p = None ->
    getitem "time" data = Some time ->
    filter (fun name => negb (String.eqb name "time"))
           (names (arr_dtype data)) = [] ->
    (_axes p <> [] ->
     Plotter__call__ p data = (inl ZeroDivisionError, p, [])) /\
    (_axes p = [] ->
     Plotter__call__ p data
       = (inr tt, mkPlotter (_columns p) (_style p) [], [])).
Proof.
  intros p data time Hcols Ht Hnone. unfold Plotter__call__.
  rewrite Ht. cbv zeta. unfold plotted_columns. rewrite Hcols, Hnone.
  cbn [List.length]. split.
  - intros Hax. destruct (_axes p) as [| a axes]; [congruence |].
    reflexivity.
  - intros ->. reflexivity.
Qed.

(** X21.  A column that is not there is skipped in silence.  A
    [Plotter] called with an array that has a time field plots each of
    its columns in the axes of the column's position; for a column that
    is no field of the array (the [ValueError] caught by [__call__]) the
    axes is cleared and gets its title, nothing is plotted in it, no
    exception is raised, and the columns after it are drawn as if it
    were there. *)
Theorem plotter_skips_missing_column :
  forall (p : PlotterObject) (data : ndarray) time before column after,
    getitem "time" data = Some time ->
    _columns p = Some (before ++ column :: after) ->
    getitem column data = None ->
    exists p' axes1 axis axes2,
      _axes p' = axes1 ++ axis :: axes2 /\
      List.length axes1 = List.length before /\
      List.length axes2 = List.length after /\
      Plotter__call__ p data
        = (inr tt, p',
           flat_map (draw_column (_style p) time data)
                    (combine axes1 before)
             ++ [Cla axis; SetTitle axis column]
             ++ flat_map (draw_column (_style p) time data)
                         (combine axes2 after)).
Proof.
  intros p data time before column after Ht Hcols Hmiss.
  unfold Plotter__call__. rewrite Ht. cbv zeta. unfold plotted_columns.
  rewrite Hcols.
  assert (Hsplit : forall axes : list Axes,
    List.length axes = List.length (before ++ column :: after) ->
    exists axes1 axis axes2,
      axes = axes1 ++ axis :: axes2 /\
      List.length axes1 = List.length before /\
      List.length axes2 = List.length after /\
      flat_map (draw_column (_style p) time data)
               (combine axes (before ++ column :: after))
      = flat_map (draw_column (_style p) time data) (combine axes1 before)
          ++ [Cla axis; SetTitle axis column]
          ++ flat_map (draw_column (_style p) time data)
                      (combine axes2 after)).
  { intros axes Hlen. rewrite length_app in Hlen. cbn [List.length] in Hlen.
    exists (firstn (List.length before) axes).
    destruct (skipn (List.length before) axes) as [| axis axes2] eqn:Hs.
    { apply (f_equal (@List.length Axes)) in Hs. rewrite length_skipn in Hs.
      cbn in Hs. lia. }
    exists axis, axes2.
    assert (Hax : axes = firstn (List.length before) axes ++ axis :: axes2).
    { rewrite <- Hs. symmetry. apply firstn_skipn. }
    assert (Hl1 : List.length (firstn (List.length before) axes)
                  = List.length before).
    { rewrite length_firstn. lia. }
    split; [exact Hax |]. split; [exact Hl1 |].
    split.
    { apply (f_equal (@List.length Axes)) in Hs. rewrite length_skipn in Hs.
      cbn in Hs. lia. }
    rewrite Hax at 1.
    generalize (firstn (List.length before) axes) Hl1. clear - Hmiss.
    intros axes1. revert axes1.
    induction before as [| b before IH]; intros [| a1 axes1] Hl;
      cbn in Hl; try discriminate.
    - cbn [app combine flat_map]. unfold draw_column at 1.
      now rewrite Hmiss.
    - cbn [app combine flat_map]. rewrite <- app_assoc. f_equal.
      apply IH. lia. }
  destruct (List.length (before ++ column :: after) =? List.length (_axes p))
    eqn:E.
  - apply Nat.eqb_eq in E.
    destruct (Hsplit (_axes p) (eq_sym E))
      as [axes1 [axis [axes2 [Hax [Hl1 [Hl2 Hdraw]]]]]].
    exists (mkPlotter (Some (before ++ column :: after)) (_style p) (_axes p)),
      axes1, axis, axes2.
    cbn [_axes]. rewrite Hdraw. now repeat split.
  - destruct (layout (List.length (before ++ column :: after)))
      as [e | axes] eqn:L.
    { exfalso. unfold layout in L. cbv zeta in L.
      destruct (Nat.sqrt_up _ =? 0) eqn:Z; [| discriminate L].
      apply Nat.eqb_eq in Z. rewrite length_app in Z. cbn [List.length] in Z.
      pose proof (proj2 (Nat.sqrt_up_pos
                           (List.length before + S (List.length after)))).
      lia. }
    destruct (Hsplit axes (layout_length _ L))
      as [axes1 [axis [axes2 [Hax [Hl1 [Hl2 Hdraw]]]]]].
    exists (mkPlotter (Some (before ++ column :: after)) (_style p) axes),
      axes1, axis, axes2.
    cbn [_axes]. rewrite Hdraw. now repeat split.
Qed.

(* ------------------------------------------------------------------ *)
(** * The properties on concrete runs *)

Lemma sweep_determinism_witness :
  exists m0 outs m6 m7,
    start 0 0 (mkMachine experiment_sweep_csv empty_world)
      = (inr tt, m0, [TimerStart (0 * 1000)]) /\
    fire float_of_str_example [1; 2; 3; 4; 5; 6]%float m0 = (outs, m6) /\
    map bound_v outs
      = map Some [VInt 1; VInt 1; VInt 2; VInt 2; VInt 3; VInt 3] /\
    _on_timer float_of_str_example 7 m6
      = (inr tt, m7, [TimerStop; CallLogFinish 0]) /\
    _timer (self m7) = false /\
    table (self m7) = table (self m6).
Proof.
  destruct (@sweep_determinism unit float_of_str_example str_of_value_example
              (mkMachine experiment_sweep_csv empty_world)
              0%float 0%Z 1%float 2%float 3%float 4%float 5%float 6%float
              7%float eq_refl eq_refl)
    as [m0 [outs [m6 [r7 [m7 [ev7 [Hs [Hf [Hv [H7 [Hti [Ht [_ [_ [_
         [Hev [_ Hcsv]]]]]]]]]]]]]]]]].
  assert (Hr : r7 = inr tt).
  { apply (Hcsv "out.csv" ","%string).
    - reflexivity.
    - split; [| split; constructor]. intros x w. repeat split; reflexivity.
    - reflexivity.
    - assert (Ho : outs = fst (fire float_of_str_example
                                 [1; 2; 3; 4; 5; 6]%float m0))
        by now rewrite Hf.
      injection Hs as Hm0. subst m0. rewrite Ho. eexists.
      vm_compute. reflexivity. }
  exists m0, outs, m6, m7. rewrite Hr in H7. rewrite (Hev Hr) in H7.
  repeat split; assumption.
Defined.

(** The claim of C2 as written fails: the second record has the columns
    of the first accepted one, in order, and the tick appends nothing; it
    raises the [ValueError] of the conversion of ['abc'] to a float, or
    the [OverflowError] of the conversion of the int 2^1024. *)
Lemma schema_freeze_counterexample :
  let m := after_first_tick (experiment_of (measure_x (VStr "abc")))
                            counting_world in
  let m' := after_first_tick (experiment_of (measure_x (VInt (2 ^ 1024))))
                             counting_world in
  get_data (self m)
    = inr (mkArray [("time", PyFloat); ("x", PyFloat)]
                   [Some [VFloat 1; VFloat 1.5]]) /\
  _measure (self m) [("time", VFloat 2)] (world m)
    = (inr [("time", VFloat 2); ("x", VStr "abc")], counted (world m)) /\
  fst (fst (_on_timer float_of_str_example 2 m)) = inl ValueError /\
  snd (_on_timer float_of_str_example 2 m)
    = [CallMeasure [("time", VFloat 2)]; TimerStop] /\
  get_data (self (snd (fst (_on_timer float_of_str_example 2 m))))
    = get_data (self m) /\
  fst (fst (_on_timer float_of_str_example 2 m')) = inl OverflowError /\
  get_data (self (snd (fst (_on_timer float_of_str_example 2 m'))))
    = get_data (self m').
Proof. vm_compute. repeat split. Qed.

(** The claim of C3 as written fails: before the first sample [get_data]
    raises, and after a restart it returns the rows of the earlier run
    too; here the second run has taken one sample and [get_data] returns
    two rows. *)
Lemma get_data_counterexample :
  get_data experiment_current = inl TypeError /\
  match two_runs (mkMachine experiment_current empty_world) with
  | (r, m, ev) =>
      r = inr tt /\
      ev = [TimerStart 0; CallMeasure [("time", VFloat 1)]; TimerStop;
            TimerStart 0; CallMeasure [("time", VFloat 0.5)]] /\
      get_data (self m)
        = inr (mkArray dtype_time_current
                 [Some [VFloat 1; VFloat 0]; Some [VFloat 0.5; VFloat 0]])
  end.
Proof. vm_compute. repeat split. Qed.

(** The claim of C4 as written fails: with value sequences of lengths 2
    and 1 nothing is raised; [start] returns, the first tick measures
    under a = 1, b = 10, and the second tick finds the sweep exhausted. *)
Lemma sweep_construction_counterexample :
  exists m0,
    start 0 0 (mkMachine experiment_unequal empty_world)
      = (inr tt, m0, [TimerStart 0]) /\
    _variable_values_iter (self m0) = [[VInt 1; VInt 10]] /\
    fst (fire float_of_str_example [1; 2]%float m0)
      = [(inr tt,
          [CallApplyCondition
             [("time", VFloat 1); ("a", VInt 1); ("b", VInt 10)];
           CallMeasure
             [("time", VFloat 1); ("a", VInt 1); ("b", VInt 10)]]);
         (inr tt, [TimerStop])].
Proof. eexists. vm_compute. repeat split. Qed.

Lemma append_growth_witness :
  exists m',
    append_all float_of_str_example
      (map record_at [1; 2; 3; 4; 5; 6; 7; 8; 9]%float)
      (mkMachine experiment_empty_table empty_world)
    = (inr (map (mkVoid dtype_time_current)
              (map (fun t => [VFloat t; VFloat 0])
                 [1; 2; 3; 4; 5; 6; 7; 8; 9]%float)),
       m', []) /\
    get_data (self m')
    = inr (mkArray dtype_time_current
             (map Some (map (fun t => [VFloat t; VFloat 0])
                          [1; 2; 3; 4; 5; 6; 7; 8; 9]%float))) /\
    List.length (map Some (map (fun t : float => [VFloat t; VFloat 0])
                             [1; 2; 3; 4; 5; 6; 7; 8; 9]%float))
    = List.length (map record_at [1; 2; 3; 4; 5; 6; 7; 8; 9]%float).
Proof.
  apply (proj2 (@append_growth unit float_of_str_example)).
  - reflexivity.
  - reflexivity.
  - discriminate.
  - repeat constructor.
Defined.

Lemma schema_freeze_witness :
  let mA := after_first_tick (experiment_of (measure_x (VFloat 2.5)))
                             counting_world in
  let mB := after_first_tick (experiment_of measure_x_then_y)
                             counting_world in
  (exists r m' ev,
      _on_timer float_of_str_example 2 mA = (r, m', ev) /\
      get_data (self m')
        = inr (mkArray [("time", PyFloat); ("x", PyFloat)]
                 ([Some [VFloat 1; VFloat 1.5]]
                    ++ [Some [VFloat 2; VFloat 2.5]])) /\
      List.length (snapshot (self m'))
        = S (List.length (snapshot (self mA)))) /\
  (exists m',
      _on_timer float_of_str_example 2 mB
        = (inl schema_error, m',
           [] ++ [CallMeasure [("time", VFloat 2)]] ++ [TimerStop]) /\
      _timer (self m') = false /\
      table (self m') = table (self mB) /\
      get_data (self m') = get_data (self mB) /\
      get_data (self m')
        = inr (mkArray [("time", PyFloat); ("x", PyFloat)]
                 [Some [VFloat 1; VFloat 1.5]])).
Proof.
  intros mA mB. split.
  - edestruct (@schema_freeze nat float_of_str_example 2%float mA)
      as [Hacc _].
    + unfold table_ok. cbn. repeat split; [lia | lia | discriminate].
    + vm_compute. reflexivity.
    + vm_compute. reflexivity.
    + vm_compute. reflexivity.
    + apply (Hacc [VFloat 2; VFloat 2.5]); reflexivity.
  - edestruct (@schema_freeze nat float_of_str_example 2%float mB)
      as [_ Hrej].
    + unfold table_ok. cbn. repeat split; [lia | lia | discriminate].
    + vm_compute. reflexivity.
    + vm_compute. reflexivity.
    + vm_compute. reflexivity.
    + apply Hrej; discriminate.
Defined.

Lemma get_data_once_table_exists_witness :
  let m := after_first_tick experiment_current empty_world in
  let t := mkTable (Some (mkRef 0 dtype_time_current 2)) 1 in
  let mem := [[Some [VFloat 1; VFloat 0]; None]] in
  get_data (self m)
    = inr (mkArray dtype_time_current [Some [VFloat 1; VFloat 0]]) /\
  List.length (snapshot (self m)) = 1 /\
  (exists m' ev,
      start 10 0 m = (inr tt, m', ev) /\
      table_ok (self m') /\ get_data (self m') = get_data (self m)) /\
  (forall now r m' ev,
      _on_timer float_of_str_example now m = (r, m', ev) ->
      table_ok (self m') /\
      (get_data (self m') = get_data (self m) \/
       exists row,
         get_data (self m')
           = inr (mkArray dtype_time_current
                    ([Some [VFloat 1; VFloat 0]] ++ [Some row])))) /\
  exists c mem',
    get_data_ref t mem = inr (c, mem') /\
    c = mkRef 1 dtype_time_current 1 /\
    mem' = [[Some [VFloat 1; VFloat 0]; None]; [Some [VFloat 1; VFloat 0]]] /\
    get_data (self m) = inr (deref mem' c) /\
    (forall idx row, shown t (write_ref c idx row mem') = table (self m)) /\
    (forall records t' mem'',
        append_each_ref float_of_str_example records t mem' = (t', mem'') ->
        deref mem'' c = deref mem' c).
Proof.
  intros m t mem.
  destruct (@get_data_once_table_exists unit float_of_str_example m
              (mkArray dtype_time_current [Some [VFloat 1; VFloat 0]; None]))
    as [Hget [Hlen [Hstart [_ [Htick Hcopy]]]]].
  - unfold table_ok. cbn. repeat split; [lia | lia | discriminate].
  - reflexivity.
  - split; [exact Hget |]. split; [exact Hlen |].
    split; [exact (Hstart 10%float 0%Z) |]. split; [exact Htick |].
    destruct (Hcopy t mem) as [c [mem' [Hc [Hv [_ [_ [Hw [Hk _]]]]]]]].
    + unfold table_wf. cbn. split; [lia | reflexivity].
    + reflexivity.
    + exists c, mem'. split; [exact Hc |].
      assert (E : (c, mem')
                  = (mkRef 1 dtype_time_current 1,
                     [[Some [VFloat 1; VFloat 0]; None];
                      [Some [VFloat 1; VFloat 0]]])).
      { unfold t, mem in Hc. vm_compute in Hc. now inversion Hc. }
      split; [congruence |]. split; [congruence |].
      split; [exact Hv |]. split; [exact Hw | exact Hk].
Defined.


Lemma fail_stop_witness :
  let m4 := snd (fst (bind (start 0 0)
                        (fun _ => run_ticks float_of_str_example
                                    [1; 2; 3; 4]%float)
                        (mkMachine (experiment_of (measure_failing 4))
                                   counting_world))) in
  exists m5,
    _on_timer float_of_str_example 5 m4
      = (inl (UserError 5), m5,
         [] ++ [CallMeasure [("time", VFloat 5)]; TimerStop]) /\
    _timer (self m5) = false /\
    get_data (self m5) = get_data (self m4) /\
    exists dt rws,
      get_data (self m5) = inr (mkArray dt (stored rws)) /\
      List.length rws = 4.
Proof.
  intros m4.
  eapply (@fail_stop nat float_of_str_example (fun _ w => (inr tt, w))
            (measure_failing 4) (Some (Sequence [])) (Sequence []) [] None
            (Sequence []) counting_world 0%float 0%Z [1; 2; 3; 4]%float m4).
  - reflexivity.
  - vm_compute. reflexivity.
  - reflexivity.
  - vm_compute. reflexivity.
  - vm_compute. reflexivity.
Defined.



Lemma csv_logger_exclusive_create_witness :
  let m := mkMachine (started 0 experiment_csv) world_with_file in
  let row := mkVoid dtype_time_current [VFloat 1; VFloat 0] in
  CsvLogger_start "out.csv" "," row world_with_file
    = (inl FileExistsError, world_with_file) /\
  exists m',
    _on_timer float_of_str_example 1 m
      = (inl FileExistsError, m',
         [] ++ [CallMeasure [("time", VFloat 1)]]
            ++ map (fun j => CallLogStart j row) (seq 0 1)
            ++ [TimerStop]) /\
    _timer (self m') = false /\
    files (world m') "out.csv" = Some ["old"] /\
    snapshot (self m') = [Some [VFloat 1; VFloat 0]].
Proof.
  intros m row.
  destruct (@csv_logger_exclusive_create unit float_of_str_example
              str_of_value_example "out.csv" "," ["old"]) as [Hstart Htick].
  split.
  - apply Hstart. reflexivity.
  - set (meas0 := [("time", VFloat 1)] : OrderedDict).
    set (m1 := snd (fst (prepare 1 m))).
    set (m2 := snd (fst (measure meas0 m1))).
    set (m3 := snd (fst (append float_of_str_example (record_at 1) m2))).
    apply (Htick m 1%float [] [] meas0 m1 [] (record_at 1) m2
                 [CallMeasure meas0] row m3 []).
    + reflexivity.
    + reflexivity.
    + vm_compute. reflexivity.
    + vm_compute. reflexivity.
    + vm_compute. reflexivity.
    + reflexivity.
    + intros logger [].
Defined.

Lemma sweep_construction_witness :
  exists m',
    start 0 0 (mkMachine experiment_unequal empty_world)
      = (inr tt, m', [TimerStart (0 * 1000)]) /\
    _variables (self m') = ["a"; "b"] /\
    List.length (_variable_values_iter (self m')) = 1 /\
    nth_error (_variable_values_iter (self m')) 0 = Some [VInt 1; VInt 10] /\
    Forall2 (fun l v => nth_error l 0 = Some v)
            [[VInt 1; VInt 2]; [VInt 10]] [VInt 1; VInt 10].
Proof.
  destruct (@sweep_construction unit no_plotter measure_current
              (Some (Sequence [])) (Sequence [])
              ("a", [VInt 1; VInt 2]) [("b", [VInt 10])] None (Sequence [])
              empty_world 0%float 0%Z) as [m' [Hs [Hv [Hl Hn]]]].
  exists m'. split; [exact Hs |]. split; [exact Hv |]. split; [exact Hl |].
  assert (Hrow : nth_error (_variable_values_iter (self m')) 0
                 = Some [VInt 1; VInt 10]).
  { unfold experiment_unequal in Hs. rewrite start_run in Hs.
    inversion Hs. reflexivity. }
  split; [exact Hrow | exact (Hn 0 _ Hrow)].
Defined.

Lemma get_data_rows_fit_witness :
  let m := run_ops float_of_str_example calls_example
             (mkMachine experiment_current empty_world) in
  get_data (self m)
    = inr (mkArray dtype_time_current
             [Some [VFloat 1; VFloat 0]; Some [VFloat 2; VFloat 0];
              Some [VFloat 3; VFloat 0]; Some [VFloat 1; VFloat 0]]) /\
  List.length [[VFloat 1; VFloat 0]; [VFloat 2; VFloat 0];
               [VFloat 3; VFloat 0]; [VFloat 1; VFloat 0]]
    = _len (self m).
Proof.
  intros m.
  assert (G : get_data (self m)
              = inr (mkArray dtype_time_current
                       [Some [VFloat 1; VFloat 0]; Some [VFloat 2; VFloat 0];
                        Some [VFloat 3; VFloat 0]; Some [VFloat 1; VFloat 0]])).
  { vm_compute. reflexivity. }
  split; [exact G |].
  exact (proj1 (@get_data_rows_fit unit float_of_str_example no_plotter
                  measure_current (Some (Sequence [])) (Sequence []) [] None
                  (Sequence []) empty_world calls_example _ G)).
Defined.

Lemma buffer_capacity_witness :
  let m := run_ops float_of_str_example calls_example
             (mkMachine experiment_current empty_world) in
  exists a,
    _data (self m) = Some a /\
    (exists j, shape0 a = 2 ^ S j) /\
    _len (self m) <= shape0 a /\
    shape0 a <= Nat.max 2 (2 * _len (self m)).
Proof.
  intros m. eexists. split; [vm_compute; reflexivity |].
  apply (@buffer_capacity unit float_of_str_example no_plotter
           measure_current (Some (Sequence [])) (Sequence []) [] None
           (Sequence []) empty_world calls_example).
  vm_compute. reflexivity.
Defined.

Lemma collected_rows_stay_witness :
  let m := run_ops float_of_str_example [OpStart 0 0; OpTick 1; OpTick 2]
             (mkMachine experiment_current empty_world) in
  let m' := run_ops float_of_str_example [OpTick 3; OpStop; OpStart 10 0;
                                          OpTick 11] m in
  exists more,
    get_data (self m')
    = inr (mkArray dtype_time_current
             ([Some [VFloat 1; VFloat 0]; Some [VFloat 2; VFloat 0]]
                ++ more)).
Proof.
  intros m m'.
  apply (@collected_rows_stay unit float_of_str_example no_plotter
           measure_current (Some (Sequence [])) (Sequence []) [] None
           (Sequence []) empty_world [OpStart 0 0; OpTick 1; OpTick 2]
           [OpTick 3; OpStop; OpStart 10 0; OpTick 11]
           (mkArray dtype_time_current
              [Some [VFloat 1; VFloat 0]; Some [VFloat 2; VFloat 0]])).
  vm_compute. reflexivity.
Defined.

Lemma tick_never_arms_witness :
  let m := mkMachine experiment_current empty_world in
  let m' := mkMachine (set_timer false experiment_current) empty_world in
  _on_timer float_of_str_example 1 m = (inl TypeError, m', [TimerStop]) /\
  _timer (self m') = false /\
  exists m1 ev1,
    tick_body float_of_str_example 1 m = (inl TypeError, m1, ev1) /\
    [TimerStop] = ev1 ++ [TimerStop].
Proof.
  intros m m'.
  assert (T : _on_timer float_of_str_example 1 m
              = (inl TypeError, m', [TimerStop])).
  { vm_compute. reflexivity. }
  split; [exact T |].
  exact (proj1 (@tick_never_arms unit float_of_str_example 1%float m _ _ _ T)
               TypeError eq_refl).
Defined.

Lemma sink_failure_keeps_row_witness :
  let m := mkMachine (started 0 experiment_plot_failing) empty_world in
  exists m',
    _on_timer float_of_str_example 1 m
      = (inl (UserError 7), m',
         [] ++ [CallMeasure [("time", VFloat 1)]]
            ++ [CallPlot 0 (mkArray dtype_time_current
                              [Some [VFloat 1; VFloat 0]])]
            ++ [TimerStop]) /\
    _timer (self m') = false /\
    _len (self m') = S (_len (self m)) /\
    get_data (self m')
      = inr (mkArray dtype_time_current
               (snapshot (self m) ++ [Some [VFloat 1; VFloat 0]])).
Proof.
  intros m.
  set (m1 := snd (fst (prepare 1 m))).
  set (m2 := snd (fst (measure [("time", VFloat 1)] m1))).
  set (m3 := snd (fst (append float_of_str_example (record_at 1) m2))).
  set (m4 := snd (fst (report (sample_at 1) m3))).
  apply (@sink_failure_keeps_row unit float_of_str_example 1%float m
           [("time", VFloat 1)] m1 [] (record_at 1) m2
           [CallMeasure [("time", VFloat 1)]] (sample_at 1) m3 []
           (UserError 7) m4
           [CallPlot 0 (mkArray dtype_time_current
                          [Some [VFloat 1; VFloat 0]])]).
  - reflexivity.
  - vm_compute. reflexivity.
  - vm_compute. reflexivity.
  - vm_compute. reflexivity.
  - vm_compute. reflexivity.
Defined.

Lemma run_without_conditions_witness :
  let m := mkMachine experiment_current empty_world in
  let m0 := mkMachine (started 0 (self m)) (world m) in
  (forall interval,
      start 0 interval m = (inr tt, m0, [TimerStart (interval * 1000)])) /\
  (forall outs m',
      fire float_of_str_example [1; 2; 3]%float m0 = (outs, m') ->
      records outs
        = map (fun now => Some [("time", VFloat (PrimFloat.sub now 0))])
              [1; 2; 3]%float) /\
  (forall m' ev,
      table_ok (self m) ->
      run_ticks float_of_str_example [1; 2; 3]%float m0 = (inr tt, m', ev) ->
      _timer (self m') = true /\
      _len (self m') = _len (self m) + List.length [1; 2; 3]%float).
Proof.
  intros m m0.
  apply (@run_without_conditions unit float_of_str_example m 0%float
           [1; 2; 3]%float).
  - reflexivity.
  - reflexivity.
Defined.

Lemma run_of_n_samples_witness :
  let m := mkMachine experiment_three empty_world in
  let out := fire float_of_str_example [1; 2; 3]%float
               (mkMachine (started 0 (self m)) (world m)) in
  records (fst out)
    = map (fun now => Some [("time", VFloat (PrimFloat.sub now 0))])
          [1; 2; 3]%float /\
  forall now, exists m2,
    _on_timer float_of_str_example now (snd out)
      = (inr tt, m2,
         TimerStop :: map CallLogFinish
                          (seq 0 (List.length (_log (self m))))) /\
    _timer (self m2) = false /\ table (self m2) = table (self (snd out)).
Proof.
  intros m out. subst out.
  destruct (fire float_of_str_example [1; 2; 3]%float
              (mkMachine (started 0 (self m)) (world m)))
    as [outs m1] eqn:F.
  cbn [fst snd].
  destruct (@run_of_n_samples unit float_of_str_example str_of_value_example
              m 0%float 3%Z [1; 2; 3]%float outs m1 eq_refl eq_refl eq_refl F)
    as [Hrec Hlast].
  split; [exact Hrec |]. intros now.
  destruct (Hlast now)
    as [r [m2 [ev [T [Hti [Ht [_ [_ [Hev [Hok _]]]]]]]]]].
  assert (Hr : r = inr tt).
  { apply Hok. intros logger [<- | []] w. reflexivity. }
  exists m2. rewrite Hr in T. rewrite (Hev Hr) in T.
  repeat split; assumption.
Defined.

Lemma sweep_in_order_witness :
  let m := mkMachine experiment_two_variables empty_world in
  let out := fire float_of_str_example [1; 2; 3; 4]%float
               (mkMachine (started 0 (self m)) (world m)) in
  records (fst out)
    = planned 0 ["a"; "b"] [1; 2; 3; 4]%float
        [[VInt 1; VInt 10]; [VInt 1; VInt 10];
         [VInt 2; VInt 20]; [VInt 2; VInt 20]] /\
  forall now, exists m2,
    _on_timer float_of_str_example now (snd out)
      = (inr tt, m2, TimerStop :: map CallLogFinish (seq 0 1)) /\
    _timer (self m2) = false /\ table (self m2) = table (self (snd out)).
Proof.
  intros m out. subst out.
  destruct (fire float_of_str_example [1; 2; 3; 4]%float
              (mkMachine (started 0 (self m)) (world m)))
    as [outs m1] eqn:F.
  cbn [fst snd].
  assert (Hc : _conditions (self m) <> []) by discriminate.
  destruct (@sweep_in_order unit float_of_str_example str_of_value_example
              m 0%float 2%Z [1; 2; 3; 4]%float outs m1 Hc eq_refl eq_refl F)
    as [Hrec Hlast].
  split; [exact Hrec |]. intros now.
  destruct (Hlast now)
    as [r [m2 [ev [T [Hti [Ht [_ [_ [Hev [Hok _]]]]]]]]]].
  assert (Hr : r = inr tt).
  { apply Hok. intros logger [<- | []] w. reflexivity. }
  exists m2. rewrite Hr in T. rewrite (Hev Hr) in T.
  repeat split; assumption.
Defined.

Lemma first_row_forever_witness :
  let m := mkMachine experiment_held empty_world in
  let out := fire float_of_str_example [1; 2; 3; 4]%float
               (mkMachine (started 0 (self m)) (world m)) in
  records (fst out)
    = map (fun now => Some (record_of 0 ["v"] [VInt 1] now))
          [1; 2; 3; 4]%float.
Proof.
  intros m out. subst out.
  destruct (fire float_of_str_example [1; 2; 3; 4]%float
              (mkMachine (started 0 (self m)) (world m)))
    as [outs m1] eqn:F.
  cbn [fst].
  apply (@first_row_forever unit float_of_str_example m 0%float
           [1; 2; 3; 4]%float [VInt 1] [[VInt 2]; [VInt 3]] outs m1).
  - discriminate.
  - reflexivity.
  - reflexivity.
  - exact F.
Defined.

Lemma apply_condition_on_change_witness :
  let m := mkMachine (started 0 experiment_two_variables) empty_world in
  let out := _on_timer float_of_str_example 1 m in
  exists ev',
    snd out
      = CallApplyCondition (record_of 0 ["a"; "b"] [VInt 1; VInt 10] 1)
          :: ev' /\
    filter is_apply_condition ev' = [].
Proof.
  intros m out.
  refine (proj2 (@apply_condition_on_change unit float_of_str_example
                   1%float m (fst (fst out)) (snd (fst out)) (snd out)
                   (Fin 2) ["a"; "b"] [] [[VInt 1; VInt 10];
                                          [VInt 2; VInt 20]]
                   0%float _ _)
                _ [VInt 1; VInt 10] [[VInt 2; VInt 20]] _).
  - reflexivity.
  - vm_compute. reflexivity.
  - reflexivity.
  - reflexivity.
Defined.

Lemma csv_logger_session_witness :
  exists w',
    logger_session (CsvLogger unit str_of_value_example "out.csv" ",")
      (mkVoid [("time", PyFloat); ("state", PyObject)]
              [VFloat 1; VStr "on"])
      [mkVoid [("time", PyFloat); ("state", PyObject)]
              [VFloat 2; VStr "off"]]
      empty_world
      = (inr tt, w') /\
    files w' "out.csv" = Some ["time,state"; "1.0,on"; "2.0,off"].
Proof.
  destruct (@csv_logger_session unit str_of_value_example "out.csv" ","
              (mkVoid [("time", PyFloat); ("state", PyObject)]
                      [VFloat 1; VStr "on"])
              [mkVoid [("time", PyFloat); ("state", PyObject)]
                      [VFloat 2; VStr "off"]]
              empty_world eq_refl) as [w' [Hrun [Hf _]]].
  exists w'. split; [exact Hrun | exact Hf].
Defined.

Lemma stop_before_first_sample_witness :
  let m := mkMachine (started 0 experiment_csv) empty_world in
  stop m = (inl AttributeError,
            mkMachine (set_timer false (self m)) (world m),
            [TimerStop; CallLogFinish 0]).
Proof.
  intros m.
  apply (@stop_before_first_sample unit str_of_value_example m "out.csv" ","
           []).
  - reflexivity.
  - reflexivity.
Defined.



Lemma csv_other_separator_not_read_back_witness :
  let w' := snd (logger_session
                   (CsvLogger unit str_of_value_example "out.csv" ";")
                   (sample_at 1) [sample_at 2] empty_world) in
  read_csv_header "out.csv" w' = Some ["time;current"] /\
  read_csv_header "out.csv" w' <> Some ["time"; "current"].
Proof.
  apply (@csv_other_separator_not_read_back unit str_of_value_example
           "out.csv" ";" (sample_at 1) [sample_at 2] empty_world
           "time" "current" []).
  - reflexivity.
  - reflexivity.
  - reflexivity.
  - reflexivity.
  - reflexivity.
  - reflexivity.
  - repeat constructor.
Defined.

Lemma plotter_grid_witness :
  exists p,
    plot_all (Plotter__init__ None None)
             [array_four_columns; array_four_columns] = inr p /\
    nth_error (_axes p) 2 = Some (mkAxes 2 2 3) /\
    List.length (_axes p) = 3 /\
    3 <= 2 * 2 /\ (2 - 1) * 2 < 3.
Proof.
  exists (mkPlotter None "+-" [mkAxes 2 2 1; mkAxes 2 2 2; mkAxes 2 2 3]).
  assert (H1 : plot_all (Plotter__init__ None None)
                        [array_four_columns; array_four_columns]
               = inr (mkPlotter None "+-"
                        [mkAxes 2 2 1; mkAxes 2 2 2; mkAxes 2 2 3])).
  { vm_compute. reflexivity. }
  split; [exact H1 |]. split; [reflexivity |]. split; [reflexivity |].
  pose proof (@plotter_grid None None
                [array_four_columns; array_four_columns] _ 2
                (mkAxes 2 2 3) H1 eq_refl) as H.
  cbv zeta in H. cbn [subplot_rows subplot_cols _axes List.length] in H.
  split; [exact (proj1 (proj2 (proj2 (proj2 H))))
         | exact (proj1 (proj2 (proj2 (proj2 (proj2 H)))))].
Defined.

Lemma plotter_default_draws_witness :
  exists p',
    Plotter__call__ (Plotter__init__ None None) array_four_columns
      = (inr tt, p',
         flat_map (fun pair =>
                     [Cla (fst pair);
                      Plot (fst pair)
                           [Some (VFloat 1); Some (VFloat 2)]
                           match getitem (snd pair) array_four_columns with
                           | Some y => y
                           | None => []
                           end
                           "+-";
                      SetTitle (fst pair) (snd pair)])
                  (combine (_axes p') ["a"; "b"; "c"])) /\
    List.length (_axes p') = 3.
Proof.
  apply (proj2 (@plotter_default_draws (Plotter__init__ None None)
                  array_four_columns eq_refl)
               [Some (VFloat 1); Some (VFloat 2)]).
  - reflexivity.
  - left. discriminate.
Defined.


Lemma record_columns_witness :
  record_of 0 ["a"; "b"] [VInt 1; VInt 10] 1
    = ("time", VFloat (PrimFloat.sub 1 0))
        :: combine ["a"; "b"] [VInt 1; VInt 10] /\
  map fst (record_of 0 ["a"; "b"] [VInt 1; VInt 10] 1) = "time" :: ["a"; "b"].
Proof.
  apply (proj1 (@record_columns 0%float 1%float ["a"; "b"]
                  [VInt 1; VInt 10])).
  - constructor; [intros [H | []]; discriminate H |].
    constructor; [intros [] | constructor].
  - intros [H | [H | []]]; discriminate H.
  - reflexivity.
Defined.

Lemma plotter_without_columns_witness :
  Plotter__call__ (mkPlotter None "+-" [mkAxes 1 1 1])
                  (mkArray [("time", PyFloat)] [Some [VFloat 1]])
  = (inl ZeroDivisionError, mkPlotter None "+-" [mkAxes 1 1 1], []).
Proof.
  apply (proj1 (@plotter_without_columns
                  (mkPlotter None "+-" [mkAxes 1 1 1])
                  (mkArray [("time", PyFloat)] [Some [VFloat 1]])
                  [Some (VFloat 1)] eq_refl eq_refl eq_refl)).
  discriminate.
Defined.

Lemma plotter_skips_missing_column_witness :
  exists p' axes1 axis axes2,
    _axes p' = axes1 ++ axis :: axes2 /\
    List.length axes1 = List.length ["a"] /\
    List.length axes2 = List.length ["b"] /\
    Plotter__call__ (Plotter__init__ (Some ["a"; "x"; "b"]) None)
                    array_four_columns
      = (inr tt, p',
         flat_map (draw_column "+-" [Some (VFloat 1); Some (VFloat 2)]
                               array_four_columns)
                  (combine axes1 ["a"])
           ++ [Cla axis; SetTitle axis "x"]
           ++ flat_map (draw_column "+-" [Some (VFloat 1); Some (VFloat 2)]
                                    array_four_columns)
                       (combine axes2 ["b"])).
Proof.
  apply (@plotter_skips_missing_column
           (Plotter__init__ (Some ["a"; "x"; "b"]) None) array_four_columns
           [Some (VFloat 1); Some (VFloat 2)] ["a"] "x" ["b"]).
  - reflexivity.
  - reflexivity.
  - reflexivity.
Defined.
